(** * Price-extraction engine of the price tracker

    A shallow embedding of [services/price_scraper.py]: the regular
    expressions it uses (with the priorities of Python's backtracking
    matcher), [parse_price], [extract_price] over a parsed document, and the
    two fetch strategies with their exception handlers.

    Conventions.
    - A Python [str] is a list of characters; a character is a code point
      below 256 (Latin-1).  On that range [\d] is [0-9] and [\s], as well as
      [str.strip], is the set of [str.isspace] code points.
    - A float is the exact decimal it was read from, kept as a reduced
      rational.  [float()] rounds to the nearest double, which is monotone
      and fixes 10 and 1000000, and the literal [0.01] is rounded the same
      way as the text "0.01"; the comparisons of the source therefore give
      the same answers on the exact values. *)

From Stdlib Require Import Ascii String Bool Arith ZArith QArith Qreduction Qround Lia.
From Stdlib Require Import List.
Import ListNotations.
Local Open Scope string_scope.
Local Open Scope list_scope.

Set Implicit Arguments.

(** ** Characters and strings *)

Definition str := list ascii.

Definition str_of_string (s : string) : str := list_ascii_of_string s.
Coercion str_of_string : string >-> str.

Definition code (c : ascii) : nat := nat_of_ascii c.

(** [\d] *)
Definition is_digit (c : ascii) : bool :=
  (48 <=? code c)%nat && (code c <=? 57)%nat.

(** [\s], and the characters [str.strip()] removes *)
Definition is_space (c : ascii) : bool :=
  ((9 <=? code c)%nat && (code c <=? 13)%nat)
  || ((28 <=? code c)%nat && (code c <=? 32)%nat)
  || (code c =? 133)%nat || (code c =? 160)%nat.

Definition is_char (a : ascii) (c : ascii) : bool := Ascii.eqb a c.

(** [[$R]] *)
Definition is_currency (c : ascii) : bool :=
  is_char "$" c || is_char "R" c.

(** [[,\s]] *)
Definition is_separator (c : ascii) : bool :=
  is_char "," c || is_space c.

(** ASCII lower-casing, for patterns compiled with [re.I] *)
Definition lower (c : ascii) : ascii :=
  if (65 <=? code c)%nat && (code c <=? 90)%nat
  then ascii_of_nat (code c + 32) else c.

(** ** Regular expressions with Python's matching priorities *)

Inductive regex : Type :=
| Eps : regex
| Chr : (ascii -> bool) -> regex
| Seq : regex -> regex -> regex
| Alt : regex -> regex -> regex
| Star : regex -> regex
| Group : regex -> regex.

(** [r+], [r?], [r{2}], [r{3}]: all greedy *)
Definition Plus (r : regex) : regex := Seq r (Star r).
Definition Opt (r : regex) : regex := Alt r Eps.
Definition Rep2 (r : regex) : regex := Seq r r.
Definition Rep3 (r : regex) : regex := Seq r (Seq r r).

(** The matcher state: what is left of the subject, and group 1. *)
Record mstate : Type := MState { rest : str; group1 : option str }.

Section Matcher.
Variable A : Type.

(** Greedy iteration: one more round of [step] is tried before leaving the
    loop, and a round that consumes nothing ends it. *)
Fixpoint star_loop (step : mstate -> (mstate -> option A) -> option A)
         (k : mstate -> option A) (fuel : nat) (st : mstate) : option A :=
  match fuel with
  | O => k st
  | S fuel' =>
      match step st (fun st' =>
               if (length (rest st') <? length (rest st))%nat
               then star_loop step k fuel' st' else None) with
      | Some a => Some a
      | None => k st
      end
  end.

(** [m r st k]: match [r] at the head of [rest st], then run [k] on what
    follows; alternatives are tried in the order a backtracking matcher
    tries them. *)
Fixpoint m (r : regex) (st : mstate) (k : mstate -> option A) : option A :=
  match r with
  | Eps => k st
  | Chr p =>
      match rest st with
      | c :: s' => if p c then k (MState s' (group1 st)) else None
      | [] => None
      end
  | Seq r1 r2 => m r1 st (fun st' => m r2 st' k)
  | Alt r1 r2 =>
      match m r1 st k with
      | Some a => Some a
      | None => m r2 st k
      end
  | Star r1 => star_loop (m r1) k (length (rest st)) st
  | Group r1 =>
      m r1 st (fun st' =>
        k (MState (rest st')
             (Some (firstn (length (rest st) - length (rest st')) (rest st)))))
  end.
End Matcher.

(** A match object: the text matched ([group(0)]), group 1, and the text
    after the match. *)
Record rmatch : Type := RMatch { group0 : str; group_1 : option str; after : str }.

(** [pattern.match(s)]: a match anchored at the start of [s] *)
Definition match_here (r : regex) (s : str) : option rmatch :=
  m r (MState s None)
    (fun st => Some (RMatch (firstn (length s - length (rest st)) s)
                            (group1 st) (rest st))).

(** [re.search(r, s)]: the leftmost start at which [r] matches *)
Fixpoint search (r : regex) (s : str) : option rmatch :=
  match match_here r s with
  | Some x => Some x
  | None => match s with
            | [] => None
            | _ :: s' => search r s'
            end
  end.

(** [re.findall(r, s)] for a pattern without groups: the texts of the
    non-overlapping matches, left to right.  After an empty match the scan
    moves on by one character. *)
Fixpoint findall_from (fuel : nat) (r : regex) (s : str) : list str :=
  match fuel with
  | O => []
  | S fuel' =>
      match match_here r s with
      | Some x =>
          if (length (after x) <? length s)%nat
          then group0 x :: findall_from fuel' r (after x)
          else group0 x :: match s with
                           | [] => []
                           | _ :: s' => findall_from fuel' r s'
                           end
      | None =>
          match s with
          | [] => []
          | _ :: s' => findall_from fuel' r s'
          end
      end
  end.

Definition findall (r : regex) (s : str) : list str :=
  findall_from (S (length s)) r s.

(** ** The patterns of the scraper *)

Definition digit : regex := Chr is_digit.

(** [\d+(?:[,\s]\d{3})*(?:\.\d{2})?] *)
Definition number_re : regex :=
  Seq (Plus digit)
      (Seq (Star (Seq (Chr is_separator) (Rep3 digit)))
           (Opt (Seq (Chr (is_char ".")) (Rep2 digit)))).

(** [[$R]\s*(\d+(?:[,\s]\d{3})*(?:\.\d{2})?)] *)
Definition currency_before : regex :=
  Seq (Chr is_currency) (Seq (Star (Chr is_space)) (Group number_re)).

(** [(\d+(?:[,\s]\d{3})*(?:\.\d{2})?)\s*[$R]] *)
Definition currency_after : regex :=
  Seq (Group number_re) (Seq (Star (Chr is_space)) (Chr is_currency)).

Definition currency_patterns : list regex := [currency_before; currency_after].

(** [\d+(?:\.\d{2})?] *)
Definition fallback_re : regex :=
  Seq (Plus digit) (Opt (Seq (Chr (is_char ".")) (Rep2 digit))).

(** [[R$]\s*\d+(?:[,\s]\d{3})*(?:\.\d{2})?] *)
Definition price_regex : regex :=
  Seq (Chr is_currency) (Seq (Star (Chr is_space)) number_re).

(** ** Floats and the string operations [parse_price] uses *)

(** [s.lstrip()] and [s.strip()] *)
Fixpoint lstrip (s : str) : str :=
  match s with
  | c :: s' => if is_space c then lstrip s' else s
  | [] => []
  end.

Definition strip (s : str) : str := rev (lstrip (rev (lstrip s))).

(** [s.replace(c, '')] for a one-character [c] *)
Definition remove_char (c : ascii) (s : str) : str :=
  filter (fun x => negb (is_char c x)) s.

Definition digit_value (c : ascii) : Z := Z.of_nat (code c - 48).

(** The number a run of digits denotes *)
Definition digits_value (s : str) : Z :=
  fold_left (fun acc c => (10 * acc + digit_value c)%Z) s 0%Z.

(** The text before the first period, and what follows that period if there
    is one *)
Fixpoint split_point (s : str) : str * option str :=
  match s with
  | [] => ([], None)
  | c :: s' =>
      if is_char "." c then ([], Some s')
      else let (i, f) := split_point s' in (c :: i, f)
  end.

(** [float(s)] on unsigned decimal literals without exponent: digits with an
    optional period, at least one digit, white space around it ignored.
    [None] is [ValueError].  The groups and matches of the patterns above
    hold digits, separators and periods only, so no other form of literal
    reaches [float] in this program. *)
Definition python_float (s : str) : option Q :=
  let (i, f) := split_point (strip s) in
  let f := match f with Some f => f | None => [] end in
  if forallb is_digit i && forallb is_digit f
     && negb ((length i + length f =? 0)%nat)
  then Some (Qred (Qmake (digits_value (i ++ f))
                          (Z.to_pos (10 ^ Z.of_nat (length f)))))
  else None.

Definition Qltb (x y : Q) : bool := negb (Qle_bool y x).

(** Truth value of an optional float, as [if price:] takes it: [None] and
    [0.0] are false. *)
Definition truthy (price : option Q) : bool :=
  match price with
  | Some p => negb (Qeq_bool p 0)
  | None => false
  end.

(** ** [parse_price] *)

(** [match.group(1)] *)
Definition group (x : rmatch) : str :=
  match group_1 x with Some g => g | None => [] end.

(** The loop over [currency_patterns]: a pattern that does not match, whose
    group is no float, or whose value is outside the window, leaves the
    decision to the next pattern. *)
Fixpoint parse_currency (patterns : list regex) (text : str) : option Q :=
  match patterns with
  | [] => None
  | pattern :: patterns' =>
      match search pattern text with
      | Some x =>
          let price_str := remove_char " " (remove_char "," (group x)) in
          match python_float price_str with
          | Some price =>
              if Qltb 0.01 price && Qltb price 1000000 then Some price
              else parse_currency patterns' text
          | None => parse_currency patterns' text
          end
      | None => parse_currency patterns' text
      end
  end.

(** The loop over [all_numbers] *)
Fixpoint parse_numbers (all_numbers : list str) : option Q :=
  match all_numbers with
  | [] => None
  | num_str :: more =>
      match python_float num_str with
      | Some price =>
          if Qle_bool 10 price then Some price else parse_numbers more
      | None => parse_numbers more
      end
  end.

Definition parse_fallback (text : str) : option Q :=
  parse_numbers (findall fallback_re text).

Definition parse_price (text : str) : option Q :=
  let text := strip text in
  match parse_currency currency_patterns text with
  | Some price => Some price
  | None => parse_fallback text
  end.

(** ** Exceptions *)

(** The exceptions the libraries in use raise.  All but [KeyboardInterrupt]
    derive from [Exception]. *)
Inductive exn : Type :=
| ImportError
| ConnectionError
| Timeout
| HTTPError
| WebDriverException
| TimeoutException
| SelectorSyntaxError
| KeyboardInterrupt.

Definition is_ImportError (e : exn) : bool :=
  match e with ImportError => true | _ => false end.

Definition is_Exception (e : exn) : bool :=
  match e with KeyboardInterrupt => false | _ => true end.

Inductive result (A : Type) : Type :=
| Ok : A -> result A
| Raise : exn -> result A.

Arguments Ok {A} _.
Arguments Raise {A} _.

(** ** The parsed document *)

(** An attribute value as the tree holds it: a string, or for [class] the
    list of its white-space separated tokens. *)
Inductive attr_value : Type :=
| AttrStr : str -> attr_value
| AttrList : list str -> attr_value.

(** A tag: its attribute dictionary and the text [get_text()] returns. *)
Record element : Type := Element {
  attrs : list (string * attr_value);
  get_text : str
}.

(** The tags of a document, in document order. *)
Definition document := list element.

Fixpoint get_attr (name : string) (l : list (string * attr_value)) : option attr_value :=
  match l with
  | [] => None
  | (n, v) :: l' => if String.eqb n name then Some v else get_attr name l'
  end.

(** What an attribute is matched against in [find_all(attrs=...)] *)
Inductive attr_filter : Type :=
| ByRegex : regex -> attr_filter
| ByString : str -> attr_filter
| ByTrue : attr_filter.

(** A one-entry [attrs] dictionary *)
Definition attr_pattern : Type := (string * attr_filter)%type.

Definition str_eqb (a b : str) : bool :=
  if list_eq_dec ascii_dec a b then true else false.

Definition matches_str (f : attr_filter) (v : str) : bool :=
  match f with
  | ByRegex r => match search r v with Some _ => true | None => false end
  | ByString s => str_eqb v s
  | ByTrue => true
  end.

Fixpoint join_space (l : list str) : str :=
  match l with
  | [] => []
  | [x] => x
  | x :: l' => x ++ " "%char :: join_space l'
  end.

(** A list-valued attribute matches when one of its tokens does, or when
    the tokens joined by spaces do. *)
Definition matches_value (f : attr_filter) (v : attr_value) : bool :=
  match f, v with
  | ByTrue, _ => true
  | _, AttrStr s => matches_str f s
  | _, AttrList l => existsb (matches_str f) l || matches_str f (join_space l)
  end.

Definition matches (p : attr_pattern) (e : element) : bool :=
  match get_attr (fst p) (attrs e) with
  | Some v => matches_value (snd p) v
  | None => false
  end.

(** [soup.find_all(attrs=pattern)] *)
Definition find_all (soup : document) (pattern : attr_pattern) : list element :=
  filter (matches pattern) soup.

(** [re.compile(word, re.I)] for a literal word *)
Fixpoint compile_I (word : str) : regex :=
  match word with
  | [] => Eps
  | c :: word' => Seq (Chr (fun x => Ascii.eqb (lower x) (lower c))) (compile_I word')
  end.

Definition price_patterns : list attr_pattern :=
  [ ("class", ByRegex (compile_I "price"));
    ("id", ByRegex (compile_I "price"));
    ("itemprop", ByString "price");
    ("class", ByRegex (compile_I "cost"));
    ("class", ByRegex (compile_I "amount"));
    ("data-price", ByTrue);
    ("class", ByRegex (compile_I "product-price")) ].

(** ** [extract_price] *)

(** [for element in elements: price = parse_price(element.get_text()) ...] *)
Fixpoint first_price (texts : list str) : option Q :=
  match texts with
  | [] => None
  | price_text :: more =>
      let price := parse_price price_text in
      if truthy price then price else first_price more
  end.

(** The loop over [price_patterns] *)
Fixpoint heuristic_stage (soup : document) (patterns : list attr_pattern) : option Q :=
  match patterns with
  | [] => None
  | pattern :: patterns' =>
      match first_price (map get_text (find_all soup pattern)) with
      | Some price => Some price
      | None => heuristic_stage soup patterns'
      end
  end.

(** The scan of the raw page *)
Definition regex_stage (html : str) : option Q :=
  first_price (findall price_regex html).

(** [if css_selector:] *)
Definition selector_given (css_selector : option str) : option str :=
  match css_selector with
  | Some (c :: s) => Some (c :: s)
  | _ => None
  end.

Section Extractor.
(** The HTML parser and the CSS selection engine are libraries; the
    selection engine raises on a selector it cannot read. *)
Variable BeautifulSoup : str -> document.
Variable select : document -> str -> result (list element).

Definition selector_stage (soup : document) (css_selector : option str)
  : result (option Q) :=
  match selector_given css_selector with
  | Some sel =>
      match select soup sel with
      | Ok elements => Ok (first_price (map get_text elements))
      | Raise e => Raise e
      end
  | None => Ok None
  end.

Definition extract_price (html : str) (css_selector : option str)
  : result (option Q) :=
  let soup := BeautifulSoup html in
  match selector_stage soup css_selector with
  | Raise e => Raise e
  | Ok (Some price) => Ok (Some price)
  | Ok None =>
      match heuristic_stage soup price_patterns with
      | Some price => Ok (Some price)
      | None => Ok (regex_stage html)
      end
  end.
End Extractor.

(** ** The outside world of one [fetch_price] call *)

(** An HTTP response: [status_code] and [text] *)
Record response : Type := Response { status_code : Z; text : str }.

(** What the calls that leave the program do when they are made: they
    return, or raise. *)
Record world : Type := World {
  requests_get : str -> result response;
  import_selenium : result unit;
  webdriver_Chrome : result unit;
  driver_get : str -> result unit;
  wait_until_body : result unit;
  page_source : result str;
  driver_quit : result unit
}.

(** The calls made, oldest first.  [ChromeStarted] records a browser
    session that exists; [QuitCalled] records [driver.quit()]. *)
Inductive event : Type :=
| HttpGet : str -> event
| ChromeStarted : event
| Navigate : str -> event
| WaitBody : event
| Sleep : Z -> event
| PageSource : event
| QuitCalled : event.

(** Computations that log their calls and may raise *)
Definition M (A : Type) : Type := list event -> result A * list event.

Definition ret {A : Type} (a : A) : M A := fun t => (Ok a, t).

Definition bind {A B : Type} (c : M A) (f : A -> M B) : M B :=
  fun t => match c t with
           | (Ok a, t') => f a t'
           | (Raise e, t') => (Raise e, t')
           end.

Notation "x <- c ;; k" := (bind c (fun x => k))
  (at level 61, c at next level, right associativity).
Notation "c ;;; k" := (bind c (fun _ => k))
  (at level 61, right associativity).

(** Record a call *)
Definition emit (e : event) : M unit := fun t => (Ok tt, t ++ [e]).

(** The outcome of a call, raised if it is an exception *)
Definition outcome {A : Type} (r : result A) : M A := fun t => (r, t).

(** [try: body  except ...: ...]: [handler e] is the first [except] clause
    that takes [e], if there is one. *)
Definition try_except {A : Type} (body : M A) (handler : exn -> option (M A)) : M A :=
  fun t => match body t with
           | (Ok a, t') => (Ok a, t')
           | (Raise e, t') =>
               match handler e with
               | Some h => h t'
               | None => (Raise e, t')
               end
           end.

(** [response.raise_for_status()] *)
Definition raise_for_status (r : response) : result unit :=
  if (400 <=? status_code r)%Z && (status_code r <? 600)%Z
  then Raise HTTPError else Ok tt.

Section Fetch.
Variable BeautifulSoup : str -> document.
Variable select : document -> str -> result (list element).
Variable w : world.

Definition fetch_price_simple (url : str) (css_selector : option str)
  : M (option Q) :=
  try_except
    (emit (HttpGet url) ;;;
     response <- outcome (requests_get w url) ;;
     outcome (raise_for_status response) ;;;
     outcome (extract_price BeautifulSoup select (text response) css_selector))
    (fun e => if is_Exception e then Some (ret None) else None).

Definition fetch_price_selenium (url : str) (css_selector : option str)
  : M (option Q) :=
  try_except
    (outcome (import_selenium w) ;;;
     outcome (webdriver_Chrome w) ;;;
     emit ChromeStarted ;;;
     emit (Navigate url) ;;;
     outcome (driver_get w url) ;;;
     emit WaitBody ;;;
     outcome (wait_until_body w) ;;;
     emit (Sleep 3) ;;;
     emit PageSource ;;;
     html <- outcome (page_source w) ;;
     emit QuitCalled ;;;
     outcome (driver_quit w) ;;;
     outcome (extract_price BeautifulSoup select html css_selector))
    (fun e => if is_ImportError e then Some (ret None)
              else if is_Exception e then Some (ret None)
              else None).

Definition fetch_price (url : str) (css_selector : option str)
           (force_selenium : bool) : M (option Q) :=
  if force_selenium then fetch_price_selenium url css_selector
  else
    price <- fetch_price_simple url css_selector ;;
    if truthy price then ret price
    else
      price <- fetch_price_selenium url css_selector ;;
      if truthy price then ret price
      else ret None.
End Fetch.

(** ** [str] of a float *)

Definition digit_char (d : Z) : ascii := ascii_of_nat (48 + Z.to_nat d).

Fixpoint decimal_from (fuel : nat) (n : Z) (acc : str) : str :=
  match fuel with
  | O => acc
  | S fuel' =>
      let acc' := digit_char (n mod 10) :: acc in
      if (n <? 10)%Z then acc' else decimal_from fuel' (n / 10) acc'
  end.

(** The decimal digits of a natural number *)
Definition decimal (n : Z) : str := decimal_from (S (Z.to_nat (Z.log2 n))) n [].

(** The amount in hundredths, rounded down *)
Definition cents (p : Q) : Z := Qfloor (p * 100).

(** [str(p)] for an amount in whole cents of at most 15 significant digits:
    there the shortest decimal that reads back as the same double is the
    amount itself, printed with at least one digit after the period. *)
Definition float_str (p : Q) : str :=
  let c := cents p in
  let k := (c mod 100)%Z in
  decimal (c / 100) ++ "."%char ::
    (if (k mod 10 =? 0)%Z then [digit_char (k / 10)]
     else [digit_char (k / 10); digit_char (k mod 10)]).

(** ** What a pattern can match *)

(** The texts a pattern matches, without regard to priorities *)
Inductive lang : regex -> str -> Prop :=
| L_Eps : lang Eps []
| L_Chr : forall (p : ascii -> bool) c, p c = true -> lang (Chr p) [c]
| L_Seq : forall r1 r2 a b, lang r1 a -> lang r2 b -> lang (Seq r1 r2) (a ++ b)
| L_AltL : forall r1 r2 a, lang r1 a -> lang (Alt r1 r2) a
| L_AltR : forall r1 r2 a, lang r2 a -> lang (Alt r1 r2) a
| L_StarNil : forall r, lang (Star r) []
| L_StarCons : forall r a b, lang r a -> lang (Star r) b -> lang (Star r) (a ++ b)
| L_Group : forall r a, lang r a -> lang (Group r) a.

Fixpoint has_group (r : regex) : bool :=
  match r with
  | Eps | Chr _ => false
  | Seq r1 r2 | Alt r1 r2 => has_group r1 || has_group r2
  | Star r1 => has_group r1
  | Group _ => true
  end.

(** Every character a pattern can take satisfies [P]. *)
Fixpoint only_chars (P : ascii -> Prop) (r : regex) : Prop :=
  match r with
  | Eps => True
  | Chr p => forall c, p c = true -> P c
  | Seq r1 r2 | Alt r1 r2 => only_chars P r1 /\ only_chars P r2
  | Star r1 | Group r1 => only_chars P r1
  end.

(** A world, and a selection engine, whose errors all derive from
    [Exception] *)
Definition raises_Exception {A : Type} (r : result A) : Prop :=
  forall e, r = Raise e -> is_Exception e = true.

Record world_raises_Exception (w : world) : Prop := {
  wre_get : forall url, raises_Exception (requests_get w url);
  wre_import : raises_Exception (import_selenium w);
  wre_chrome : raises_Exception (webdriver_Chrome w);
  wre_nav : forall url, raises_Exception (driver_get w url);
  wre_wait : raises_Exception (wait_until_body w);
  wre_source : raises_Exception (page_source w);
  wre_quit : raises_Exception (driver_quit w)
}.

Definition select_raises_Exception
  (select : document -> str -> result (list element)) : Prop :=
  forall soup sel, raises_Exception (select soup sel).

(** [needle in haystack], ignoring ASCII case *)
Definition contains_I (needle haystack : str) : Prop :=
  exists a x b, haystack = a ++ x ++ b /\ map lower x = map lower needle.

(** What [find_all(attrs={name: ...})] looks for in a tag.  The value of a
    list-valued attribute such as [class] is looked at token by token, and
    as the tokens joined by spaces. *)
Definition value_contains (word : str) (v : attr_value) : Prop :=
  match v with
  | AttrStr s => contains_I word s
  | AttrList tokens =>
      (exists tok, In tok tokens /\ contains_I word tok)
      \/ contains_I word (join_space tokens)
  end.

Definition value_is (s : str) (v : attr_value) : Prop :=
  match v with
  | AttrStr x => x = s
  | AttrList tokens => In s tokens \/ join_space tokens = s
  end.

(** The attribute is there and its value contains the word, in any case *)
Definition attr_contains (name : string) (word : str) (e : element) : Prop :=
  exists v, get_attr name (attrs e) = Some v /\ value_contains word v.

(** The attribute is there and its value is the string *)
Definition attr_is (name : string) (s : str) (e : element) : Prop :=
  exists v, get_attr name (attrs e) = Some v /\ value_is s v.

(** The attribute is there *)
Definition has_attr (name : string) (e : element) : Prop :=
  get_attr name (attrs e) <> None.

(** A digit, then characters other than the period, then nothing or a
    period and two digits: the form of every text [float] is given here *)
Definition decimal_shape (s : str) : Prop :=
  exists d body frac,
    s = d :: body ++ frac /\ is_digit d = true
    /\ (forall c, In c body -> is_char "." c = false)
    /\ (frac = [] \/ exists a b, frac = ["."%char; a; b]
                               /\ is_digit a = true /\ is_digit b = true).

(** ** Sample pages and worlds *)

(** No usable browser: the HTTP request fails and selenium is not
    installed. *)
Definition world_without_selenium : world :=
  World (fun _ => Raise ConnectionError) (Raise ImportError) (Ok tt)
        (fun _ => Ok tt) (Ok tt) (Ok []) (Ok tt).

(** The browser starts, and navigation fails. *)
Definition world_navigation_fails : world :=
  World (fun _ => Raise ConnectionError) (Ok tt) (Ok tt)
        (fun _ => Raise WebDriverException) (Ok tt) (Ok []) (Ok tt).

(** The browser starts, and the wait for the body times out. *)
Definition world_wait_times_out : world :=
  World (fun _ => Raise ConnectionError) (Ok tt) (Ok tt)
        (fun _ => Ok tt) (Raise TimeoutException) (Ok []) (Ok tt).

(** A selection engine that finds nothing *)
Definition select_nothing : document -> str -> result (list element) :=
  fun _ _ => Ok [].

(** A page whose only price stands in an element with [id="total-cost"] *)
Definition html_cost_id : str := "<span id='total-cost'>1299.00</span>".
Definition page_cost_id : document :=
  [Element [("id", AttrStr "total-cost")] "1299.00"].

(** The same price in an element with [class="Total-Cost big"] *)
Definition html_cost_class : str := "<span class='Total-Cost big'>1299.00</span>".
Definition page_cost_class : document :=
  [Element [("class", AttrList [("Total-Cost" : str); ("big" : str)])] "1299.00"].

(** A loose [class="amount"] element before an [itemprop="price"] one *)
Definition html_itemprop_amount : str :=
  "<b class='amount'>R50</b><span itemprop='price'>R1,299.00</span>".
Definition page_itemprop_amount : document :=
  [Element [("class", AttrList [("amount" : str)])] "R50";
   Element [("itemprop", AttrStr "price")] "R1,299.00"].

(** A page that shows its price only once its scripts have run *)
Definition html_static : str := "<div id='app'></div>".
Definition page_static : document := [Element [("id", AttrStr "app")] []].
Definition html_rendered : str := "<div id='app'><span>$49.99</span></div>".
Definition page_rendered : document :=
  [Element [("id", AttrStr "app")] "$49.99"; Element [] "$49.99"].

(** The trees of the sample pages, as the parser builds them *)
Definition sample_soup (html : str) : document :=
  if str_eqb html html_cost_id then page_cost_id
  else if str_eqb html html_cost_class then page_cost_class
  else if str_eqb html html_itemprop_amount then page_itemprop_amount
  else if str_eqb html html_static then page_static
  else if str_eqb html html_rendered then page_rendered
  else [].

(** The static page comes back, and the browser renders the price. *)
Definition world_rendered : world :=
  World (fun _ => Ok (Response 200 html_static)) (Ok tt) (Ok tt)
        (fun _ => Ok tt) (Ok tt) (Ok html_rendered) (Ok tt).

(** A rendered page in which a letter R stands before the price *)
Definition html_root : str := "<div id='Root'><span>$49.99</span></div>".
Definition page_root : document :=
  [Element [("id", AttrStr "Root")] "$49.99"; Element [] "$49.99"].

(** A page whose element with [class="price"] holds no price *)
Definition html_quote : str :=
  "<b class='price'>Call us</b><span class='total-cost'>1299.00</span>".
Definition page_quote : document :=
  [Element [("class", AttrList [("price" : str)])] "Call us";
   Element [("class", AttrList [("total-cost" : str)])] "1299.00"].

Definition soup_of (html : str) : document :=
  if str_eqb html html_root then page_root
  else if str_eqb html html_quote then page_quote
  else sample_soup html.

Definition world_root : world :=
  World (fun _ => Ok (Response 200 html_static)) (Ok tt) (Ok tt)
        (fun _ => Ok tt) (Ok tt) (Ok html_root) (Ok tt).

(** The calls of one browser session, in the order they are made *)
Definition browser_calls (url : str) : list event :=
  [ChromeStarted; Navigate url; WaitBody; Sleep 3; PageSource; QuitCalled].

(** * The callers: mail, storage and the check cycle

    [services/email_service.py], [database/db.py], [background_worker.py]
    and the [/add] route of [app.py].  SQLite, SMTP and Flask are outside
    the program: their calls are logged and take their outcome from the
    world, as the calls of the scraper do.  [print] is left out, but for the
    summary of a cycle, which is the only place its counters show. *)

(** ** Errors, log and local state *)

(** An error raised by a library: the name of its class, and whether the
    class derives from [Exception]. *)
Record pyerror : Type := PyError { error_name : string; derives_Exception : bool }.

Definition ValueError : pyerror := PyError "ValueError" true.
Definition ZeroDivisionError : pyerror := PyError "ZeroDivisionError" true.

Definition error_of (e : exn) : pyerror :=
  match e with
  | ImportError => PyError "ImportError" true
  | ConnectionError => PyError "ConnectionError" true
  | Timeout => PyError "Timeout" true
  | HTTPError => PyError "HTTPError" true
  | WebDriverException => PyError "WebDriverException" true
  | TimeoutException => PyError "TimeoutException" true
  | SelectorSyntaxError => PyError "SelectorSyntaxError" true
  | KeyboardInterrupt => PyError "KeyboardInterrupt" false
  end.

Inductive reply (A : Type) : Type :=
| Done : A -> reply A
| Failed : pyerror -> reply A.

Arguments Done {A} _.
Arguments Failed {A} _.

(** A value of a column whose type the table leaves open *)
Inductive sql_value : Type :=
| SqlNull : sql_value
| SqlInt : Z -> sql_value
| SqlReal : Q -> sql_value
| SqlText : str -> sql_value.

(** Truth value of such a value in Python *)
Definition truthy_value (v : sql_value) : bool :=
  match v with
  | SqlNull => false
  | SqlInt z => negb (z =? 0)%Z
  | SqlReal q => negb (Qeq_bool q 0)
  | SqlText s => match s with [] => false | _ => true end
  end.

(** A row of [products]: the first seven columns with the types the table
    declares, and the columns after [last_checked] as they come. *)
Record product : Type := Product {
  product_id : Z;
  product_name : str;
  product_url : str;
  product_email : str;
  product_css_selector : option str;
  product_price : option Q;
  product_last_checked : sql_value;
  product_rest : list sql_value
}.

(** The alert, before it is rendered as text *)
Record alert : Type := Alert {
  alert_from : str;
  alert_to : str;
  alert_product : str;
  alert_old : Q;
  alert_new : Q;
  alert_diff : Q;
  alert_percent : Q;
  alert_dropped : bool;
  alert_link : option str
}.

(** The calls the callers make, oldest first *)
Inductive action : Type :=
| Web : event -> action
| DbSelectAll : action
| DbUpdate : Z -> Q -> action
| DbInsert : str -> str -> str -> option str -> Q -> bool -> action
| SmtpConnect : action
| SmtpStartTls : action
| SmtpLogin : str -> str -> action
| SmtpSend : alert -> action
| SmtpQuit : action
| Flash : string -> action
| Summary : nat -> nat -> nat -> nat -> action.

(** The log of calls, and the three counters of a check cycle *)
Record frame : Type := Frame {
  log : list action;
  checked : nat;
  changed : nat;
  errors : nat
}.

Definition Act (A : Type) : Type := frame -> reply A * frame.

Definition aret {A : Type} (a : A) : Act A := fun f => (Done a, f).

Definition abind {A B : Type} (c : Act A) (k : A -> Act B) : Act B :=
  fun f => match c f with
           | (Done a, f') => k a f'
           | (Failed e, f') => (Failed e, f')
           end.

Notation "x <~ c ;; k" := (abind c (fun x => k))
  (at level 61, c at next level, right associativity).
Notation "c ~~> k" := (abind c (fun _ => k))
  (at level 61, right associativity).

Definition perform (a : action) : Act unit :=
  fun f => (Done tt, Frame (log f ++ [a]) (checked f) (changed f) (errors f)).

Definition answer {A : Type} (r : reply A) : Act A := fun f => (r, f).

(** [try: body  except Exception: handler] *)
Definition except_Exception {A : Type} (body : Act A) (handler : Act A) : Act A :=
  fun f => match body f with
           | (Done a, f') => (Done a, f')
           | (Failed e, f') =>
               if derives_Exception e then handler f' else (Failed e, f')
           end.

Definition count_checked : Act unit :=
  fun f => (Done tt, Frame (log f) (S (checked f)) (changed f) (errors f)).
Definition count_changed : Act unit :=
  fun f => (Done tt, Frame (log f) (checked f) (S (changed f)) (errors f)).
Definition count_error : Act unit :=
  fun f => (Done tt, Frame (log f) (checked f) (changed f) (S (errors f))).

(** [x / y] on floats *)
Definition py_div (x y : Q) : reply Q :=
  if Qeq_bool y 0 then Failed ZeroDivisionError else Done (x / y).

(** ** [Config] and [send_price_alert] *)

Record config : Type := Config {
  GMAIL_USER : option str;
  GMAIL_PASSWORD : option str;
  CHECK_INTERVAL : Z
}.

(** The outcomes of the SMTP calls of one message *)
Record smtp_world : Type := SmtpWorld {
  smtp_connect : reply unit;
  smtp_starttls : reply unit;
  smtp_login : reply unit;
  smtp_send_message : reply unit;
  smtp_quit : reply unit
}.

(** [not v] for an optional string *)
Definition not_set (v : option str) : bool :=
  match v with
  | None | Some [] => true
  | Some _ => false
  end.

Definition string_or_empty (v : option str) : str :=
  match v with Some s => s | None => [] end.

Definition send_price_alert (cfg : config) (smtp : smtp_world)
           (to_email product_name : str) (old_price new_price : Q)
           (product_url : option str) : Act unit :=
  let gmail_user := GMAIL_USER cfg in
  let gmail_password := GMAIL_PASSWORD cfg in
  if not_set gmail_user || not_set gmail_password
     || str_eqb (string_or_empty gmail_user) "your-email@gmail.com"
  then aret tt
  else
    let price_diff := new_price - old_price in
    percent_change <~ (if Qltb 0 old_price
                       then q <~ answer (py_div price_diff old_price) ;; aret (q * 100)
                       else aret 0) ;;
    let msg := Alert (string_or_empty gmail_user) to_email product_name
                     old_price new_price price_diff percent_change
                     (Qltb price_diff 0)
                     (if not_set product_url then None else product_url) in
    except_Exception
      (perform SmtpConnect ~~> answer (smtp_connect smtp) ~~>
       perform SmtpStartTls ~~> answer (smtp_starttls smtp) ~~>
       perform (SmtpLogin (string_or_empty gmail_user) (string_or_empty gmail_password)) ~~>
       answer (smtp_login smtp) ~~>
       perform (SmtpSend msg) ~~> answer (smtp_send_message smtp) ~~>
       perform SmtpQuit ~~> answer (smtp_quit smtp))
      (aret tt).

(** ** [init_db]: the columns of [products] *)

Definition name_eqb (a b : string) : bool :=
  str_eqb (map lower (a : str)) (map lower (b : str)).

Definition new_table : list string :=
  ["id"; "name"; "url"; "email"; "css_selector"; "current_price";
   "last_checked"; "use_selenium"; "created_at"]%string.

(** The columns after [init_db], from the columns of the table before it,
    if there was one.  [ALTER TABLE ... ADD COLUMN] puts the new column
    after the others, and fails, which is passed over, when the table has
    a column of that name. *)
Definition init_db (table : option (list string)) : list string :=
  match table with
  | None => new_table
  | Some columns =>
      if existsb (name_eqb "use_selenium") columns then columns
      else columns ++ ["use_selenium"%string]
  end.

(** ** [check_prices_cycle] and the [/add] route *)

(** The world of the callers *)
Record outside : Type := Outside {
  settings : config;
  get_all_products : reply (list product);
  web : nat -> world;
  update_product_price : Z -> Q -> reply unit;
  mail : nat -> smtp_world;
  add_product : reply unit
}.

(** The flag of a row: the eighth column of nine, [False] for eight
    columns; other widths do not unpack. *)
Definition unpack_use_selenium (p : product) : reply sql_value :=
  match product_rest p with
  | [use_selenium; _] => Done use_selenium
  | [_] => Done (SqlInt 0)
  | _ => Failed ValueError
  end.

Section Callers.
Variable BeautifulSoup : str -> document.
Variable select : document -> str -> result (list element).
Variable o : outside.

(** A call of [fetch_price] in the world [w] *)
Definition call_fetch_price (w : world) (url : str) (css_selector : option str)
           (force_selenium : bool) : Act (option Q) :=
  fun f =>
    let (r, events) := fetch_price BeautifulSoup select w url css_selector force_selenium [] in
    (match r with Ok price => Done price | Raise e => Failed (error_of e) end,
     Frame (log f ++ map Web events) (checked f) (changed f) (errors f)).

(** The body of the loop, for the [n]-th product *)
Definition check_product (n : nat) (p : product) : Act unit :=
  use_selenium <~ answer (unpack_use_selenium p) ;;
  let old_price := product_price p in
  except_Exception
    (new_price <~ call_fetch_price (web o n) (product_url p) (product_css_selector p)
                    (truthy_value use_selenium) ;;
     match new_price with
     | Some new =>
         if truthy new_price then
           perform (DbUpdate (product_id p) new) ~~>
           answer (update_product_price o (product_id p) new) ~~>
           count_checked ~~>
           match old_price with
           | Some old =>
               if truthy old_price && negb (Qeq_bool old new) then
                 let change_amount := new - old in
                 q <~ answer (py_div change_amount old) ;;
                 let change_percent := q * 100 in
                 send_price_alert (settings o) (mail o n) (product_email p)
                   (product_name p) old new (Some (product_url p)) ~~>
                 count_changed
               else aret tt
           | None => aret tt
           end
         else count_error
     | None => count_error
     end)
    count_error.

Fixpoint check_products (n : nat) (products : list product) : Act unit :=
  match products with
  | [] => aret tt
  | p :: products' => check_product n p ~~> check_products (S n) products'
  end.

Definition check_prices_cycle : Act unit :=
  except_Exception
    (perform DbSelectAll ~~>
     products <~ answer (get_all_products o) ;;
     match products with
     | [] => aret tt
     | _ =>
         (fun f => (Done tt, Frame (log f) 0 0 0)) ~~>
         check_products 0 products ~~>
         (fun f => perform (Summary (checked f) (changed f) (errors f)
                                    (length products)) f)
     end)
    (aret tt).

(** [request.form]: the fields of the form *)
Definition form : Type := string -> option str.

Inductive page : Type := Index | Dashboard.

(** The [/add] route *)
Definition add (request_form : form) : Act page :=
  let name := request_form "name"%string in
  let url := request_form "url"%string in
  let email := request_form "email"%string in
  let css_selector :=
    match strip (string_or_empty (request_form "css_selector"%string)) with
    | [] => None
    | s => Some s
    end in
  let use_selenium :=
    match request_form "use_selenium"%string with
    | Some v => str_eqb v "on"
    | None => false
    end in
  if not_set name || not_set url || not_set email then
    perform (Flash "error") ~~> aret Index
  else
    current_price <~ call_fetch_price (web o 0) (string_or_empty url) css_selector
                       use_selenium ;;
    match current_price with
    | None => perform (Flash "error") ~~> aret Index
    | Some price =>
        perform (DbInsert (string_or_empty name) (string_or_empty url)
                          (string_or_empty email) css_selector price use_selenium) ~~>
        answer (add_product o) ~~>
        perform (Flash "success") ~~> aret Dashboard
    end.
End Callers.

(** ** What a computation adds to the log *)

(** Every call [c] logs satisfies [P]. *)
Definition adds {A : Type} (P : action -> Prop) (c : Act A) : Prop :=
  forall f r f', c f = (r, f') -> exists l, log f' = log f ++ l /\ Forall P l.

(** [c] can return [a]. *)
Definition returns {A : Type} (c : Act A) (a : A) : Prop :=
  exists f f', c f = (Done a, f').

(** [c] fails only with errors that do not derive from [Exception]. *)
Definition fails_hard {A : Type} (c : Act A) : Prop :=
  forall f e f', c f = (Failed e, f') -> derives_Exception e = false.

(** [c] fails only with errors that derive from [Exception]. *)
Definition fails_soft {A : Type} (c : Act A) : Prop :=
  forall f e f', c f = (Failed e, f') -> derives_Exception e = true.

Definition soft_reply {A : Type} (r : reply A) : Prop :=
  forall e, r = Failed e -> derives_Exception e = true.

(** A world of the callers whose errors all derive from [Exception] *)
Record outside_soft (o : outside) : Prop := {
  soft_products : soft_reply (get_all_products o);
  soft_web : forall n, world_raises_Exception (web o n);
  soft_update : forall id price, soft_reply (update_product_price o id price);
  soft_connect : forall n, soft_reply (smtp_connect (mail o n));
  soft_starttls : forall n, soft_reply (smtp_starttls (mail o n));
  soft_login : forall n, soft_reply (smtp_login (mail o n));
  soft_send : forall n, soft_reply (smtp_send_message (mail o n));
  soft_quit : forall n, soft_reply (smtp_quit (mail o n));
  soft_add : soft_reply (add_product o)
}.

(** [c] leaves the counters as they are. *)
Definition keeps_counters {A : Type} (c : Act A) : Prop :=
  forall f r f', c f = (r, f') ->
    checked f' = checked f /\ changed f' = changed f /\ errors f' = errors f.

(** What an alert of the cycle over [products] says *)
Definition alert_of_change (products : list product) (a : action) : Prop :=
  match a with
  | SmtpSend msg =>
      exists p, In p products
        /\ alert_to msg = product_email p /\ alert_product msg = product_name p
        /\ product_price p = Some (alert_old msg)
        /\ ~ alert_old msg == 0 /\ ~ alert_old msg == alert_new msg
        /\ 0 < alert_new msg
  | _ => True
  end.

(** ** A sample table and world for the callers *)

Definition sample_config : config :=
  Config (Some ("me@gmail.com" : str)) (Some ("secret" : str)) 3600.

Definition smtp_working : smtp_world :=
  SmtpWorld (Done tt) (Done tt) (Done tt) (Done tt) (Done tt).

Definition smtp_login_refused : smtp_world :=
  SmtpWorld (Done tt) (Done tt) (Failed (PyError "SMTPAuthenticationError" true))
            (Done tt) (Done tt).

(** A row of a table the program created: stored price 499 *)
Definition kettle : product :=
  Product 1 "Kettle" "http://shop.example/kettle" "you@example.org"
          None (Some 499) (SqlText "2024-05-01 10:00:00")
          [SqlInt 0; SqlText "2024-04-30 09:00:00"].

(** A row of an upgraded table: [created_at] before [use_selenium] *)
Definition kettle_upgraded : product :=
  Product 1 "Kettle" "http://shop.example/kettle" "you@example.org"
          None (Some 499) (SqlText "2024-05-01 10:00:00")
          [SqlText "2024-04-30 09:00:00"; SqlInt 0].

Definition sample_outside : outside :=
  Outside sample_config (Done [kettle]) (fun _ => world_rendered)
          (fun _ _ => Done tt) (fun _ => smtp_working) (Done tt).

(** A filled-in form, with a selector of white space only *)
Definition kettle_form : form :=
  fun field =>
    if String.eqb field "name" then Some ("Kettle" : str)
    else if String.eqb field "url" then Some ("http://shop.example/kettle" : str)
    else if String.eqb field "email" then Some ("you@example.org" : str)
    else if String.eqb field "css_selector" then Some ("   " : str)
    else None.

(** * Properties *)

Unset Implicit Arguments.

(** ** The matcher *)

Section MatcherFacts.
Variable A : Type.

Lemma star_loop_sound (r : regex) :
  (forall st (k : mstate -> option A) a, m r st k = Some a ->
      exists pre st', rest st = pre ++ rest st' /\ lang r pre /\ k st' = Some a
                      /\ (has_group r = false -> group1 st' = group1 st)) ->
  forall fuel st (k : mstate -> option A) a,
    star_loop (m r) k fuel st = Some a ->
    exists pre st', rest st = pre ++ rest st' /\ lang (Star r) pre /\ k st' = Some a
                    /\ (has_group r = false -> group1 st' = group1 st).
Proof.
  intros IH fuel. induction fuel as [|fuel IHf]; intros st k a H; simpl in H.
  - exists [], st. repeat split; auto. constructor.
  - destruct (m r st _) as [a'|] eqn:E.
    + injection H as ->.
      apply IH in E. destruct E as (pre & st1 & E1 & L1 & K1 & G1).
      destruct (length (rest st1) <? length (rest st))%nat; [|discriminate].
      apply IHf in K1. destruct K1 as (pre2 & st2 & E2 & L2 & K2 & G2).
      exists (pre ++ pre2), st2. repeat split.
      * rewrite E1, E2. now rewrite app_assoc.
      * now constructor.
      * exact K2.
      * intro Hg. rewrite G2, G1; auto.
    + exists [], st. repeat split; auto. constructor.
Qed.

(** A successful match consumed a prefix the pattern describes and handed
    the remainder to its continuation. *)
Lemma m_sound (r : regex) :
  forall st (k : mstate -> option A) a, m r st k = Some a ->
    exists pre st', rest st = pre ++ rest st' /\ lang r pre /\ k st' = Some a
                    /\ (has_group r = false -> group1 st' = group1 st).
Proof.
  induction r as [|p|r1 IH1 r2 IH2|r1 IH1 r2 IH2|r1 IH1|r1 IH1];
    intros st k a H; simpl in H.
  - exists [], st. repeat split; auto. constructor.
  - destruct st as [s g]; simpl in *. destruct s as [|c s]; [discriminate|].
    destruct (p c) eqn:Hp; [|discriminate].
    exists [c], (MState s g). repeat split; auto. now constructor.
  - apply IH1 in H. destruct H as (p1 & st1 & E1 & L1 & K1 & G1).
    apply IH2 in K1. destruct K1 as (p2 & st2 & E2 & L2 & K2 & G2).
    exists (p1 ++ p2), st2. repeat split.
    + rewrite E1, E2. now rewrite app_assoc.
    + now constructor.
    + exact K2.
    + simpl. intro Hg. apply orb_false_iff in Hg. destruct Hg.
      rewrite G2, G1; auto.
  - destruct (m r1 st k) as [a'|] eqn:E.
    + injection H as ->. apply IH1 in E.
      destruct E as (p1 & st1 & E1 & L1 & K1 & G1).
      exists p1, st1. repeat split; auto.
      * now apply L_AltL.
      * simpl. intro Hg. apply orb_false_iff in Hg. destruct Hg. auto.
    + apply IH2 in H. destruct H as (p1 & st1 & E1 & L1 & K1 & G1).
      exists p1, st1. repeat split; auto.
      * now apply L_AltR.
      * simpl. intro Hg. apply orb_false_iff in Hg. destruct Hg. auto.
  - apply (star_loop_sound r1 IH1) in H. exact H.
  - apply IH1 in H. destruct H as (p1 & st1 & E1 & L1 & K1 & G1).
    exists p1, (MState (rest st1)
                  (Some (firstn (length (rest st) - length (rest st1)) (rest st)))).
    split; [exact E1|]. split; [now constructor|]. split; [exact K1|].
    simpl. discriminate.
Qed.

(** When one more round cannot start, the loop is left at once. *)
Lemma m_star_stop (r : regex) (st : mstate) (k : mstate -> option A) :
  (forall k' : mstate -> option A, m r st k' = None) -> m (Star r) st k = k st.
Proof.
  intro H. simpl. destruct (length (rest st)); simpl; [reflexivity|].
  now rewrite H.
Qed.

(** A loop over one character class: the longer match is preferred. *)
Lemma m_star_chr (p : ascii -> bool) c s g (k : mstate -> option A) :
  m (Star (Chr p)) (MState (c :: s) g) k =
  if p c then match m (Star (Chr p)) (MState s g) k with
              | Some a => Some a
              | None => k (MState (c :: s) g)
              end
  else k (MState (c :: s) g).
Proof.
  simpl. destruct (p c); [|reflexivity].
  replace (length s <? S (length s))%nat with true; [reflexivity|].
  symmetry. apply Nat.ltb_lt. lia.
Qed.

Lemma m_star_nil (r : regex) g (k : mstate -> option A) :
  m (Star r) (MState [] g) k = k (MState [] g).
Proof. reflexivity. Qed.
End MatcherFacts.

Lemma firstn_app_minus (a b : str) :
  firstn (length (a ++ b) - length b) (a ++ b) = a.
Proof.
  rewrite length_app. replace (length a + length b - length b)%nat with (length a) by lia.
  rewrite firstn_app, Nat.sub_diag, firstn_all. simpl. apply app_nil_r.
Qed.

(** ** [match], [search] and [findall] *)

Lemma match_here_sound (r : regex) (s : str) (x : rmatch) :
  match_here r s = Some x -> s = group0 x ++ after x /\ lang r (group0 x).
Proof.
  unfold match_here. intro H. apply m_sound in H.
  destruct H as (pre & st' & E & L & K & _). simpl in E.
  injection K as <-. simpl. subst s. rewrite firstn_app_minus. auto.
Qed.

Lemma match_here_chr_fail (p : ascii -> bool) (r : regex) c (s : str) :
  p c = false -> match_here (Seq (Chr p) r) (c :: s) = None.
Proof. intro H. unfold match_here. simpl. now rewrite H. Qed.

Lemma search_sound (r : regex) (s : str) (x : rmatch) :
  search r s = Some x -> exists pre s', s = pre ++ s' /\ match_here r s' = Some x.
Proof.
  induction s as [|c s IH]; simpl.
  - destruct (match_here r []) eqn:E; [|discriminate].
    intro H. injection H as ->. now exists [], [].
  - destruct (match_here r (c :: s)) eqn:E.
    + intro H. injection H as ->. now exists [], (c :: s).
    + intro H. apply IH in H. destruct H as (pre & s' & -> & H).
      now exists (c :: pre), s'.
Qed.

Lemma search_here (r : regex) (s : str) (x : rmatch) :
  match_here r s = Some x -> search r s = Some x.
Proof. intro H. destruct s; simpl; now rewrite H. Qed.

Lemma search_skip (r : regex) (pre s : str) :
  (forall a b, pre = a ++ b -> b <> [] -> match_here r (b ++ s) = None) ->
  search r (pre ++ s) = search r s.
Proof.
  induction pre as [|c pre IH]; intro H; [reflexivity|].
  assert (H0 : match_here r ((c :: pre) ++ s) = None)
    by (apply (H [] (c :: pre)); [reflexivity|discriminate]).
  simpl in *. rewrite H0.
  apply IH. intros a b -> Hb. apply (H (c :: a) b); auto.
Qed.

Lemma search_some (r : regex) (pre s : str) :
  match_here r s <> None -> search r (pre ++ s) <> None.
Proof.
  intro H. induction pre as [|c pre IH]; simpl.
  - destruct (match_here r s) as [x|] eqn:E; [|contradiction].
    rewrite (search_here r s x E). discriminate.
  - destruct (match_here r (c :: pre ++ s)); [discriminate|exact IH].
Qed.

Lemma findall_from_fuel (r : regex) :
  forall f1 f2 (s : str),
    (length s < f1)%nat -> (length s < f2)%nat ->
    findall_from f1 r s = findall_from f2 r s.
Proof.
  induction f1 as [|f1 IH]; intros f2 s H1 H2; [lia|].
  destruct f2 as [|f2]; [lia|]. simpl.
  destruct (match_here r s) as [x|].
  - destruct (length (after x) <? length s)%nat eqn:E.
    + apply Nat.ltb_lt in E. f_equal. apply IH; lia.
    + f_equal. destruct s as [|c s]; [reflexivity|]. simpl in *. apply IH; lia.
  - destruct s as [|c s]; [reflexivity|]. simpl in *. apply IH; lia.
Qed.

Lemma findall_from_S (fuel : nat) (r : regex) (s : str) :
  findall_from (S fuel) r s =
  match match_here r s with
  | Some x =>
      if (length (after x) <? length s)%nat
      then group0 x :: findall_from fuel r (after x)
      else group0 x :: match s with
                       | [] => []
                       | _ :: s' => findall_from fuel r s'
                       end
  | None => match s with
            | [] => []
            | _ :: s' => findall_from fuel r s'
            end
  end.
Proof. reflexivity. Qed.

Lemma findall_nomatch (r : regex) c (s : str) :
  match_here r (c :: s) = None -> findall r (c :: s) = findall r s.
Proof.
  intro H. unfold findall. rewrite findall_from_S, H.
  apply findall_from_fuel; simpl; lia.
Qed.

Lemma findall_match (r : regex) (s : str) (x : rmatch) :
  match_here r s = Some x -> (length (after x) < length s)%nat ->
  findall r s = group0 x :: findall r (after x).
Proof.
  intros H L. unfold findall. rewrite findall_from_S, H.
  apply Nat.ltb_lt in L. rewrite L. f_equal.
  apply Nat.ltb_lt in L. apply findall_from_fuel; lia.
Qed.

Lemma findall_skip (r : regex) (pre s : str) :
  (forall c t, In c pre -> match_here r (c :: t) = None) ->
  findall r (pre ++ s) = findall r s.
Proof.
  induction pre as [|c pre IH]; intro H; [reflexivity|].
  simpl. rewrite findall_nomatch.
  - apply IH. intros. apply H. now right.
  - apply H. now left.
Qed.

Lemma findall_from_sound (r : regex) :
  forall fuel (s y : str),
    In y (findall_from fuel r s) ->
    exists pre s' x, s = pre ++ s' /\ match_here r s' = Some x /\ group0 x = y.
Proof.
  induction fuel as [|fuel IH]; intros s y H; simpl in H; [contradiction|].
  assert (Tail : forall c s0, s = c :: s0 -> In y (findall_from fuel r s0) ->
            exists pre s' x, s = pre ++ s' /\ match_here r s' = Some x /\ group0 x = y).
  { intros c s0 -> Hy. apply IH in Hy. destruct Hy as (pre & s' & x & -> & Hm & Hg).
    now exists (c :: pre), s', x. }
  destruct (match_here r s) as [x|] eqn:E.
  - destruct (length (after x) <? length s)%nat.
    + destruct H as [H|H].
      * now exists [], s, x.
      * apply IH in H. destruct H as (pre & s' & x' & Es & Hm & Hg).
        apply match_here_sound in E. destruct E as [E _].
        exists (group0 x ++ pre), s', x'. rewrite <- app_assoc, <- Es. auto.
    + destruct H as [H|H].
      * now exists [], s, x.
      * destruct s as [|c s0]; [contradiction|]. eapply Tail; eauto.
  - destruct s as [|c s0]; [contradiction|]. eapply Tail; eauto.
Qed.

Lemma findall_sound (r : regex) (s y : str) :
  In y (findall r s) ->
  exists pre s' x, s = pre ++ s' /\ match_here r s' = Some x /\ group0 x = y.
Proof. apply findall_from_sound. Qed.

(** ** Stripping *)

Lemma digit_not_space c : is_digit c = true -> is_space c = false.
Proof.
  unfold is_digit, is_space. intro H. apply andb_true_iff in H. destruct H as [H1 H2].
  apply Nat.leb_le in H1. apply Nat.leb_le in H2.
  repeat rewrite orb_false_iff. repeat split.
  - apply andb_false_iff. right. apply Nat.leb_gt. lia.
  - apply andb_false_iff. right. apply Nat.leb_gt. lia.
  - apply Nat.eqb_neq. lia.
  - apply Nat.eqb_neq. lia.
Qed.

Lemma lstrip_app (pre : str) c (s : str) :
  is_space c = false ->
  exists x pre', pre = x ++ pre' /\ lstrip (pre ++ c :: s) = pre' ++ c :: s.
Proof.
  intro Hc. induction pre as [|a pre IH]; simpl.
  - exists [], []. now rewrite Hc.
  - destruct (is_space a).
    + destruct IH as (x & pre' & -> & E). now exists (a :: x), pre'.
    + now exists [], (a :: pre).
Qed.

(** Stripping keeps everything between two characters that are not white
    space. *)
Lemma strip_core (pre mid post : str) c1 c2 :
  is_space c1 = false -> is_space c2 = false ->
  exists x pre' post' y,
    pre = x ++ pre' /\ post = post' ++ y /\
    strip (pre ++ c1 :: mid ++ c2 :: post) = pre' ++ c1 :: mid ++ c2 :: post'.
Proof.
  intros H1 H2. unfold strip.
  destruct (lstrip_app pre c1 (mid ++ c2 :: post) H1) as (x & pre' & Ep & ->).
  replace (rev (pre' ++ c1 :: mid ++ c2 :: post))
    with (rev post ++ c2 :: rev (pre' ++ c1 :: mid)).
  2:{ replace (pre' ++ c1 :: mid ++ c2 :: post) with ((pre' ++ c1 :: mid) ++ c2 :: post)
        by (now rewrite <- app_assoc).
      generalize (pre' ++ c1 :: mid). intro l.
      rewrite rev_app_distr. simpl. now rewrite <- app_assoc. }
  destruct (lstrip_app (rev post) c2 (rev (pre' ++ c1 :: mid)) H2) as (y & q & Eq & ->).
  exists x, pre', (rev q), (rev y). split; [exact Ep|]. split.
  - rewrite <- rev_app_distr, <- Eq. now rewrite rev_involutive.
  - rewrite rev_app_distr. simpl. rewrite rev_involutive.
    now rewrite <- !app_assoc.
Qed.

Lemma strip_id (mid : str) c1 c2 :
  is_space c1 = false -> is_space c2 = false ->
  strip (c1 :: mid ++ [c2]) = c1 :: mid ++ [c2].
Proof.
  intros H1 H2.
  destruct (strip_core [] mid [] c1 c2 H1 H2) as (x & pre' & post' & y & Ep & Eq & E).
  symmetry in Ep, Eq. apply app_eq_nil in Ep, Eq. destruct Ep as [_ ->], Eq as [-> _].
  exact E.
Qed.

Lemma strip_single c : is_space c = false -> strip [c] = [c].
Proof. intro H. unfold strip. simpl. rewrite H. simpl. now rewrite H. Qed.

Lemma lstrip_incl (s : str) c : In c (lstrip s) -> In c s.
Proof.
  induction s as [|a s IH]; simpl; [auto|].
  destruct (is_space a); simpl; auto.
Qed.

Lemma strip_incl (s : str) c : In c (strip s) -> In c s.
Proof.
  unfold strip. intro H. apply in_rev in H. apply lstrip_incl in H.
  apply in_rev in H. now apply lstrip_incl in H.
Qed.

(** ** Digits *)

Lemma digits_value_from (s : str) :
  forall acc, fold_left (fun acc c => (10 * acc + digit_value c)%Z) s acc
              = (acc * 10 ^ Z.of_nat (length s) + digits_value s)%Z.
Proof.
  unfold digits_value. induction s as [|c s IH]; intro acc.
  - simpl. lia.
  - cbn [fold_left length]. rewrite IH, (IH (10 * 0 + digit_value c)%Z).
    rewrite Nat2Z.inj_succ, Z.pow_succ_r by lia. lia.
Qed.

Lemma digits_value_app (a b : str) :
  digits_value (a ++ b) = (digits_value a * 10 ^ Z.of_nat (length b) + digits_value b)%Z.
Proof.
  unfold digits_value at 1. rewrite fold_left_app.
  fold (digits_value a). apply digits_value_from.
Qed.

Lemma digits_value_nonneg (s : str) : (0 <= digits_value s)%Z.
Proof.
  induction s as [|c s IH] using rev_ind; [unfold digits_value; simpl; lia|].
  rewrite digits_value_app. unfold digits_value at 2. simpl.
  unfold digit_value. lia.
Qed.

Lemma digit_char_spec (d : Z) :
  (0 <= d <= 9)%Z -> is_digit (digit_char d) = true /\ digit_value (digit_char d) = d.
Proof.
  intro H.
  assert (C : (d = 0 \/ d = 1 \/ d = 2 \/ d = 3 \/ d = 4 \/ d = 5 \/ d = 6 \/ d = 7
              \/ d = 8 \/ d = 9)%Z) by lia.
  repeat (destruct C as [->|C]; [split; reflexivity|]). subst d. split; reflexivity.
Qed.

Lemma decimal_from_spec :
  forall fuel n (acc : str),
    (0 <= n < 10 ^ Z.of_nat fuel)%Z -> forallb is_digit acc = true ->
    forallb is_digit (decimal_from fuel n acc) = true
    /\ digits_value (decimal_from fuel n acc)
       = (n * 10 ^ Z.of_nat (length acc) + digits_value acc)%Z.
Proof.
  induction fuel as [|fuel IH]; intros n acc Hn Hacc.
  - simpl in Hn. assert (n = 0)%Z by lia. subst n. simpl. auto.
  - cbn [decimal_from].
    assert (Hd : (0 <= n mod 10 <= 9)%Z) by (pose proof (Z.mod_pos_bound n 10); lia).
    destruct (digit_char_spec (n mod 10)%Z Hd) as [D1 D2].
    assert (Hacc' : forallb is_digit (digit_char (n mod 10) :: acc) = true)
      by (cbn [forallb]; now rewrite D1).
    assert (V : digits_value (digit_char (n mod 10) :: acc)
                = (n mod 10 * 10 ^ Z.of_nat (length acc) + digits_value acc)%Z).
    { change (digit_char (n mod 10) :: acc) with ([digit_char (n mod 10)] ++ acc).
      rewrite digits_value_app. unfold digits_value at 1. cbn [fold_left length].
      rewrite D2. change (Z.of_nat 0) with 0%Z. lia. }
    destruct (n <? 10)%Z eqn:E.
    + apply Z.ltb_lt in E. split; [exact Hacc'|]. rewrite V.
      rewrite Z.mod_small by lia. reflexivity.
    + apply Z.ltb_ge in E.
      rewrite Nat2Z.inj_succ, Z.pow_succ_r in Hn by lia.
      destruct (IH (n / 10)%Z (digit_char (n mod 10) :: acc)) as [F1 F2].
      * split; [apply Z.div_pos; lia|]. apply Z.div_lt_upper_bound; lia.
      * exact Hacc'.
      * split; [exact F1|]. rewrite F2, V. cbn [length].
        rewrite Nat2Z.inj_succ, Z.pow_succ_r by lia.
        pose proof (Z.div_mod n 10). nia.
Qed.

Lemma decimal_from_nonempty fuel n (acc : str) : decimal_from (S fuel) n acc <> [].
Proof.
  revert n acc. induction fuel as [|fuel IH]; intros n acc; cbn [decimal_from].
  - destruct (n <? 10)%Z; discriminate.
  - destruct (n <? 10)%Z; [discriminate|]. apply IH.
Qed.

(** [decimal n] is the run of digits that denotes [n]. *)
Lemma decimal_spec (n : Z) :
  (0 <= n)%Z ->
  forallb is_digit (decimal n) = true /\ digits_value (decimal n) = n /\ decimal n <> [].
Proof.
  intro Hn. unfold decimal.
  destruct (decimal_from_spec (S (Z.to_nat (Z.log2 n))) n []) as [F V]; [|reflexivity|].
  - split; [exact Hn|]. rewrite Nat2Z.inj_succ, Z2Nat.id by apply Z.log2_nonneg.
    destruct (Z.eq_dec n 0) as [->|Hz]; [simpl; lia|].
    pose proof (Z.log2_spec n ltac:(lia)) as [_ U].
    eapply Z.lt_le_trans; [exact U|].
    apply Z.pow_le_mono_l. lia.
  - split; [exact F|]. split.
    + rewrite V. unfold digits_value. simpl. lia.
    + apply decimal_from_nonempty.
Qed.

(** ** [float] *)

Lemma digit_not_point c : is_digit c = true -> is_char "." c = false.
Proof.
  intro H. unfold is_char. destruct (Ascii.eqb_spec "." c) as [<-|]; [discriminate H|reflexivity].
Qed.

Lemma split_point_none (s : str) :
  (forall c, In c s -> is_char "." c = false) -> split_point s = (s, None).
Proof.
  induction s as [|c s IH]; intro H; [reflexivity|].
  cbn [split_point app]. rewrite (H c) by now left.
  rewrite IH; [reflexivity|]. intros. apply H. now right.
Qed.

Lemma split_point_some (a f : str) :
  (forall c, In c a -> is_char "." c = false) ->
  split_point (a ++ "."%char :: f) = (a, Some f).
Proof.
  induction a as [|c a IH]; intro H; [reflexivity|].
  cbn [split_point app]. rewrite (H c) by now left.
  rewrite IH; [reflexivity|]. intros. apply H. now right.
Qed.

Lemma digits_no_point (ds : str) :
  forallb is_digit ds = true -> forall c, In c ds -> is_char "." c = false.
Proof.
  intros H c Hc. apply digit_not_point. rewrite forallb_forall in H. now apply H.
Qed.

(** A run of digits is stripped to itself. *)
Lemma strip_digits_tail (c : ascii) (mid : str) (c2 : ascii) :
  is_digit c = true -> is_digit c2 = true ->
  strip (c :: mid ++ [c2]) = c :: mid ++ [c2].
Proof. intros H1 H2. apply strip_id; now apply digit_not_space. Qed.

Lemma strip_digits (ds : str) : forallb is_digit ds = true -> strip ds = ds.
Proof.
  intro H. destruct ds as [|c ds]; [reflexivity|].
  destruct (exists_last (l := c :: ds) ltac:(discriminate)) as (l & z & E).
  assert (Hz : is_digit z = true).
  { rewrite forallb_forall in H. apply H. rewrite E. apply in_or_app. right. now left. }
  simpl in H. apply andb_true_iff in H. destruct H as [Hc _].
  destruct l as [|c' l]; simpl in E; injection E as <- E.
  - subst ds. apply strip_single. now apply digit_not_space.
  - rewrite E. now apply strip_digits_tail.
Qed.

Lemma python_float_int (ds : str) :
  ds <> [] -> forallb is_digit ds = true ->
  python_float ds = Some (Qred (digits_value ds # 1)).
Proof.
  intros Hne Hd. unfold python_float.
  rewrite (strip_digits ds Hd), (split_point_none ds (digits_no_point ds Hd)).
  rewrite Hd, app_nil_r. simpl.
  destruct ds; [contradiction|]. reflexivity.
Qed.

Lemma python_float_frac (ds : str) (a b : ascii) :
  ds <> [] -> forallb is_digit ds = true -> is_digit a = true -> is_digit b = true ->
  python_float (ds ++ ["."%char; a; b]) = Some (Qred (digits_value (ds ++ [a; b]) # 100)).
Proof.
  intros Hne Hd Ha Hb. unfold python_float.
  destruct ds as [|c ds]; [contradiction|].
  replace ((c :: ds) ++ ["."%char; a; b]) with (c :: (ds ++ ["."%char; a]) ++ [b])
    by (simpl; now rewrite <- app_assoc).
  rewrite strip_digits_tail; [|simpl in Hd; now destruct (is_digit c)|exact Hb].
  replace (c :: (ds ++ ["."%char; a]) ++ [b]) with ((c :: ds) ++ "."%char :: [a; b])
    by (simpl; now rewrite <- app_assoc).
  rewrite (split_point_some (c :: ds) [a; b] (digits_no_point (c :: ds) Hd)).
  rewrite Hd. simpl forallb. rewrite Ha, Hb. simpl. reflexivity.
Qed.

(** ** The numeric fallback pattern at a run of digits *)

Lemma star_digits (A : Type) (ds tail : str) g (k : mstate -> option A) (a : A) :
  forallb is_digit ds = true ->
  (forall c t, tail = c :: t -> is_digit c = false) ->
  k (MState tail g) = Some a ->
  m (Star digit) (MState (ds ++ tail) g) k = Some a.
Proof.
  intros Hd Ht Hk. induction ds as [|d ds IH].
  - cbn [app]. destruct tail as [|c t]; [exact Hk|].
    unfold digit. rewrite m_star_chr, (Ht c t eq_refl). exact Hk.
  - cbn [forallb] in Hd. apply andb_true_iff in Hd. destruct Hd as [Hd1 Hd2].
    cbn [app]. unfold digit. rewrite m_star_chr, Hd1.
    fold digit. now rewrite (IH Hd2).
Qed.

Lemma m_alt (A : Type) (r1 r2 : regex) st (k : mstate -> option A) :
  m (Alt r1 r2) st k = match m r1 st k with Some a => Some a | None => m r2 st k end.
Proof. reflexivity. Qed.

Lemma m_seq (A : Type) (r1 r2 : regex) st (k : mstate -> option A) :
  m (Seq r1 r2) st k = m r1 st (fun st' => m r2 st' k).
Proof. reflexivity. Qed.

Lemma fraction_fails (A : Type) (d : ascii) (post : str) g (k : mstate -> option A) :
  (forall c t, post = c :: t -> is_digit c = false) ->
  m (Seq (Chr (is_char ".")) (Rep2 digit)) (MState ("."%char :: d :: post) g) k = None.
Proof.
  intro Hpost. unfold Rep2, digit. cbn [m rest group1].
  change (is_char "." ".") with true. cbv iota.
  destruct (is_digit d); [|reflexivity].
  destruct post as [|c t]; [reflexivity|]. now rewrite (Hpost c t eq_refl).
Qed.

(** Digits followed by a period and a single digit: the match is the
    digits before the period. *)
Lemma match_here_fallback_int (ds : str) (d : ascii) (post : str) :
  ds <> [] -> forallb is_digit ds = true ->
  (forall c t, post = c :: t -> is_digit c = false) ->
  match_here fallback_re (ds ++ "."%char :: d :: post)
  = Some (RMatch ds None ("."%char :: d :: post)).
Proof.
  intros Hne Hd Hpost. destruct ds as [|d0 ds]; [contradiction|].
  cbn [forallb] in Hd. apply andb_true_iff in Hd. destruct Hd as [Hd0 Hd].
  unfold match_here, fallback_re, Plus.
  change ((d0 :: ds) ++ "."%char :: d :: post) with (d0 :: ds ++ "."%char :: d :: post).
  set (s := d0 :: ds ++ "."%char :: d :: post).
  cbn [m]. unfold digit at 1. cbn [m]. unfold s at 1. cbn [rest group1]. rewrite Hd0.
  apply star_digits; [exact Hd| |].
  - intros c t E. injection E as <- _. reflexivity.
  - unfold Opt. rewrite m_alt, fraction_fails by exact Hpost.
    cbn [m rest group1]. f_equal. f_equal.
    exact (firstn_app_minus (d0 :: ds) ("."%char :: d :: post)).
Qed.

(** Digits followed by a period and two digits: the match takes them. *)
Lemma match_here_fallback_frac (ds : str) (a b : ascii) (post : str) :
  ds <> [] -> forallb is_digit ds = true -> is_digit a = true -> is_digit b = true ->
  match_here fallback_re (ds ++ "."%char :: a :: b :: post)
  = Some (RMatch (ds ++ ["."%char; a; b]) None post).
Proof.
  intros Hne Hd Ha Hb. destruct ds as [|d0 ds]; [contradiction|].
  cbn [forallb] in Hd. apply andb_true_iff in Hd. destruct Hd as [Hd0 Hd].
  unfold match_here, fallback_re, Plus.
  change ((d0 :: ds) ++ "."%char :: a :: b :: post)
    with (d0 :: ds ++ "."%char :: a :: b :: post).
  set (s := d0 :: ds ++ "."%char :: a :: b :: post).
  cbn [m]. unfold digit at 1. cbn [m]. unfold s at 1. cbn [rest group1]. rewrite Hd0.
  apply star_digits; [exact Hd| |].
  - intros c t E. injection E as <- _. reflexivity.
  - unfold Opt, Rep2, digit. cbn [m rest group1].
    change (is_char "." ".") with true. cbv iota. rewrite Ha, Hb.
    f_equal. f_equal.
    replace s with (((d0 :: ds) ++ ["."%char; a; b]) ++ post)
      by (unfold s; rewrite <- app_assoc; reflexivity).
    apply firstn_app_minus.
Qed.
(** ** The two loops of [parse_price] *)

Lemma Qltb_lt (x y : Q) : Qltb x y = true -> x < y.
Proof.
  unfold Qltb. intro H. apply negb_true_iff in H.
  apply Qnot_le_lt. intro L. apply Qle_bool_iff in L. congruence.
Qed.

Lemma parse_currency_inv (patterns : list regex) (text : str) (p : Q) :
  parse_currency patterns text = Some p ->
  exists r x, In r patterns /\ search r text = Some x
    /\ python_float (remove_char " " (remove_char "," (group x))) = Some p
    /\ 0.01 < p /\ p < 1000000.
Proof.
  induction patterns as [|r patterns IH]; simpl; [discriminate|].
  intro H.
  assert (Next : parse_currency patterns text = Some p ->
    exists r0 x, (r = r0 \/ In r0 patterns) /\ search r0 text = Some x
      /\ python_float (remove_char " " (remove_char "," (group x))) = Some p
      /\ 0.01 < p /\ p < 1000000).
  { intro H'. destruct (IH H') as (r0 & x & Hin & Hrest). exists r0, x. auto. }
  destruct (search r text) as [x|] eqn:Es; [|auto].
  destruct (python_float _) as [price|] eqn:Ef; [|auto].
  destruct (Qltb 0.01 price && Qltb price 1000000) eqn:Ew; [|auto].
  injection H as ->. apply andb_true_iff in Ew. destruct Ew as [W1 W2].
  exists r, x. repeat split; auto using Qltb_lt.
Qed.

Lemma parse_numbers_inv (all_numbers : list str) (p : Q) :
  parse_numbers all_numbers = Some p ->
  exists num_str, In num_str all_numbers /\ python_float num_str = Some p /\ 10 <= p.
Proof.
  induction all_numbers as [|y l IH]; simpl; [discriminate|].
  intro H.
  assert (Next : parse_numbers l = Some p ->
    exists num_str, (y = num_str \/ In num_str l) /\ python_float num_str = Some p /\ 10 <= p).
  { intro H'. destruct (IH H') as (z & Hin & Hrest). exists z. auto. }
  destruct (python_float y) as [price|] eqn:Ef; [|auto].
  destruct (Qle_bool 10 price) eqn:Ew; [|auto].
  injection H as ->. apply Qle_bool_iff in Ew. exists y. auto.
Qed.

(** Whatever [parse_price] accepts is above one cent. *)
Lemma parse_price_window (text : str) (p : Q) :
  parse_price text = Some p -> 0.01 < p.
Proof.
  unfold parse_price. destruct (parse_currency _ _) as [q|] eqn:E.
  - intro H. injection H as ->. apply parse_currency_inv in E.
    destruct E as (_ & _ & _ & _ & _ & W & _). exact W.
  - intro H. apply parse_numbers_inv in H. destruct H as (_ & _ & _ & W).
    eapply Qlt_le_trans; [|exact W]. reflexivity.
Qed.

Lemma parse_price_pos (text : str) (p : Q) : parse_price text = Some p -> 0 < p.
Proof.
  intro H. apply parse_price_window in H.
  eapply Qlt_trans; [|exact H]. reflexivity.
Qed.

Lemma parse_price_truthy (text : str) (p : Q) :
  parse_price text = Some p -> truthy (Some p) = true.
Proof.
  intro H. apply parse_price_pos in H. simpl. apply negb_true_iff.
  destruct (Qeq_bool p 0) eqn:E; [|reflexivity].
  apply Qeq_bool_iff in E. rewrite E in H. discriminate H.
Qed.

Lemma first_price_inv (texts : list str) (p : Q) :
  first_price texts = Some p -> exists t, In t texts /\ parse_price t = Some p.
Proof.
  induction texts as [|t l IH]; simpl; [discriminate|].
  destruct (truthy (parse_price t)).
  - intro H. exists t. auto.
  - intro H. destruct (IH H) as (t' & Hin & Hp). exists t'. auto.
Qed.

Lemma first_price_hit (t : str) (more : list str) (p : Q) :
  parse_price t = Some p -> first_price (t :: more) = Some p.
Proof.
  intro H. simpl. rewrite H, (parse_price_truthy t p H). reflexivity.
Qed.

Lemma first_price_app (a b : list str) :
  first_price (a ++ b) =
  match first_price a with Some p => Some p | None => first_price b end.
Proof.
  induction a as [|t a IH]; simpl; [reflexivity|].
  destruct (truthy (parse_price t)) eqn:E; [|exact IH].
  destruct (parse_price t); [reflexivity|discriminate E].
Qed.

Lemma heuristic_stage_inv (soup : document) (patterns : list attr_pattern) (p : Q) :
  heuristic_stage soup patterns = Some p ->
  exists t, parse_price t = Some p.
Proof.
  induction patterns as [|pat l IH]; simpl; [discriminate|].
  destruct (first_price _) as [q|] eqn:E.
  - intro H. injection H as ->. apply first_price_inv in E.
    destruct E as (t & _ & Hp). now exists t.
  - exact IH.
Qed.

Lemma extract_price_inv BeautifulSoup select (html : str) css (p : Q) :
  extract_price BeautifulSoup select html css = Ok (Some p) ->
  exists t, parse_price t = Some p.
Proof.
  unfold extract_price, selector_stage, regex_stage.
  destruct (selector_given css) as [sel|].
  - destruct (select _ sel) as [elements|e]; [|discriminate].
    destruct (first_price (map get_text elements)) as [q|] eqn:E.
    + intro H. injection H as ->. apply first_price_inv in E.
      destruct E as (t & _ & Hp). now exists t.
    + destruct (heuristic_stage _ _) as [q|] eqn:Eh.
      * intro H. injection H as ->. eapply heuristic_stage_inv; eauto.
      * intro H. injection H as H. apply first_price_inv in H.
        destruct H as (t & _ & Hp). now exists t.
  - destruct (heuristic_stage _ _) as [q|] eqn:Eh.
    + intro H. injection H as ->. eapply heuristic_stage_inv; eauto.
    + intro H. injection H as H. apply first_price_inv in H.
      destruct H as (t & _ & Hp). now exists t.
Qed.

(** ** The fetch strategies *)

Ltac run_step :=
  match goal with
  | |- context [match ?x with Ok _ => _ | Raise _ => _ end] => destruct x eqn:?
  | |- context [if ?b then _ else _] => destruct b eqn:?
  | |- context [match ?x with Some _ => _ | None => _ end] => destruct x eqn:?
  end.

Ltac run := unfold try_except, bind, outcome, emit, ret; simpl; repeat (run_step; simpl).

Section FetchFacts.
Variable BeautifulSoup : str -> document.
Variable select : document -> str -> result (list element).
Variable w : world.

Lemma fetch_price_simple_inv url css t t' (p : Q) :
  fetch_price_simple BeautifulSoup select w url css t = (Ok (Some p), t') ->
  exists html, extract_price BeautifulSoup select html css = Ok (Some p).
Proof.
  unfold fetch_price_simple. run; intro H; try discriminate H.
  injection H as <- _. eauto.
Qed.

Lemma fetch_price_selenium_inv url css t t' (p : Q) :
  fetch_price_selenium BeautifulSoup select w url css t = (Ok (Some p), t') ->
  exists html, extract_price BeautifulSoup select html css = Ok (Some p).
Proof.
  unfold fetch_price_selenium. run; intro H; try discriminate H.
  injection H as <- _. eauto.
Qed.

Lemma fetch_price_inv url css force t t' (p : Q) :
  fetch_price BeautifulSoup select w url css force t = (Ok (Some p), t') ->
  exists html, extract_price BeautifulSoup select html css = Ok (Some p).
Proof.
  unfold fetch_price. destruct force.
  - apply fetch_price_selenium_inv.
  - unfold bind.
    destruct (fetch_price_simple _ _ _ _ _ _) as [[price|e] t1] eqn:E1; [|discriminate].
    destruct (truthy price) eqn:T1.
    + unfold ret. intro H. injection H as -> ->.
      eapply fetch_price_simple_inv; eauto.
    + destruct (fetch_price_selenium _ _ _ _ _ _) as [[price2|e] t2] eqn:E2; [|discriminate].
      destruct (truthy price2); unfold ret; intro H; [|discriminate].
      injection H as -> ->. eapply fetch_price_selenium_inv; eauto.
Qed.

Lemma extract_price_raises html css :
  select_raises_Exception select ->
  raises_Exception (extract_price BeautifulSoup select html css).
Proof.
  intros Hs e E2. unfold extract_price, selector_stage in E2.
  destruct (selector_given css) as [sel|].
  - destruct (select _ sel) as [els|e'] eqn:E3.
    + destruct (first_price _); [discriminate|].
      destruct (heuristic_stage _ _); discriminate.
    + injection E2 as <-. exact (Hs _ _ _ E3).
  - destruct (heuristic_stage _ _); discriminate.
Qed.

(** The handlers take every error that derives from [Exception]. *)
Lemma fetch_price_simple_returns url css t :
  world_raises_Exception w -> select_raises_Exception select ->
  exists price t', fetch_price_simple BeautifulSoup select w url css t = (Ok price, t').
Proof.
  intros Hw Hs. unfold fetch_price_simple.
  unfold try_except, bind, outcome, emit, ret.
  destruct (requests_get w url) as [resp|e] eqn:E1.
  - unfold raise_for_status.
    destruct ((400 <=? status_code resp)%Z && (status_code resp <? 600)%Z); simpl; eauto.
    destruct (extract_price _ _ _ _) as [price|e] eqn:E2; eauto.
    rewrite (extract_price_raises (text resp) css Hs e E2). eauto.
  - rewrite ((wre_get Hw url : raises_Exception _) e E1). eauto.
Qed.

Lemma fetch_price_selenium_returns url css t :
  world_raises_Exception w -> select_raises_Exception select ->
  exists price t', fetch_price_selenium BeautifulSoup select w url css t = (Ok price, t').
Proof.
  intros Hw Hs. unfold fetch_price_selenium.
  unfold try_except, bind, outcome, emit, ret.
  destruct (import_selenium w) as [[]|e] eqn:E0.
  2:{ destruct (is_ImportError e); eauto. rewrite ((wre_import Hw : raises_Exception _) e E0). eauto. }
  destruct (webdriver_Chrome w) as [[]|e] eqn:E1.
  2:{ destruct (is_ImportError e); eauto. rewrite ((wre_chrome Hw : raises_Exception _) e E1). eauto. }
  destruct (driver_get w url) as [[]|e] eqn:E2.
  2:{ destruct (is_ImportError e); eauto. rewrite ((wre_nav Hw url : raises_Exception _) e E2). eauto. }
  destruct (wait_until_body w) as [[]|e] eqn:E3.
  2:{ destruct (is_ImportError e); eauto. rewrite ((wre_wait Hw : raises_Exception _) e E3). eauto. }
  destruct (page_source w) as [html|e] eqn:E4.
  2:{ destruct (is_ImportError e); eauto. rewrite ((wre_source Hw : raises_Exception _) e E4). eauto. }
  destruct (driver_quit w) as [[]|e] eqn:E5.
  2:{ destruct (is_ImportError e); eauto. rewrite ((wre_quit Hw : raises_Exception _) e E5). eauto. }
  destruct (extract_price _ _ html css) as [price|e] eqn:E6; eauto.
  destruct (is_ImportError e); eauto.
  rewrite (extract_price_raises html css Hs e E6). eauto.
Qed.
End FetchFacts.

(** * The claims *)

(** ** Disposal of the browser session *)

(** The straight-line path does call [driver.quit()]: once the page source
    has been read, the call is made before the page is examined. *)
Lemma fetch_price_selenium_quits BeautifulSoup select (w : world) url css t html :
  import_selenium w = Ok tt -> webdriver_Chrome w = Ok tt ->
  driver_get w url = Ok tt -> wait_until_body w = Ok tt ->
  page_source w = Ok html ->
  In QuitCalled (snd (fetch_price_selenium BeautifulSoup select w url css t)).
Proof.
  intros E0 E1 E2 E3 E4. unfold fetch_price_selenium.
  unfold try_except, bind, outcome, emit, ret. rewrite E0, E1, E2, E3, E4.
  assert (Q : In QuitCalled
    (((((((t ++ [ChromeStarted]) ++ [Navigate url]) ++ [WaitBody]) ++ [Sleep 3])
        ++ [PageSource]) ++ [QuitCalled]))) by (apply in_or_app; right; now left).
  destruct (driver_quit w) as [[]|e].
  - destruct (extract_price _ _ html css) as [price|e]; [exact Q|].
    destruct (is_ImportError e); [exact Q|]. destruct (is_Exception e); exact Q.
  - destruct (is_ImportError e); [exact Q|]. destruct (is_Exception e); exact Q.
Qed.

(** C1: the browser session is meant to be disposed of on every exit path.
    When navigation or the wait for the body raises after the session was
    created, [fetch_price_selenium] returns [None] and [driver.quit()] has
    not been called: the session is left running. *)
Theorem fetch_price_selenium_leaks_session :
  forall BeautifulSoup select url css,
    fetch_price_selenium BeautifulSoup select world_navigation_fails url css []
      = (Ok None, [ChromeStarted; Navigate url])
    /\ fetch_price_selenium BeautifulSoup select world_wait_times_out url css []
      = (Ok None, [ChromeStarted; Navigate url; WaitBody])
    /\ ~ In QuitCalled [ChromeStarted; Navigate url]
    /\ ~ In QuitCalled [ChromeStarted; Navigate url; WaitBody].
Proof.
  intros. repeat split; try reflexivity.
  - intros [H|[H|[]]]; discriminate H.
  - intros [H|[H|[H|[]]]]; discriminate H.
Qed.

(** ** No exception reaches the caller *)

(** C2: whatever the url, the selector and the flag are, and whichever of
    the outside calls fail with an error deriving from [Exception]
    (transport errors, error statuses, timeouts, browser errors, selenium
    missing), [fetch_price] returns a price or [None]. *)
Theorem fetch_price_never_raises :
  forall BeautifulSoup select (w : world) url css force t,
    world_raises_Exception w -> select_raises_Exception select ->
    exists price t',
      fetch_price BeautifulSoup select w url css force t = (Ok price, t').
Proof.
  intros BS select w url css force t Hw Hs. unfold fetch_price.
  destruct force.
  - apply fetch_price_selenium_returns; assumption.
  - unfold bind.
    destruct (fetch_price_simple_returns BS select w url css t Hw Hs) as (p1 & t1 & ->).
    destruct (truthy p1); [unfold ret; eauto|].
    destruct (fetch_price_selenium_returns BS select w url css t1 Hw Hs) as (p2 & t2 & ->).
    destruct (truthy p2); unfold ret; eauto.
Qed.

Lemma fetch_price_never_raises_witness :
  exists price t',
    fetch_price (fun _ => []) (fun _ _ => Raise SelectorSyntaxError)
      world_without_selenium "http://shop.example/item" (Some ("span[" : str)) false []
    = (Ok price, t').
Proof.
  apply fetch_price_never_raises.
  - constructor; simpl; intros; intros e H; inversion H; reflexivity.
  - intros soup sel e H. inversion H. reflexivity.
Defined.

(** ** Bounds *)

(** C5: a price accepted next to a currency symbol lies strictly between
    0.01 and 1,000,000; a price accepted by the numeric fallback is at least
    10; so every price [parse_price], [extract_price] and [fetch_price]
    return is strictly positive. *)
Theorem accepted_price_bounds :
  forall (x : str) (p : Q),
    (parse_currency currency_patterns (strip x) = Some p ->
       parse_price x = Some p /\ 0.01 < p /\ p < 1000000)
    /\ (parse_currency currency_patterns (strip x) = None ->
        parse_fallback (strip x) = Some p ->
        parse_price x = Some p /\ 10 <= p)
    /\ (parse_price x = Some p -> 0 < p)
    /\ (forall BeautifulSoup select css,
          extract_price BeautifulSoup select x css = Ok (Some p) -> 0 < p)
    /\ (forall BeautifulSoup select w css force t t',
          fetch_price BeautifulSoup select w x css force t = (Ok (Some p), t') -> 0 < p).
Proof.
  intros x p. repeat split.
  - unfold parse_price. now rewrite H.
  - apply parse_currency_inv in H. destruct H as (_ & _ & _ & _ & _ & W & _). exact W.
  - apply parse_currency_inv in H. destruct H as (_ & _ & _ & _ & _ & _ & W). exact W.
  - unfold parse_price. now rewrite H.
  - apply parse_numbers_inv in H0. destruct H0 as (_ & _ & _ & W). exact W.
  - apply parse_price_pos.
  - intros BS select css H. apply extract_price_inv in H.
    destruct H as (t & H). exact (parse_price_pos t p H).
  - intros BS select w css force t t' H. apply fetch_price_inv in H.
    destruct H as (html & H). apply extract_price_inv in H.
    destruct H as (t0 & H). exact (parse_price_pos t0 p H).
Qed.

Lemma accepted_price_bounds_witness :
  parse_price "Now only $49.99!" = Some 49.99 /\ 0.01 < 49.99 /\ 49.99 < 1000000.
Proof.
  apply (proj1 (accepted_price_bounds "Now only $49.99!" 49.99)).
  vm_compute. reflexivity.
Defined.

(** ** Particular inputs *)

(** C8: [parse_price("R 1 299,00")] is 1299.00.  The symbol-first pattern
    takes "R 1 299": the space groups three digits, the comma is not
    followed by three digits and ends the group. *)
Theorem parse_price_space_grouped :
  parse_price "R 1 299,00" = Some (Qred 1299.00)
  /\ search currency_before "R 1 299,00"
     = Some (RMatch ("R 1 299" : str) (Some ("1 299" : str)) (",00" : str))
  /\ remove_char " " (remove_char "," ("1 299" : str)) = ("1299" : str).
Proof. vm_compute. repeat split; reflexivity. Qed.

(** C9: "$5000000" is refused next to its currency symbol, the window
    ending below 1,000,000, and the same digits are then accepted by the
    numeric fallback: [parse_price] returns 5000000. *)
Theorem parse_price_window_not_upper_bound :
  search currency_before "$5000000"
    = Some (RMatch ("$5000000" : str) (Some ("5000000" : str)) [])
  /\ python_float ("5000000" : str) = Some 5000000
  /\ Qltb 5000000 1000000 = false
  /\ parse_currency currency_patterns (strip "$5000000") = None
  /\ findall fallback_re (strip "$5000000") = [("5000000" : str)]
  /\ parse_price "$5000000" = Some 5000000.
Proof. vm_compute. repeat split; reflexivity. Qed.

(** ** Texts without a currency symbol *)

Lemma Qred_int (n : Z) : Qred (n # 1) = n # 1.
Proof.
  unfold Qred. pose proof (Z.ggcd_correct_divisors n 1) as D.
  pose proof (Z.ggcd_gcd n 1) as G.
  destruct (Z.ggcd n 1) as (g, (aa, bb)). cbn [fst snd] in *.
  rewrite Z.gcd_1_r in G. subst g. destruct D as [D1 D2].
  rewrite Z.mul_1_l in D1, D2. subst aa bb. reflexivity.
Qed.

Lemma chr_currency_inv (A : Type) st (k : mstate -> option A) a :
  m (Chr is_currency) st k = Some a ->
  exists c t, rest st = c :: t /\ is_currency c = true.
Proof.
  cbn [m]. destruct (rest st) as [|c t]; [discriminate|].
  destruct (is_currency c) eqn:E; [|discriminate]. intros _. now exists c, t.
Qed.

(** Neither currency pattern matches in a text that has no currency
    symbol. *)
Lemma search_no_currency (r : regex) (s : str) :
  In r currency_patterns ->
  (forall c, In c s -> is_currency c = false) ->
  search r s = None.
Proof.
  intros Hr Hs. destruct (search r s) as [x|] eqn:E; [exfalso|reflexivity].
  apply search_sound in E. destruct E as (pre & s' & -> & E).
  unfold match_here in E.
  destruct Hr as [<-|[<-|[]]].
  - unfold currency_before in E. rewrite m_seq in E.
    apply chr_currency_inv in E. destruct E as (c & t & E & Hc).
    cbn [rest] in E. subst s'.
    rewrite Hs in Hc; [discriminate|]. apply in_or_app. right. now left.
  - unfold currency_after in E. rewrite m_seq in E.
    apply m_sound in E. destruct E as (p1 & st1 & E1 & _ & K1 & _).
    rewrite m_seq in K1.
    apply m_sound in K1. destruct K1 as (p2 & st2 & E2 & _ & K2 & _).
    apply chr_currency_inv in K2. destruct K2 as (c & t & E3 & Hc).
    cbn [rest] in E1. rewrite E2, E3 in E1. subst s'.
    rewrite Hs in Hc; [discriminate|].
    apply in_or_app. right. apply in_or_app. right. apply in_or_app. right. now left.
Qed.

Lemma parse_currency_no_symbol (s : str) :
  (forall c, In c s -> is_currency c = false) ->
  parse_currency currency_patterns s = None.
Proof.
  intro Hs. unfold currency_patterns. cbn [parse_currency].
  rewrite (search_no_currency currency_before s), (search_no_currency currency_after s);
    auto; cbn; auto.
Qed.

Lemma match_here_fallback_nodigit c (s : str) :
  is_digit c = false -> match_here fallback_re (c :: s) = None.
Proof.
  intro H. unfold match_here, fallback_re, Plus, digit.
  rewrite !m_seq. cbn [m rest]. now rewrite H.
Qed.

(** The first number the fallback scan finds after a prefix without
    digits *)
Lemma findall_fallback_first (pre s : str) (x : rmatch) :
  (forall c, In c pre -> is_digit c = false) ->
  match_here fallback_re s = Some x -> (length (after x) < length s)%nat ->
  findall fallback_re (pre ++ s) = group0 x :: findall fallback_re (after x).
Proof.
  intros Hpre Hm Hl. rewrite findall_skip.
  - now apply findall_match.
  - intros c t Hc. apply match_here_fallback_nodigit. now apply Hpre.
Qed.

(** ** A single decimal digit *)

(** C10: in a text without a currency symbol whose first run of digits is
    followed by a period and exactly one digit, the fallback pattern
    matches the digits before the period only; when they denote at least
    10, [parse_price] returns that whole number and the digit after the
    period is lost. *)
Theorem parse_price_drops_single_decimal :
  forall (pre ds post : str) (d : ascii),
    (forall c, In c (pre ++ ds ++ "."%char :: d :: post) -> is_currency c = false) ->
    (forall c, In c pre -> is_digit c = false) ->
    ds <> [] -> forallb is_digit ds = true -> is_digit d = true ->
    (forall c t, post = c :: t -> is_digit c = false) ->
    (10 <= digits_value ds)%Z ->
    parse_price (pre ++ ds ++ "."%char :: d :: post) = Some (inject_Z (digits_value ds)).
Proof.
  intros pre ds post d Hcur Hpre Hne Hds Hd Hpost Hten.
  destruct ds as [|d0 ds']; [contradiction|].
  assert (Hd0 : is_digit d0 = true)
    by (cbn [forallb] in Hds; apply andb_true_iff in Hds; tauto).
  destruct (strip_core pre (ds' ++ ["."%char]) post d0 d
              (digit_not_space d0 Hd0) (digit_not_space d Hd))
    as (x & pre' & post' & y & Epre & Epost & Es).
  assert (Et : pre ++ (d0 :: ds') ++ "."%char :: d :: post
               = pre ++ d0 :: (ds' ++ ["."%char]) ++ d :: post)
    by (cbn [app]; now rewrite <- app_assoc).
  assert (Et' : pre' ++ d0 :: (ds' ++ ["."%char]) ++ d :: post'
               = pre' ++ (d0 :: ds') ++ "."%char :: d :: post')
    by (cbn [app]; now rewrite <- app_assoc).
  unfold parse_price. rewrite Et, Es, Et'.
  rewrite parse_currency_no_symbol.
  2:{ intros c Hc. apply Hcur. rewrite Et, <- Et' in *.
      apply strip_incl. now rewrite Es. }
  unfold parse_fallback.
  rewrite (findall_fallback_first pre' ((d0 :: ds') ++ "."%char :: d :: post')
             (RMatch (d0 :: ds') None ("."%char :: d :: post'))).
  - cbn [group0 parse_numbers].
    rewrite (python_float_int (d0 :: ds') Hne Hds), Qred_int.
    replace (Qle_bool 10 (digits_value (d0 :: ds') # 1)) with true; [reflexivity|].
    symmetry. apply Qle_bool_iff. unfold Qle. cbn [Qnum Qden]. lia.
  - intros c Hc. apply Hpre. rewrite Epre. apply in_or_app. now right.
  - apply match_here_fallback_int; auto.
    intros c t E. subst post'. apply (Hpost c (t ++ y)). now rewrite Epost.
  - cbn [after]. rewrite length_app. cbn [length]. lia.
Qed.

Lemma parse_price_drops_single_decimal_witness :
  parse_price "Weight: 49.9 kg" = Some (inject_Z 49).
Proof.
  apply (parse_price_drops_single_decimal ("Weight: " : str) ("49" : str) (" kg" : str) "9").
  - intros c Hc. vm_compute in Hc.
    repeat (destruct Hc as [<-|Hc]; [reflexivity|]). contradiction.
  - intros c Hc. vm_compute in Hc.
    repeat (destruct Hc as [<-|Hc]; [reflexivity|]). contradiction.
  - discriminate.
  - reflexivity.
  - reflexivity.
  - intros c t E. injection E as <- _. reflexivity.
  - vm_compute. discriminate.
Defined.

(** ** The texts the patterns match *)

Lemma lang_seq_inv (r1 r2 : regex) (s : str) :
  lang (Seq r1 r2) s -> exists a b, s = a ++ b /\ lang r1 a /\ lang r2 b.
Proof. intro H. inversion H; subst. eauto. Qed.

Lemma lang_chr_inv (p : ascii -> bool) (s : str) :
  lang (Chr p) s -> exists c, s = [c] /\ p c = true.
Proof. intro H. inversion H; subst. eauto. Qed.

Lemma lang_opt_inv (r : regex) (s : str) : lang (Opt r) s -> lang r s \/ s = [].
Proof.
  unfold Opt. intro H. inversion H; subst; [now left|].
  match goal with E : lang Eps _ |- _ => inversion E end. now right.
Qed.

Lemma lang_star_all (P : ascii -> Prop) (r : regex) (s : str) :
  (forall x, lang r x -> forall c, In c x -> P c) ->
  lang (Star r) s -> forall c, In c s -> P c.
Proof.
  intros Hr H. remember (Star r) as r' eqn:E.
  induction H; try discriminate E.
  - intros c [].
  - injection E as ->. intros c Hc. apply in_app_or in Hc. destruct Hc as [Hc|Hc].
    + eapply Hr; eauto.
    + now apply IHlang2.
Qed.

Lemma separator_not_point c : is_separator c = true -> is_char "." c = false.
Proof.
  intro H. unfold is_char. destruct (Ascii.eqb_spec "." c) as [<-|]; [discriminate H|reflexivity].
Qed.

Lemma lang_fraction (s : str) :
  lang (Opt (Seq (Chr (is_char ".")) (Rep2 digit))) s ->
  s = [] \/ exists a b, s = ["."%char; a; b] /\ is_digit a = true /\ is_digit b = true.
Proof.
  intro H. apply lang_opt_inv in H. destruct H as [H|H]; [right|now left].
  apply lang_seq_inv in H. destruct H as (x & y & -> & Hx & Hy).
  apply lang_chr_inv in Hx. destruct Hx as (c & -> & Hc).
  unfold Rep2, digit in Hy. apply lang_seq_inv in Hy. destruct Hy as (u & v & -> & Hu & Hv).
  apply lang_chr_inv in Hu, Hv. destruct Hu as (a & -> & Ha), Hv as (b & -> & Hb).
  unfold is_char in Hc. apply Ascii.eqb_eq in Hc. subst c.
  exists a, b. auto.
Qed.

(** What [number_re] matches has the form [float] reads. *)
Lemma lang_number_shape (g : str) : lang number_re g -> decimal_shape g.
Proof.
  unfold number_re, Plus. intro H.
  apply lang_seq_inv in H. destruct H as (ds & tl & -> & Hds & Htl).
  apply lang_seq_inv in Hds. destruct Hds as (d1 & ds' & -> & Hd1 & Hds').
  apply lang_chr_inv in Hd1. destruct Hd1 as (d & -> & Hd).
  apply lang_seq_inv in Htl. destruct Htl as (seps & frac & -> & Hseps & Hfrac).
  exists d, (ds' ++ seps), frac. repeat split.
  - cbn [app]. now rewrite <- app_assoc.
  - exact Hd.
  - intros c Hc. apply in_app_or in Hc. destruct Hc as [Hc|Hc].
    + revert c Hc. apply (lang_star_all (fun c => is_char "." c = false) digit); [|exact Hds'].
      intros x Hx c Hc. apply lang_chr_inv in Hx. destruct Hx as (c' & -> & Hc').
      destruct Hc as [<-|[]]. now apply digit_not_point.
    + revert c Hc.
      apply (lang_star_all (fun c => is_char "." c = false)
               (Seq (Chr is_separator) (Rep3 digit))); [|exact Hseps].
      intros x Hx c Hc. unfold Rep3, digit in Hx.
      apply lang_seq_inv in Hx. destruct Hx as (x1 & x2 & -> & H1 & H2).
      apply lang_chr_inv in H1. destruct H1 as (c1 & -> & Hc1).
      apply lang_seq_inv in H2. destruct H2 as (x3 & x4 & -> & H3 & H4).
      apply lang_chr_inv in H3. destruct H3 as (c3 & -> & Hc3).
      apply lang_seq_inv in H4. destruct H4 as (x5 & x6 & -> & H5 & H6).
      apply lang_chr_inv in H5, H6. destruct H5 as (c5 & -> & Hc5), H6 as (c6 & -> & Hc6).
      cbn [app] in Hc.
      destruct Hc as [<-|[<-|[<-|[<-|[]]]]];
        auto using separator_not_point, digit_not_point.
  - now apply lang_fraction.
Qed.

Lemma lang_fallback_number (g : str) : lang fallback_re g -> lang number_re g.
Proof.
  unfold fallback_re, number_re. intro H.
  apply lang_seq_inv in H. destruct H as (a & b & -> & Ha & Hb).
  apply L_Seq; [exact Ha|].
  change b with ([] ++ b). apply L_Seq; [apply L_StarNil|exact Hb].
Qed.

(** Removing a character that is neither a digit nor the period keeps the
    form. *)
Lemma decimal_shape_remove (x : ascii) (s : str) :
  is_digit x = false -> is_char "." x = false ->
  decimal_shape s -> decimal_shape (remove_char x s).
Proof.
  intros Hx Hp (d & body & frac & -> & Hd & Hbody & Hfrac).
  assert (Keep : forall c, is_digit c = true -> negb (is_char x c) = true).
  { intros c Hc. unfold is_char. destruct (Ascii.eqb_spec x c) as [->|]; [congruence|reflexivity]. }
  assert (KeepP : negb (is_char x ".") = true).
  { unfold is_char in *. rewrite Ascii.eqb_sym. now rewrite Hp. }
  exists d, (remove_char x body), frac. repeat split; auto.
  - unfold remove_char. cbn [filter]. rewrite (Keep d Hd), filter_app. f_equal. f_equal.
    destruct Hfrac as [->|(a & b & -> & Ha & Hb)]; [reflexivity|].
    cbn [filter]. now rewrite KeepP, (Keep a Ha), (Keep b Hb).
  - intros c Hc. apply Hbody. unfold remove_char in Hc. apply filter_In in Hc. tauto.
Qed.

Lemma Some_inj (A : Type) (a b : A) : Some a = Some b -> a = b.
Proof. intro H. now injection H. Qed.

(** [float] of a text of that form is a non-negative number of cents. *)
Lemma python_float_shape (s : str) (p : Q) :
  decimal_shape s -> python_float s = Some p ->
  exists c, (0 <= c)%Z /\ p = Qred (c # 100).
Proof.
  intros (d & body & frac & -> & Hd & Hbody & Hfrac). unfold python_float.
  destruct Hfrac as [->|(a & b & -> & Ha & Hb)].
  - rewrite app_nil_r. rewrite split_point_none.
    2:{ intros c Hc. apply strip_incl in Hc. destruct Hc as [<-|Hc]; auto using digit_not_point. }
    rewrite app_nil_r. destruct (_ && _); [|discriminate].
    intro H. apply Some_inj in H. subst p.
    exists (100 * digits_value (strip (d :: body)))%Z. split.
    + pose proof (digits_value_nonneg (strip (d :: body))). lia.
    + apply Qred_complete. unfold Qeq. cbn [Qnum Qden].
      change (Z.pos (Z.to_pos (10 ^ Z.of_nat (length (@nil ascii))))) with 1%Z. lia.
  - replace (d :: body ++ ["."%char; a; b]) with (d :: (body ++ ["."%char; a]) ++ [b])
      by (now rewrite <- app_assoc).
    rewrite strip_id by auto using digit_not_space.
    replace (d :: (body ++ ["."%char; a]) ++ [b]) with ((d :: body) ++ "."%char :: [a; b])
      by (cbn [app]; now rewrite <- app_assoc).
    rewrite split_point_some.
    2:{ intros c [<-|Hc]; auto using digit_not_point. }
    destruct (_ && _); [|discriminate].
    intro H. apply Some_inj in H. subst p.
    exists (digits_value ((d :: body) ++ [a; b])). split.
    + apply digits_value_nonneg.
    + reflexivity.
Qed.

Lemma m_group (A : Type) (r : regex) st (k : mstate -> option A) :
  m (Group r) st k =
  m r st (fun st' => k (MState (rest st')
                  (Some (firstn (length (rest st) - length (rest st')) (rest st))))).
Proof. reflexivity. Qed.

Lemma currency_group_lang (r : regex) (s : str) (x : rmatch) :
  In r currency_patterns -> search r s = Some x -> lang number_re (group x).
Proof.
  intros Hr E. apply search_sound in E. destruct E as (pre & s' & -> & E).
  unfold match_here in E. destruct Hr as [<-|[<-|[]]].
  - unfold currency_before in E. rewrite m_seq in E.
    apply m_sound in E. destruct E as (p1 & st1 & _ & _ & K1 & _).
    rewrite m_seq in K1.
    apply m_sound in K1. destruct K1 as (p2 & st2 & _ & _ & K2 & _).
    rewrite m_group in K2. apply m_sound in K2.
    destruct K2 as (p3 & st3 & E3 & L3 & K3 & _).
    apply Some_inj in K3. subst x. unfold group. cbn [group_1 group1].
    rewrite E3, firstn_app_minus. exact L3.
  - unfold currency_after in E. rewrite m_seq, m_group in E.
    apply m_sound in E.
    destruct E as (p1 & st1 & E1 & L1 & K1 & _).
    cbv beta in K1. rewrite m_seq in K1.
    apply m_sound in K1. destruct K1 as (p2 & st2 & _ & _ & K2 & G2).
    apply m_sound in K2. destruct K2 as (p3 & st3 & _ & _ & K3 & G3).
    apply Some_inj in K3. subst x. unfold group. cbn [group_1].
    rewrite (G3 eq_refl), (G2 eq_refl). cbn [group1 rest].
    cbn [rest] in E1. rewrite E1, firstn_app_minus. exact L1.
Qed.

(** Every price [parse_price] accepts is a whole number of cents. *)
Lemma parse_price_cents (x : str) (p : Q) :
  parse_price x = Some p -> exists c, (0 <= c)%Z /\ p = Qred (c # 100).
Proof.
  unfold parse_price. destruct (parse_currency _ _) as [q|] eqn:E.
  - intro H. injection H as ->. apply parse_currency_inv in E.
    destruct E as (r & m0 & Hr & Hs & Hf & _).
    apply (python_float_shape _ _) in Hf; [exact Hf|].
    apply decimal_shape_remove; [reflexivity|reflexivity|].
    apply decimal_shape_remove; [reflexivity|reflexivity|].
    apply lang_number_shape. eapply currency_group_lang; eauto.
  - intro H. unfold parse_fallback in H. apply parse_numbers_inv in H.
    destruct H as (y & Hy & Hf & _).
    apply (python_float_shape _ _) in Hf; [exact Hf|].
    apply findall_sound in Hy. destruct Hy as (pre & s' & m0 & _ & Hm & <-).
    apply match_here_sound in Hm. destruct Hm as [_ L].
    now apply lang_number_shape, lang_fallback_number.
Qed.

(** ** Parsing the printed form of a price again *)

Lemma cents_Qred (c : Z) : cents (Qred (c # 100)) = c.
Proof.
  unfold cents.
  assert (E : Qred (c # 100) * 100 == inject_Z c).
  { rewrite Qred_correct. unfold Qeq, Qmult, inject_Z. cbn [Qnum Qden]. lia. }
  rewrite (Qfloor_comp _ _ E). apply Qfloor_Z.
Qed.

Lemma digits_not_currency (s : str) :
  forallb is_digit s = true -> forall c, In c s -> is_currency c = false.
Proof.
  intros H c Hc. rewrite forallb_forall in H. specialize (H c Hc).
  unfold is_currency, is_char.
  destruct (Ascii.eqb_spec "$" c) as [<-|]; [discriminate H|].
  destruct (Ascii.eqb_spec "R" c) as [<-|]; [discriminate H|]. reflexivity.
Qed.

(** A whole amount printed as [n.0] reads back as [n]. *)
Lemma reparse_whole (ds : str) :
  ds <> [] -> forallb is_digit ds = true -> (10 <= digits_value ds)%Z ->
  parse_price (ds ++ ["."%char; "0"%char]) = Some (Qred (digits_value ds # 1)).
Proof.
  intros Hne Hds Hten. unfold parse_price.
  destruct ds as [|d0 ds']; [contradiction|].
  assert (Hd0 : is_digit d0 = true)
    by (cbn [forallb] in Hds; apply andb_true_iff in Hds; tauto).
  replace ((d0 :: ds') ++ ["."%char; "0"%char])
    with (d0 :: (ds' ++ ["."%char]) ++ ["0"%char])
    by (cbn [app]; now rewrite <- app_assoc).
  rewrite strip_id by (auto using digit_not_space).
  replace (d0 :: (ds' ++ ["."%char]) ++ ["0"%char])
    with ((d0 :: ds') ++ "."%char :: "0"%char :: [])
    by (cbn [app]; now rewrite <- app_assoc).
  rewrite parse_currency_no_symbol.
  2:{ intros c Hc. apply in_app_or in Hc. destruct Hc as [Hc|Hc].
      - exact (digits_not_currency (d0 :: ds') Hds c Hc).
      - destruct Hc as [<-|[<-|[]]]; reflexivity. }
  unfold parse_fallback.
  assert (Hm : match_here fallback_re ((d0 :: ds') ++ "."%char :: "0"%char :: [])
               = Some (RMatch (d0 :: ds') None ("."%char :: "0"%char :: [])))
    by (apply match_here_fallback_int; auto; discriminate).
  rewrite (findall_match _ _ _ Hm)
    by (cbn [after]; rewrite length_app; cbn [length]; lia).
  cbn [group0 parse_numbers].
  rewrite (python_float_int (d0 :: ds') Hne Hds).
  replace (Qle_bool 10 (Qred (digits_value (d0 :: ds') # 1))) with true; [reflexivity|].
  symmetry. apply Qle_bool_iff. rewrite Qred_correct.
  unfold Qle. cbn [Qnum Qden]. lia.
Qed.

(** An amount printed with two digits after the period reads back as it
    is. *)
Lemma reparse_cents (ds : str) (a b : ascii) :
  ds <> [] -> forallb is_digit ds = true -> is_digit a = true -> is_digit b = true ->
  10 <= Qred (digits_value (ds ++ [a; b]) # 100) ->
  parse_price (ds ++ ["."%char; a; b]) = Some (Qred (digits_value (ds ++ [a; b]) # 100)).
Proof.
  intros Hne Hds Ha Hb Hten. unfold parse_price.
  destruct ds as [|d0 ds']; [contradiction|].
  assert (Hd0 : is_digit d0 = true)
    by (cbn [forallb] in Hds; apply andb_true_iff in Hds; tauto).
  replace ((d0 :: ds') ++ ["."%char; a; b])
    with (d0 :: (ds' ++ ["."%char; a]) ++ [b])
    by (cbn [app]; now rewrite <- app_assoc).
  rewrite strip_id by (auto using digit_not_space).
  replace (d0 :: (ds' ++ ["."%char; a]) ++ [b])
    with ((d0 :: ds') ++ "."%char :: a :: b :: [])
    by (cbn [app]; now rewrite <- app_assoc).
  rewrite parse_currency_no_symbol.
  2:{ intros c Hc. apply in_app_or in Hc. destruct Hc as [Hc|Hc].
      - exact (digits_not_currency (d0 :: ds') Hds c Hc).
      - destruct Hc as [<-|Hc]; [reflexivity|].
        apply (digits_not_currency [a; b]); [|exact Hc].
        cbn [forallb]. now rewrite Ha, Hb. }
  unfold parse_fallback.
  assert (Hm : match_here fallback_re ((d0 :: ds') ++ "."%char :: a :: b :: [])
               = Some (RMatch ((d0 :: ds') ++ ["."%char; a; b]) None []))
    by (apply match_here_fallback_frac; auto).
  rewrite (findall_match _ _ _ Hm)
    by (cbn [after]; rewrite length_app; cbn [length]; lia).
  cbn [group0 parse_numbers].
  rewrite (python_float_frac (d0 :: ds') a b Hne Hds Ha Hb).
  apply Qle_bool_iff in Hten. now rewrite Hten.
Qed.

(** C3, as the code has it: a price [parse_price] accepted that is at
    least 10 and below 10^13, and whose printed form ends in [.0] or in two
    digits after the period (its cents are zero, or not a multiple of ten),
    is read back from its printed form as the same price. *)
Theorem parse_price_reparse :
  forall (x : str) (p : Q),
    parse_price x = Some p ->
    10 <= p -> p < 10000000000000 ->
    ((cents p mod 100 = 0)%Z \/ (cents p mod 10 <> 0)%Z) ->
    parse_price (float_str p) = Some p.
Proof.
  intros x p Hx Hten _ Hform.
  destruct (parse_price_cents x p Hx) as (c & Hc & ->).
  rewrite cents_Qred in Hform. unfold float_str. rewrite cents_Qred.
  assert (Hc1000 : (1000 <= c)%Z).
  { rewrite Qred_correct in Hten. unfold Qle in Hten. cbn [Qnum Qden] in Hten. lia. }
  pose proof (Z.div_mod c 100 ltac:(lia)) as Hdm.
  pose proof (Z.mod_pos_bound c 100 ltac:(lia)) as Hk.
  assert (Hn : (10 <= c / 100)%Z) by (apply Z.div_le_lower_bound; lia).
  destruct (decimal_spec (c / 100)%Z ltac:(lia)) as (Dd & Dv & Dne).
  assert (Hmm : ((c mod 100) mod 10 = c mod 10)%Z).
  { change 100%Z with (10 * 10)%Z. rewrite Z.rem_mul_r by lia.
    rewrite Z.mul_comm, Z.mod_add by lia. apply Z.mod_mod. lia. }
  destruct ((c mod 100) mod 10 =? 0)%Z eqn:E.
  - apply Z.eqb_eq in E. rewrite Hmm in E.
    assert (K : (c mod 100 = 0)%Z) by (destruct Hform; [assumption|contradiction]).
    rewrite K. change (digit_char (0 / 10)) with "0"%char.
    change (decimal (c / 100) ++ "."%char :: ["0"%char])
      with (decimal (c / 100) ++ ["."%char; "0"%char]).
    rewrite reparse_whole; auto; [|lia].
    f_equal. apply Qred_complete. unfold Qeq. cbn [Qnum Qden]. lia.
  - apply Z.eqb_neq in E.
    pose proof (Z.div_mod (c mod 100) 10 ltac:(lia)) as Hdm2.
    pose proof (Z.mod_pos_bound (c mod 100) 10 ltac:(lia)) as Hk2.
    assert (Hq : (0 <= c mod 100 / 10 <= 9)%Z).
    { split; [apply Z.div_pos; lia|]. apply Z.lt_succ_r. apply Z.div_lt_upper_bound; lia. }
    destruct (digit_char_spec (c mod 100 / 10)%Z Hq) as [A1 A2].
    destruct (digit_char_spec ((c mod 100) mod 10)%Z ltac:(lia)) as [B1 B2].
    change (decimal (c / 100) ++ "."%char :: [digit_char (c mod 100 / 10);
                                               digit_char ((c mod 100) mod 10)])
      with (decimal (c / 100) ++ ["."%char; digit_char (c mod 100 / 10);
                                  digit_char ((c mod 100) mod 10)]).
    assert (V : digits_value (decimal (c / 100) ++ [digit_char (c mod 100 / 10);
                                                   digit_char ((c mod 100) mod 10)]) = c).
    { rewrite digits_value_app, Dv. unfold digits_value at 1. cbn [fold_left length].
      rewrite A2, B2. change (10 ^ Z.of_nat 2)%Z with 100%Z. lia. }
    rewrite reparse_cents; auto.
    + now rewrite V.
    + now rewrite V.
Qed.

Lemma parse_price_reparse_witness :
  parse_price (float_str 49.99) = Some 49.99.
Proof.
  apply (parse_price_reparse "Now only $49.99!" 49.99).
  - vm_compute. reflexivity.
  - vm_compute. discriminate.
  - vm_compute. reflexivity.
  - right. vm_compute. discriminate.
Defined.

(** C3 as stated fails: "$0.50" is accepted as 0.5, whose printed form
    "0.5" is refused; "R12.50" is accepted as 12.5, whose printed form
    "12.5" reads back as 12. *)
Lemma parse_price_reparse_counterexample :
  parse_price "$0.50" = Some (1 # 2)
  /\ float_str (1 # 2) = ("0.5" : str)
  /\ parse_price (float_str (1 # 2)) = None
  /\ parse_price "R12.50" = Some (25 # 2)
  /\ float_str (25 # 2) = ("12.5" : str)
  /\ parse_price (float_str (25 # 2)) = Some 12
  /\ ~ (forall (x : str) (p : Q),
         parse_price x = Some p -> parse_price (float_str p) = Some p).
Proof.
  split; [vm_compute; reflexivity|]. split; [vm_compute; reflexivity|].
  split; [vm_compute; reflexivity|]. split; [vm_compute; reflexivity|].
  split; [vm_compute; reflexivity|]. split; [vm_compute; reflexivity|].
  intro H. specialize (H ("$0.50" : str) (1 # 2)).
  assert (E : parse_price (float_str (1 # 2)) = None) by (vm_compute; reflexivity).
  rewrite E in H. discriminate H. vm_compute. reflexivity.
Qed.

(** ** The number pattern at digits with two decimals *)

Lemma star_stop_at (A : Type) (r : regex) c (s : str) g (k : mstate -> option A) :
  (forall k' : mstate -> option A, m r (MState (c :: s) g) k' = None) ->
  m (Star r) (MState (c :: s) g) k = k (MState (c :: s) g).
Proof. apply m_star_stop. Qed.

Lemma m_chr_cons (A : Type) (p : ascii -> bool) c (s : str) g (k : mstate -> option A) :
  m (Chr p) (MState (c :: s) g) k = if p c then k (MState s g) else None.
Proof. reflexivity. Qed.

(** Digits, a period and two digits: [number_re] takes all of them,
    whatever follows. *)
Lemma number_with_cents (A : Type) (ds : str) (a b : ascii) (post : str) g
      (k : mstate -> option A) (x : A) :
  ds <> [] -> forallb is_digit ds = true -> is_digit a = true -> is_digit b = true ->
  k (MState post g) = Some x ->
  m number_re (MState (ds ++ "."%char :: a :: b :: post) g) k = Some x.
Proof.
  intros Hne Hd Ha Hb Hk. destruct ds as [|d0 ds]; [contradiction|].
  cbn [forallb] in Hd. apply andb_true_iff in Hd. destruct Hd as [Hd0 Hd].
  unfold number_re, Plus. rewrite !m_seq.
  unfold digit at 1. change ((d0 :: ds) ++ "."%char :: a :: b :: post)
    with (d0 :: ds ++ "."%char :: a :: b :: post).
  rewrite m_chr_cons, Hd0. cbv beta.
  apply star_digits; [exact Hd| |].
  - intros c t E. injection E as <- _. reflexivity.
  - cbv beta. rewrite m_seq. rewrite m_star_stop.
    2:{ intro k'. rewrite m_seq, m_chr_cons. reflexivity. }
    cbv beta. unfold Opt, Rep2, digit. cbn [m rest group1].
    change (is_char "." ".") with true. cbv iota. now rewrite Ha, Hb, Hk.
Qed.

Lemma lang_only_chars (P : ascii -> Prop) (r : regex) (s : str) :
  only_chars P r -> lang r s -> forall c, In c s -> P c.
Proof.
  intros Hr H. induction H; cbn [only_chars] in Hr.
  - intros c [].
  - intros c' [<-|[]]. now apply Hr.
  - intros c Hc. apply in_app_or in Hc. destruct Hr. destruct Hc; auto.
  - destruct Hr. auto.
  - destruct Hr. auto.
  - intros c [].
  - intros c Hc. apply in_app_or in Hc. destruct Hc; auto.
  - auto.
Qed.

Lemma not_currency_after_symbol :
  only_chars (fun c => is_currency c = false) (Seq (Star (Chr is_space)) number_re).
Proof.
  assert (D : forall c, is_digit c = true -> is_currency c = false).
  { intros c H. apply (digits_not_currency [c]); [|now left].
    cbn [forallb]. now rewrite H. }
  assert (S : forall c, is_space c = true -> is_currency c = false).
  { intros c H. unfold is_currency, is_char.
    destruct (Ascii.eqb_spec "$" c) as [<-|]; [discriminate H|].
    destruct (Ascii.eqb_spec "R" c) as [<-|]; [discriminate H|]. reflexivity. }
  assert (C : forall c, is_separator c = true -> is_currency c = false).
  { intros c H. unfold is_separator in H. apply orb_true_iff in H. destruct H as [H|H].
    - apply Ascii.eqb_eq in H. now subst c.
    - now apply S. }
  assert (Pt : forall c, is_char "." c = true -> is_currency c = false).
  { intros c H. apply Ascii.eqb_eq in H. now subst c. }
  unfold number_re, Plus, Opt, Rep2, Rep3, digit. cbn [only_chars]. tauto.
Qed.

(** A fragment the page-wide pattern matches begins with a currency symbol
    and holds no other. *)
Lemma price_regex_fragment (s : str) (x : rmatch) :
  match_here price_regex s = Some x ->
  exists c body, group0 x = c :: body /\ s = c :: body ++ after x
                 /\ forall y, In y body -> is_currency y = false.
Proof.
  intro H. apply match_here_sound in H. destruct H as [E L].
  unfold price_regex in L. apply lang_seq_inv in L.
  destruct L as (a & body & Eg & La & Lb).
  apply lang_chr_inv in La. destruct La as (c & -> & _).
  exists c, body. split; [exact Eg|]. split.
  - rewrite E, Eg. reflexivity.
  - exact (lang_only_chars _ _ body not_currency_after_symbol Lb).
Qed.

(** A text without the symbol, put before a text that begins with it, ends
    before the symbol. *)
Lemma prefix_before_symbol (P : ascii -> bool) (body : str) :
  (forall y, In y body -> P y = false) ->
  forall (b : str) c (tail r : str),
    P c = true -> b ++ c :: tail = body ++ r ->
    exists b', b = body ++ b' /\ r = b' ++ c :: tail.
Proof.
  induction body as [|y body IH]; intros Hb b c tail r Hc E.
  - exists b. auto.
  - destruct b as [|z b]; cbn [app] in E.
    + injection E as -> _. rewrite (Hb y) in Hc by now left. discriminate Hc.
    + injection E as -> E.
      destruct (IH (fun y' Hy' => Hb y' (or_intror Hy')) b c tail r Hc E) as (b' & -> & ->).
      exists b'. auto.
Qed.

Lemma match_here_price_4999 (post : str) :
  match_here price_regex (("$49.99" : str) ++ post)
  = Some (RMatch ("$49.99" : str) None post).
Proof.
  unfold match_here, price_regex. rewrite m_seq.
  change (("$49.99" : str) ++ post)
    with ("$"%char :: ("49" : str) ++ "."%char :: "9"%char :: "9"%char :: post).
  rewrite m_chr_cons. change (is_currency "$") with true. cbv iota beta.
  rewrite m_seq.
  change (("49" : str) ++ "."%char :: "9"%char :: "9"%char :: post)
    with ("4"%char :: "9"%char :: "."%char :: "9"%char :: "9"%char :: post).
  rewrite m_star_chr. change (is_space "4") with false. cbv iota beta.
  change ("4"%char :: "9"%char :: "."%char :: "9"%char :: "9"%char :: post)
    with (("49" : str) ++ "."%char :: "9"%char :: "9"%char :: post).
  apply number_with_cents; try reflexivity; try discriminate.
  cbn [rest group1]. f_equal. f_equal.
  exact (firstn_app_minus ("$49.99" : str) post).
Qed.

(** The scan of the raw page reaches "$49.99" when the fragments it matches
    before hold no other price. *)
Lemma regex_stage_reaches (pre post : str) :
  (forall (a b : str) (x : rmatch) (p : Q),
     pre = a ++ b -> b <> [] ->
     match_here price_regex (b ++ ("$49.99" : str) ++ post) = Some x ->
     parse_price (group0 x) = Some p -> p = 49.99) ->
  regex_stage (pre ++ ("$49.99" : str) ++ post) = Some 49.99.
Proof.
  intro Hpre. unfold regex_stage.
  assert (G : forall n (a b : str), pre = a ++ b -> (length b <= n)%nat ->
              first_price (findall price_regex (b ++ ("$49.99" : str) ++ post))
              = Some 49.99).
  { induction n as [|n IH]; intros a b E Hn.
    - destruct b; [|cbn [length] in Hn; lia]. cbn [app].
      rewrite (findall_match _ _ _ (match_here_price_4999 post)).
      + cbn [group0]. apply first_price_hit. vm_compute. reflexivity.
      + cbn [after]. rewrite length_app. cbn. lia.
    - destruct b as [|c b]; [apply (IH a []); [exact E|cbn; lia]|].
      assert (Enext : pre = (a ++ [c]) ++ b) by (rewrite <- app_assoc; exact E).
      destruct (match_here price_regex ((c :: b) ++ ("$49.99" : str) ++ post))
        as [x|] eqn:Hm.
      + destruct (price_regex_fragment _ _ Hm) as (c0 & body & Eg & Es & Hbody).
        cbn [app] in Es. injection Es as <- Es.
        change (("$49.99" : str) ++ post) with ("$"%char :: (("49.99" : str) ++ post)) in Es.
        destruct (prefix_before_symbol is_currency body Hbody b "$"%char
                    (("49.99" : str) ++ post) (after x) eq_refl Es) as (b' & Eb & Ea).
        rewrite (findall_match _ _ _ Hm).
        2:{ rewrite Ea, Eb.
            change (("$49.99" : str) ++ post) with ("$"%char :: (("49.99" : str) ++ post)).
            cbn [app length]. rewrite !length_app. cbn [length]. lia. }
        cbn [first_price].
        destruct (parse_price (group0 x)) as [p|] eqn:Hp.
        * rewrite (parse_price_truthy _ _ Hp). f_equal.
          exact (Hpre a (c :: b) x p E ltac:(discriminate) Hm Hp).
        * cbn [truthy]. rewrite Ea.
          apply (IH ((a ++ [c]) ++ body) b').
          -- rewrite <- app_assoc, <- Eb. exact Enext.
          -- cbn [length] in Hn. rewrite Eb, length_app in Hn. lia.
      + cbn [app]. cbn [app] in Hm. rewrite (findall_nomatch _ _ _ Hm).
        apply (IH (a ++ [c]) b); [exact Enext|cbn [length] in Hn; lia]. }
  exact (G (length pre) [] pre eq_refl (le_n _)).
Qed.

(** ** The browser as second strategy *)

(** C7: when the static fetch comes back without an error and the
    extractor finds no price in it, the browser is started; when the
    browser works and the rendered page contains "$49.99", the result is
    49.99, provided nothing that is tried before that fragment holds another
    price: not the elements the selector gives, not the elements the
    attribute probes find, and not a fragment of the page that the
    page-wide pattern matches and that begins before "$49.99". *)
Theorem fetch_price_falls_back_to_browser :
  forall BeautifulSoup select (w : world) url css status html1 (pre post : str) t,
    requests_get w url = Ok (Response status html1) ->
    raise_for_status (Response status html1) = Ok tt ->
    extract_price BeautifulSoup select html1 css = Ok None ->
    import_selenium w = Ok tt -> webdriver_Chrome w = Ok tt ->
    driver_get w url = Ok tt -> wait_until_body w = Ok tt ->
    page_source w = Ok (pre ++ ("$49.99" : str) ++ post) ->
    driver_quit w = Ok tt ->
    (exists found,
        selector_stage select (BeautifulSoup (pre ++ ("$49.99" : str) ++ post)) css
        = Ok found
        /\ forall p, found = Some p -> p = 49.99) ->
    (forall p, heuristic_stage (BeautifulSoup (pre ++ ("$49.99" : str) ++ post))
                 price_patterns = Some p -> p = 49.99) ->
    (forall (a b : str) (x : rmatch) (p : Q),
        pre = a ++ b -> b <> [] ->
        match_here price_regex (b ++ ("$49.99" : str) ++ post) = Some x ->
        parse_price (group0 x) = Some p -> p = 49.99) ->
    fetch_price BeautifulSoup select w url css false t
    = (Ok (Some 49.99),
       t ++ [HttpGet url; ChromeStarted; Navigate url; WaitBody; Sleep 3;
             PageSource; QuitCalled]).
Proof.
  intros BS select w url css status html1 pre post t
         Hget Hst Hex1 Himp Hchr Hnav Hwait Hsrc Hquit Hsel Hheu Hpre.
  assert (Hex2 : extract_price BS select (pre ++ ("$49.99" : str) ++ post) css
                 = Ok (Some 49.99)).
  { unfold extract_price. destruct Hsel as (found & -> & Hfound).
    destruct found as [p|]; [now rewrite (Hfound p eq_refl)|].
    destruct (heuristic_stage _ _) as [p|]; [now rewrite (Hheu p eq_refl)|].
    now rewrite (regex_stage_reaches pre post Hpre). }
  unfold fetch_price, fetch_price_simple, fetch_price_selenium.
  unfold try_except, bind, outcome, emit, ret.
  rewrite Hget, Hst. cbn [text]. rewrite Hex1. cbn [truthy].
  rewrite Himp, Hchr, Hnav, Hwait, Hsrc, Hquit, Hex2.
  replace (truthy (Some 49.99)) with true by reflexivity.
  rewrite <- !app_assoc. reflexivity.
Qed.

Lemma fetch_price_falls_back_to_browser_witness :
  fetch_price soup_of select_nothing world_root "http://shop.example/item"
    None false []
  = (Ok (Some 49.99),
     [HttpGet ("http://shop.example/item" : str); ChromeStarted;
      Navigate ("http://shop.example/item" : str); WaitBody; Sleep 3;
      PageSource; QuitCalled]).
Proof.
  apply (fetch_price_falls_back_to_browser soup_of select_nothing world_root
           "http://shop.example/item" None 200 html_static
           ("<div id='Root'><span>" : str) ("</span></div>" : str) []).
  - reflexivity.
  - reflexivity.
  - vm_compute. reflexivity.
  - reflexivity.
  - reflexivity.
  - reflexivity.
  - reflexivity.
  - reflexivity.
  - reflexivity.
  - exists None. split; [reflexivity|discriminate].
  - intros p H. vm_compute in H. discriminate H.
  - intros a b x p E Hb Hm _. exfalso. vm_compute in E.
    repeat (destruct a as [|? a];
            [ cbn [app] in E; subst b; vm_compute in Hm; discriminate Hm
            | cbn [app] in E; injection E as <- E ]).
    destruct a; [|discriminate E]. cbn [app] in E. subst b. now apply Hb.
Defined.

(** ** The attribute probes *)

(** The candidates of the attribute stage: probe by probe, and in document
    order within a probe; the first of them that holds a price decides. *)
Lemma heuristic_stage_flat (soup : document) (patterns : list attr_pattern) :
  heuristic_stage soup patterns
  = first_price (map get_text (flat_map (find_all soup) patterns)).
Proof.
  induction patterns as [|pat l IH]; [reflexivity|].
  cbn [heuristic_stage flat_map]. rewrite map_app, first_price_app, IH. reflexivity.
Qed.

(** A word compiled with [re.I] matches any spelling of itself. *)
Lemma compile_I_matches (A : Type) (word : str) :
  forall (x b : str) g (k : mstate -> option A),
    map lower x = map lower word ->
    m (compile_I word) (MState (x ++ b) g) k = k (MState b g).
Proof.
  induction word as [|c word IH]; intros x b g k E.
  - destruct x; [reflexivity|discriminate E].
  - destruct x as [|c' x]; [discriminate E|].
    cbn [map] in E. injection E as E1 E2.
    cbn [compile_I]. rewrite m_seq. cbn [app]. rewrite m_chr_cons.
    rewrite E1, Ascii.eqb_refl. now apply IH.
Qed.

Lemma search_compile_I (word s : str) :
  contains_I word s -> search (compile_I word) s <> None.
Proof.
  intros (a & x & b & -> & E). apply search_some.
  unfold match_here. rewrite (compile_I_matches _ word x b None _ E). discriminate.
Qed.

Lemma lang_compile_I (word x : str) :
  lang (compile_I word) x -> map lower x = map lower word.
Proof.
  revert x. induction word as [|c word IH]; intros x H; cbn [compile_I] in H.
  - inversion H. reflexivity.
  - apply lang_seq_inv in H. destruct H as (a & b & -> & Ha & Hb).
    apply lang_chr_inv in Ha. destruct Ha as (c' & -> & Hc).
    apply Ascii.eqb_eq in Hc. cbn [app map]. now rewrite Hc, (IH b Hb).
Qed.

Lemma search_compile_I_inv (word s : str) :
  search (compile_I word) s <> None -> contains_I word s.
Proof.
  destruct (search (compile_I word) s) as [x|] eqn:E; [intros _|contradiction].
  apply search_sound in E. destruct E as (pre & s' & -> & E).
  apply match_here_sound in E. destruct E as [-> L].
  exists pre, (group0 x), (after x). split; [reflexivity|now apply lang_compile_I].
Qed.

(** The probe for a word in an attribute finds the tags whose value of that
    attribute contains the word, in any case. *)
Lemma matches_str_contains (word v : str) :
  matches_str (ByRegex (compile_I word)) v = true <-> contains_I word v.
Proof.
  unfold matches_str. split.
  - intro H. apply search_compile_I_inv.
    destruct (search (compile_I word) v); [discriminate|discriminate H].
  - intro H. apply search_compile_I in H.
    destruct (search (compile_I word) v); [reflexivity|contradiction].
Qed.

Lemma matches_contains (name : string) (word : str) (e : element) :
  matches (name, ByRegex (compile_I word)) e = true <-> attr_contains name word e.
Proof.
  unfold matches, attr_contains. cbn [fst snd].
  destruct (get_attr name (attrs e)) as [v|].
  2:{ split; [discriminate|]. intros (v & E & _). discriminate E. }
  assert (V : matches_value (ByRegex (compile_I word)) v = true <-> value_contains word v).
  { destruct v as [s|tokens]; cbn [matches_value value_contains].
    - apply matches_str_contains.
    - rewrite orb_true_iff, existsb_exists, matches_str_contains.
      split; (intros [(tok & Hin & Ht)|H]; [left|now right]); exists tok;
        (split; [exact Hin|]); now apply matches_str_contains. }
  rewrite V. split.
  - intro H. now exists v.
  - intros (v' & E & H). injection E as <-. exact H.
Qed.

Lemma str_eqb_eq (a b : str) : str_eqb a b = true <-> a = b.
Proof.
  unfold str_eqb. destruct (list_eq_dec ascii_dec a b); split; auto; discriminate.
Qed.

Lemma matches_is (name : string) (s : str) (e : element) :
  matches (name, ByString s) e = true <-> attr_is name s e.
Proof.
  unfold matches, attr_is. cbn [fst snd].
  destruct (get_attr name (attrs e)) as [v|].
  2:{ split; [discriminate|]. intros (v & E & _). discriminate E. }
  assert (V : matches_value (ByString s) v = true <-> value_is s v).
  { destruct v as [x|tokens]; cbn [matches_value value_is matches_str].
    - apply str_eqb_eq.
    - rewrite orb_true_iff, existsb_exists, str_eqb_eq. split.
      + intros [(tok & Hin & Ht)|H]; [left|now right].
        apply str_eqb_eq in Ht. now subst tok.
      + intros [H|H]; [left|now right]. exists s. split; [exact H|].
        now apply str_eqb_eq. }
  rewrite V. split.
  - intro H. now exists v.
  - intros (v' & E & H). injection E as <-. exact H.
Qed.

Lemma matches_has (name : string) (e : element) :
  matches (name, ByTrue) e = true <-> has_attr name e.
Proof.
  unfold matches, has_attr. cbn [fst snd].
  destruct (get_attr name (attrs e)) as [v|].
  - destruct v; cbn [matches_value]; split; auto; discriminate.
  - split; [discriminate|]. intro H. now contradiction H.
Qed.

(** One text of the list holds the price, and the others hold none. *)
Lemma first_price_only (l : list str) (p : Q) :
  (exists t, In t l /\ parse_price t = Some p) ->
  (forall t, In t l -> parse_price t = None \/ parse_price t = Some p) ->
  first_price l = Some p.
Proof.
  induction l as [|t l IH]; intros (t0 & Hin & Hp) Hall; [contradiction|].
  cbn [first_price].
  destruct (Hall t (or_introl eq_refl)) as [E|E].
  - rewrite E. cbn [truthy]. apply IH.
    + destruct Hin as [->|Hin]; [congruence|]. now exists t0.
    + intros t' Ht'. apply Hall. now right.
  - rewrite E. now rewrite (parse_price_truthy t p E).
Qed.

(** C4, as the code has it: without a selector match the attribute probes
    are, in this order, [class] containing "price" in any case, [id]
    containing "price", [itemprop] equal to "price", [class] containing
    "cost" (the class only, not the id), [class] containing "amount", a
    [data-price] attribute, [class] containing "product-price"; the
    candidates are taken probe by probe and in document order within a
    probe, and the first whose text [parse_price] accepts is returned.  In
    particular a document whose only price-bearing element has a class
    containing "cost" yields the price of that element. *)
Theorem heuristic_probe_order :
  forall BeautifulSoup select (html : str) css,
    selector_stage select (BeautifulSoup html) css = Ok None ->
    Forall2 (fun pattern looks_for => forall e, matches pattern e = true <-> looks_for e)
      price_patterns
      [ attr_contains "class" "price";
        attr_contains "id" "price";
        attr_is "itemprop" "price";
        attr_contains "class" "cost";
        attr_contains "class" "amount";
        has_attr "data-price";
        attr_contains "class" "product-price" ]
    /\ extract_price BeautifulSoup select html css
       = Ok (match first_price (map get_text
                     (flat_map (fun pattern => filter (matches pattern) (BeautifulSoup html))
                               price_patterns)) with
             | Some p => Some p
             | None => regex_stage html
             end)
    /\ (forall (e : element) (p : Q),
          In e (BeautifulSoup html) ->
          attr_contains "class" "cost" e ->
          parse_price (get_text e) = Some p ->
          (forall e', In e' (BeautifulSoup html) ->
                      parse_price (get_text e') <> None -> e' = e) ->
          extract_price BeautifulSoup select html css = Ok (Some p)).
Proof.
  intros BS select html css Hsel.
  assert (E : extract_price BS select html css
              = Ok (match first_price (map get_text
                            (flat_map (fun pattern => filter (matches pattern) (BS html))
                                      price_patterns)) with
                    | Some p => Some p
                    | None => regex_stage html
                    end)).
  { unfold extract_price. rewrite Hsel, heuristic_stage_flat.
    unfold find_all. destruct (first_price _); reflexivity. }
  split; [|split; [exact E|]].
  - unfold price_patterns.
    repeat (apply Forall2_cons; [intro e|]); try apply Forall2_nil;
      first [apply matches_contains | apply matches_is | apply matches_has].
  - intros e p Hin Hcost Hp Honly. rewrite E.
    rewrite (first_price_only
               (map get_text (flat_map (fun pattern => filter (matches pattern) (BS html))
                                       price_patterns)) p); [reflexivity| |].
    + exists (get_text e). split; [|exact Hp].
      apply in_map. apply in_flat_map.
      exists ("class", ByRegex (compile_I ("cost" : str))). split.
      * unfold price_patterns. cbn [In]. auto.
      * apply filter_In. split; [exact Hin|]. now apply matches_contains.
    + intros t Ht. apply in_map_iff in Ht. destruct Ht as (e' & <- & He').
      apply in_flat_map in He'. destruct He' as (pat & _ & He').
      apply filter_In in He'. destruct He' as [He1 _].
      destruct (parse_price (get_text e')) as [q|] eqn:Hq; [right|now left].
      rewrite (Honly e' He1) in Hq by (rewrite Hq; discriminate).
      congruence.
Qed.

Lemma heuristic_probe_order_witness :
  extract_price soup_of select_nothing html_quote None = Ok (Some 1299).
Proof.
  refine (proj2 (proj2 (heuristic_probe_order soup_of select_nothing
                          html_quote None eq_refl))
            (Element [("class", AttrList [("total-cost" : str)])] "1299.00")
            1299 _ _ _ _).
  - vm_compute. auto.
  - exists (AttrList [("total-cost" : str)]). split; [reflexivity|].
    left. exists ("total-cost" : str). split; [now left|].
    exists ("total-" : str), ("cost" : str), []. split; reflexivity.
  - vm_compute. reflexivity.
  - intros e' He' Hp. vm_compute in He'. destruct He' as [<-|[<-|[]]]; [|reflexivity].
    exfalso. apply Hp. vm_compute. reflexivity.
Defined.

(** C4 as stated fails: the probe for "cost" looks at [class] only.  An
    element with [id="total-cost"] and the text "1299.00", which
    [parse_price] accepts, is not found, and the page yields no price. *)
Lemma extract_price_id_cost_counterexample :
  sample_soup html_cost_id = page_cost_id
  /\ parse_price "1299.00" = Some 1299
  /\ flat_map (find_all page_cost_id) price_patterns = []
  /\ extract_price sample_soup select_nothing html_cost_id None = Ok None.
Proof. vm_compute. repeat split; reflexivity. Qed.

(** ** [itemprop] before [class="amount"] *)

(** C6: with no selector match and no element whose [class] or [id]
    contains "price", a page whose first [itemprop="price"] element reads
    "R1,299.00" yields 1299.00, wherever an element with [class="amount"]
    stands: the [itemprop] probe comes before the one for "amount". *)
Theorem extract_price_itemprop_first :
  forall BeautifulSoup select (html : str) css (e : element) (more : list element),
    selector_stage select (BeautifulSoup html) css = Ok None ->
    find_all (BeautifulSoup html) ("class", ByRegex (compile_I ("price" : str))) = [] ->
    find_all (BeautifulSoup html) ("id", ByRegex (compile_I ("price" : str))) = [] ->
    find_all (BeautifulSoup html) ("itemprop", ByString ("price" : str)) = e :: more ->
    get_text e = ("R1,299.00" : str) ->
    extract_price BeautifulSoup select html css = Ok (Some (Qred 1299.00)).
Proof.
  intros BS select html css e more Hsel Hc Hi Hp Ht.
  unfold extract_price. rewrite Hsel.
  unfold price_patterns. cbn [heuristic_stage].
  rewrite Hc, Hi, Hp. cbn [map first_price]. rewrite Ht.
  replace (parse_price ("R1,299.00" : str)) with (Some (Qred 1299.00))
    by (vm_compute; reflexivity).
  reflexivity.
Qed.

Lemma extract_price_itemprop_first_witness :
  extract_price sample_soup select_nothing html_itemprop_amount None
  = Ok (Some (Qred 1299.00))
  /\ find_all page_itemprop_amount ("class", ByRegex (compile_I ("amount" : str)))
     = [Element [("class", AttrList [("amount" : str)])] "R50"].
Proof.
  split; [|vm_compute; reflexivity].
  apply (extract_price_itemprop_first sample_soup select_nothing html_itemprop_amount
           None (Element [("itemprop", AttrStr "price")] "R1,299.00") []).
  - reflexivity.
  - vm_compute. reflexivity.
  - vm_compute. reflexivity.
  - vm_compute. reflexivity.
  - reflexivity.
Defined.

(** * Further properties of the scraper *)

(** ** Texts [parse_price] refuses *)

Lemma lang_star_nonempty_digit (r : regex) (g : str) :
  lang (Seq (Plus digit) r) g -> exists c, In c g /\ is_digit c = true.
Proof.
  unfold Plus. intro H.
  apply lang_seq_inv in H. destruct H as (a & b & -> & Ha & _).
  apply lang_seq_inv in Ha. destruct Ha as (d & ds & -> & Hd & _).
  apply lang_chr_inv in Hd. destruct Hd as (c & -> & Hc).
  exists c. split; [now left|exact Hc].
Qed.

(** Each pattern of the scraper needs a digit. *)
Lemma pattern_needs_digit (r : regex) (g : str) :
  In r [currency_before; currency_after; fallback_re; price_regex] ->
  lang r g -> exists c, In c g /\ is_digit c = true.
Proof.
  intros Hr H. destruct Hr as [<-|[<-|[<-|[<-|[]]]]].
  - unfold currency_before in H.
    apply lang_seq_inv in H. destruct H as (a & b & -> & _ & H).
    apply lang_seq_inv in H. destruct H as (a' & b' & -> & _ & H).
    inversion H; subst. unfold number_re in *.
    match goal with L : lang (Seq (Plus digit) _) _ |- _ =>
      destruct (lang_star_nonempty_digit _ _ L) as (c & Hc & Hd) end.
    exists c. split; [|exact Hd]. apply in_or_app. right. apply in_or_app. now right.
  - unfold currency_after in H.
    apply lang_seq_inv in H. destruct H as (a & b & -> & H & _).
    inversion H; subst. unfold number_re in *.
    match goal with L : lang (Seq (Plus digit) _) _ |- _ =>
      destruct (lang_star_nonempty_digit _ _ L) as (c & Hc & Hd) end.
    exists c. split; [|exact Hd]. apply in_or_app. now left.
  - now apply lang_star_nonempty_digit in H.
  - unfold price_regex in H.
    apply lang_seq_inv in H. destruct H as (a & b & -> & _ & H).
    apply lang_seq_inv in H. destruct H as (a' & b' & -> & _ & H).
    unfold number_re in H.
    destruct (lang_star_nonempty_digit _ _ H) as (c & Hc & Hd).
    exists c. split; [|exact Hd]. apply in_or_app. right. apply in_or_app. now right.
Qed.

Lemma match_needs_digit (r : regex) (s : str) (x : rmatch) :
  In r [currency_before; currency_after; fallback_re; price_regex] ->
  match_here r s = Some x -> exists c, In c s /\ is_digit c = true.
Proof.
  intros Hr H. apply match_here_sound in H. destruct H as [-> L].
  destruct (pattern_needs_digit r _ Hr L) as (c & Hc & Hd).
  exists c. split; [|exact Hd]. apply in_or_app. now left.
Qed.

Lemma search_without_digit (r : regex) (s : str) :
  In r [currency_before; currency_after; fallback_re; price_regex] ->
  (forall c, In c s -> is_digit c = false) -> search r s = None.
Proof.
  intros Hr Hs. destruct (search r s) as [x|] eqn:E; [exfalso|reflexivity].
  apply search_sound in E. destruct E as (pre & s' & -> & E).
  destruct (match_needs_digit r s' x Hr E) as (c & Hc & Hd).
  rewrite Hs in Hd; [discriminate|]. apply in_or_app. now right.
Qed.

Lemma findall_without_digit (r : regex) (s : str) :
  In r [currency_before; currency_after; fallback_re; price_regex] ->
  (forall c, In c s -> is_digit c = false) -> findall r s = [].
Proof.
  intros Hr Hs. destruct (findall r s) as [|y l] eqn:E; [reflexivity|exfalso].
  assert (Hy : In y (findall r s)) by (rewrite E; now left).
  apply findall_sound in Hy. destruct Hy as (pre & s' & x & -> & Hm & _).
  destruct (match_needs_digit r s' x Hr Hm) as (c & Hc & Hd).
  rewrite Hs in Hd; [discriminate|]. apply in_or_app. now right.
Qed.

(** X1: a text without a digit, the empty text among them, has no
    price. *)
Theorem parse_price_without_digit :
  forall x : str,
    (forall c, In c x -> is_digit c = false) -> parse_price x = None.
Proof.
  intros x Hx. unfold parse_price, parse_fallback.
  assert (Hs : forall c, In c (strip x) -> is_digit c = false)
    by (intros c Hc; apply Hx; now apply strip_incl).
  unfold currency_patterns. cbn [parse_currency].
  rewrite (search_without_digit currency_before), (search_without_digit currency_after),
    (findall_without_digit fallback_re); auto; cbn; auto.
Qed.

Lemma parse_price_without_digit_witness :
  parse_price "Price on request" = None /\ parse_price "" = None.
Proof.
  split; apply parse_price_without_digit.
  - intros c Hc. vm_compute in Hc.
    repeat (destruct Hc as [<-|Hc]; [reflexivity|]). contradiction.
  - intros c [].
Defined.

(** X2: in a text without a currency symbol nothing below 10 is
    accepted. *)
Theorem parse_price_bare_number_floor :
  forall (x : str) (p : Q),
    (forall c, In c x -> is_currency c = false) ->
    parse_price x = Some p -> 10 <= p.
Proof.
  intros x p Hx. unfold parse_price.
  rewrite parse_currency_no_symbol
    by (intros c Hc; apply Hx; now apply strip_incl).
  unfold parse_fallback. intro H. apply parse_numbers_inv in H.
  destruct H as (_ & _ & _ & W). exact W.
Qed.

Lemma parse_price_bare_number_floor_witness : 10 <= 12.
Proof.
  apply (parse_price_bare_number_floor "Qty: 1 of 12" 12).
  - intros c Hc. vm_compute in Hc.
    repeat (destruct Hc as [<-|Hc]; [reflexivity|]). contradiction.
  - vm_compute. reflexivity.
Defined.

(** X3: every accepted price is a whole number of cents, two cents at
    least. *)
Theorem accepted_price_whole_cents :
  forall (x : str) (p : Q),
    parse_price x = Some p ->
    exists c : Z, (2 <= c)%Z /\ p = Qred (c # 100) /\ cents p = c.
Proof.
  intros x p H. destruct (parse_price_cents x p H) as (c & Hc & E).
  exists c. apply parse_price_window in H. subst p.
  split; [|split; [reflexivity|apply cents_Qred]].
  rewrite Qred_correct in H. unfold Qlt in H. cbn [Qnum Qden] in H. lia.
Qed.

Lemma accepted_price_whole_cents_witness :
  exists c : Z, (2 <= c)%Z /\ 1299 = Qred (c # 100) /\ cents 1299 = c.
Proof.
  apply (accepted_price_whole_cents "R1,299.00" 1299). vm_compute. reflexivity.
Defined.

(** ** White space around the text *)

Lemma lstrip_spaces (ws s : str) :
  forallb is_space ws = true -> lstrip (ws ++ s) = lstrip s.
Proof.
  induction ws as [|c ws IH]; intro H; [reflexivity|].
  cbn [forallb] in H. apply andb_true_iff in H. destruct H as [Hc Hws].
  cbn [app lstrip]. rewrite Hc. now apply IH.
Qed.

Lemma lstrip_all_spaces (ws : str) : forallb is_space ws = true -> lstrip ws = [].
Proof. intro H. rewrite <- (app_nil_r ws). now rewrite lstrip_spaces. Qed.

Lemma lstrip_app_spaces (s ws : str) :
  forallb is_space ws = true ->
  lstrip (s ++ ws) = [] /\ lstrip s = [] \/ lstrip (s ++ ws) = lstrip s ++ ws.
Proof.
  intro H. induction s as [|c s IH].
  - left. split; [now apply lstrip_all_spaces|reflexivity].
  - cbn [app lstrip]. destruct (is_space c); [exact IH|now right].
Qed.

Lemma forallb_rev (A : Type) (f : A -> bool) (l : list A) :
  forallb f (rev l) = forallb f l.
Proof.
  induction l as [|a l IH]; [reflexivity|].
  cbn [rev forallb]. rewrite forallb_app, IH. cbn [forallb].
  rewrite andb_true_r. apply andb_comm.
Qed.

Lemma strip_spaces (ws1 s ws2 : str) :
  forallb is_space ws1 = true -> forallb is_space ws2 = true ->
  strip (ws1 ++ s ++ ws2) = strip s.
Proof.
  intros H1 H2. unfold strip. rewrite (lstrip_spaces ws1 _ H1).
  destruct (lstrip_app_spaces s ws2 H2) as [[E1 E2]|E]; [now rewrite E1, E2|].
  rewrite E, rev_app_distr, lstrip_spaces; [reflexivity|].
  now rewrite forallb_rev.
Qed.

(** X4: white space before and after the text makes no difference. *)
Theorem parse_price_ignores_outer_space :
  forall ws1 x ws2 : str,
    forallb is_space ws1 = true -> forallb is_space ws2 = true ->
    parse_price (ws1 ++ x ++ ws2) = parse_price x.
Proof.
  intros ws1 x ws2 H1 H2. unfold parse_price. now rewrite strip_spaces.
Qed.

Lemma parse_price_ignores_outer_space_witness :
  parse_price ((" " : str) ++ ("R 249" : str) ++ ("  " : str)) = parse_price "R 249".
Proof. apply parse_price_ignores_outer_space; reflexivity. Defined.

(** ** A price after its currency symbol *)

Lemma remove_char_id (x : ascii) (s : str) :
  (forall c, In c s -> is_char x c = false) -> remove_char x s = s.
Proof.
  intro H. unfold remove_char. induction s as [|c s IH]; [reflexivity|].
  cbn [filter]. rewrite (H c) by now left. cbn [negb]. f_equal.
  apply IH. intros. apply H. now right.
Qed.

Lemma digit_not_char (x c : ascii) :
  is_digit x = false -> is_digit c = true -> is_char x c = false.
Proof.
  intros Hx Hc. unfold is_char. destruct (Ascii.eqb_spec x c) as [->|]; [congruence|reflexivity].
Qed.

Lemma currency_not_space c : is_currency c = true -> is_space c = false.
Proof.
  unfold is_currency, is_char. intro H. apply orb_true_iff in H.
  destruct H as [H|H]; apply Ascii.eqb_eq in H; subst c; reflexivity.
Qed.

(** The symbol-first pattern at a symbol directly followed by a number
    that [number_re] takes whole *)
Lemma currency_before_at (sym : ascii) (d0 : ascii) (num tail : str) :
  is_currency sym = true -> is_digit d0 = true ->
  (forall (k : mstate -> option rmatch) g x,
      k (MState tail g) = Some x ->
      m number_re (MState ((d0 :: num) ++ tail) g) k = Some x) ->
  match_here currency_before (sym :: (d0 :: num) ++ tail)
  = Some (RMatch (sym :: d0 :: num) (Some (d0 :: num)) tail).
Proof.
  intros Hsym Hd Hnum. unfold match_here, currency_before.
  rewrite m_seq, m_chr_cons, Hsym. cbv beta. rewrite m_seq.
  change ((d0 :: num) ++ tail) with (d0 :: num ++ tail).
  rewrite m_star_chr, (digit_not_space d0 Hd). cbv beta.
  rewrite m_group.
  change (d0 :: num ++ tail) with ((d0 :: num) ++ tail).
  apply Hnum. cbn [rest group1]. f_equal. f_equal.
  - exact (firstn_app_minus (sym :: d0 :: num) tail).
  - f_equal. exact (firstn_app_minus (d0 :: num) tail).
Qed.

Lemma search_currency_before_skip (pre s : str) :
  (forall c, In c pre -> is_currency c = false) ->
  search currency_before (pre ++ s) = search currency_before s.
Proof.
  intro Hpre. apply search_skip. intros a b -> Hb.
  destruct b as [|c b]; [contradiction|].
  apply match_here_chr_fail. apply Hpre. apply in_or_app. right. now left.
Qed.

(** X5: a symbol followed at once by digits, a period and two digits is
    read as that amount, whatever numbers stand before the symbol and
    whatever follows the two digits, when no currency symbol stands
    earlier and the amount is inside the window. *)
Theorem parse_price_symbol_first :
  forall (pre ds post : str) (sym a b : ascii),
    (forall c, In c pre -> is_currency c = false) ->
    is_currency sym = true ->
    ds <> [] -> forallb is_digit ds = true -> is_digit a = true -> is_digit b = true ->
    0.01 < Qred (digits_value (ds ++ [a; b]) # 100) ->
    Qred (digits_value (ds ++ [a; b]) # 100) < 1000000 ->
    parse_price (pre ++ sym :: ds ++ "."%char :: a :: b :: post)
    = Some (Qred (digits_value (ds ++ [a; b]) # 100)).
Proof.
  intros pre ds post sym a b Hpre Hsym Hne Hds Ha Hb Hlo Hhi.
  destruct (strip_core pre (ds ++ ["."%char; a]) post sym b
              (currency_not_space sym Hsym) (digit_not_space b Hb))
    as (x & pre' & post' & y & Epre & Epost & Es).
  assert (Et : forall p q : str,
             p ++ sym :: ds ++ "."%char :: a :: b :: q
             = p ++ sym :: (ds ++ ["."%char; a]) ++ b :: q)
    by (intros; now rewrite <- app_assoc).
  unfold parse_price. rewrite Et, Es, <- Et.
  unfold currency_patterns. cbn [parse_currency].
  rewrite search_currency_before_skip
    by (intros c Hc; apply Hpre; rewrite Epre; apply in_or_app; now right).
  destruct ds as [|d0 ds']; [contradiction|].
  assert (Hd0 : is_digit d0 = true)
    by (cbn [forallb] in Hds; apply andb_true_iff in Hds; tauto).
  replace (sym :: (d0 :: ds') ++ "."%char :: a :: b :: post')
    with (sym :: (d0 :: ds' ++ ["."%char; a; b]) ++ post')
    by (cbn [app]; now rewrite <- app_assoc).
  assert (Hnum : forall (k : mstate -> option rmatch) g x0,
             k (MState post' g) = Some x0 ->
             m number_re (MState ((d0 :: ds' ++ ["."%char; a; b]) ++ post') g) k = Some x0).
  { intros k g x0 Hk.
    replace ((d0 :: ds' ++ ["."%char; a; b]) ++ post')
      with ((d0 :: ds') ++ "."%char :: a :: b :: post')
      by (cbn [app]; now rewrite <- app_assoc).
    now apply number_with_cents. }
  rewrite (search_here _ _ _
             (currency_before_at sym d0 (ds' ++ ["."%char; a; b]) post' Hsym Hd0 Hnum)).
  unfold group. cbn [group_1].
  change (d0 :: ds' ++ ["."%char; a; b]) with ((d0 :: ds') ++ ["."%char; a; b]).
  assert (Hkeep : forall x0, is_digit x0 = false -> is_char x0 "." = false ->
             forall c, In c ((d0 :: ds') ++ ["."%char; a; b]) -> is_char x0 c = false).
  { intros x0 Hx0 Hp c Hc. apply in_app_or in Hc. destruct Hc as [Hc|[<-|Hc]].
    - apply digit_not_char; [exact Hx0|]. rewrite forallb_forall in Hds. now apply Hds.
    - exact Hp.
    - apply digit_not_char; [exact Hx0|]. destruct Hc as [<-|[<-|[]]]; assumption. }
  rewrite (remove_char_id "," _ (Hkeep ","%char eq_refl eq_refl)).
  rewrite (remove_char_id " " _ (Hkeep " "%char eq_refl eq_refl)).
  rewrite (python_float_frac (d0 :: ds') a b Hne Hds Ha Hb).
  replace (Qltb 0.01 _) with true.
  2:{ symmetry. unfold Qltb. apply negb_true_iff.
      destruct (Qle_bool _ _) eqn:E; [|reflexivity].
      apply Qle_bool_iff in E. exfalso. exact (Qlt_not_le _ _ Hlo E). }
  replace (Qltb _ 1000000) with true; [reflexivity|].
  symmetry. unfold Qltb. apply negb_true_iff.
  destruct (Qle_bool _ _) eqn:E; [|reflexivity].
  apply Qle_bool_iff in E. exfalso. exact (Qlt_not_le _ _ Hhi E).
Qed.

Lemma parse_price_symbol_first_witness :
  parse_price "2 for $15.00 (was 40)" = Some 15.
Proof.
  apply (parse_price_symbol_first ("2 for " : str) ("15" : str) (" (was 40)" : str)
           "$" "0" "0").
  - intros c Hc. vm_compute in Hc.
    repeat (destruct Hc as [<-|Hc]; [reflexivity|]). contradiction.
  - reflexivity.
  - discriminate.
  - reflexivity.
  - reflexivity.
  - reflexivity.
  - vm_compute. reflexivity.
  - vm_compute. reflexivity.
Defined.

(** ** Cents after a comma *)

(** After the digits, a separator followed by only two digits starts no
    group of three: the number ends before the separator. *)
Lemma number_before_short_group (A : Type) (ds : str) (sep a b : ascii) (post : str) g
      (k : mstate -> option A) (x : A) :
  ds <> [] -> forallb is_digit ds = true ->
  is_separator sep = true ->
  (forall c t, post = c :: t -> is_digit c = false) ->
  k (MState (sep :: a :: b :: post) g) = Some x ->
  m number_re (MState (ds ++ sep :: a :: b :: post) g) k = Some x.
Proof.
  intros Hne Hd Hsep Hpost Hk. destruct ds as [|d0 ds]; [contradiction|].
  cbn [forallb] in Hd. apply andb_true_iff in Hd. destruct Hd as [Hd0 Hd].
  assert (Hsd : is_digit sep = false).
  { destruct (is_digit sep) eqn:E; [|reflexivity].
    unfold is_separator in Hsep. rewrite (digit_not_space sep E), orb_false_r in Hsep.
    unfold is_char in Hsep. apply Ascii.eqb_eq in Hsep. subst sep. discriminate E. }
  unfold number_re, Plus. rewrite !m_seq.
  unfold digit at 1. change ((d0 :: ds) ++ sep :: a :: b :: post)
    with (d0 :: ds ++ sep :: a :: b :: post).
  rewrite m_chr_cons, Hd0. cbv beta.
  apply star_digits; [exact Hd| |].
  - intros c t E. injection E as <- _. exact Hsd.
  - cbv beta. rewrite m_seq. rewrite m_star_stop.
    2:{ intro k'. unfold Rep3, digit. rewrite !m_seq, m_chr_cons, Hsep. cbv beta.
        rewrite m_seq, m_chr_cons. destruct (is_digit a); [|reflexivity]. cbv beta.
        rewrite m_seq, m_chr_cons. destruct (is_digit b); [|reflexivity]. cbv beta.
        destruct post as [|c t]; [reflexivity|].
        now rewrite m_chr_cons, (Hpost c t eq_refl). }
    cbv beta. unfold Opt. rewrite m_alt, m_seq, m_chr_cons.
    replace (is_char "." sep) with false.
    + exact Hk.
    + symmetry. now apply separator_not_point.
Qed.

(** X6: an amount written with its cents after a comma ("R1299,50") loses
    the cents: the result is the whole number before the comma. *)
Theorem parse_price_drops_comma_cents :
  forall (pre ds post : str) (sym a b : ascii),
    (forall c, In c pre -> is_currency c = false) ->
    is_currency sym = true ->
    ds <> [] -> forallb is_digit ds = true -> is_digit a = true -> is_digit b = true ->
    (forall c t, post = c :: t -> is_digit c = false) ->
    (1 <= digits_value ds < 1000000)%Z ->
    parse_price (pre ++ sym :: ds ++ ","%char :: a :: b :: post)
    = Some (inject_Z (digits_value ds)).
Proof.
  intros pre ds post sym a b Hpre Hsym Hne Hds Ha Hb Hpost Hwin.
  destruct (strip_core pre (ds ++ [","%char; a]) post sym b
              (currency_not_space sym Hsym) (digit_not_space b Hb))
    as (x & pre' & post' & y & Epre & Epost & Es).
  assert (Et : forall p q : str,
             p ++ sym :: ds ++ ","%char :: a :: b :: q
             = p ++ sym :: (ds ++ [","%char; a]) ++ b :: q)
    by (intros; now rewrite <- app_assoc).
  unfold parse_price. rewrite Et, Es, <- Et.
  unfold currency_patterns. cbn [parse_currency].
  rewrite search_currency_before_skip
    by (intros c Hc; apply Hpre; rewrite Epre; apply in_or_app; now right).
  destruct ds as [|d0 ds']; [contradiction|].
  assert (Hd0 : is_digit d0 = true)
    by (cbn [forallb] in Hds; apply andb_true_iff in Hds; tauto).
  assert (Hnum : forall (k : mstate -> option rmatch) g x0,
             k (MState (","%char :: a :: b :: post') g) = Some x0 ->
             m number_re (MState ((d0 :: ds') ++ ","%char :: a :: b :: post') g) k = Some x0).
  { intros k g x0 Hk. apply number_before_short_group; auto.
    intros c t E. subst post'. apply (Hpost c (t ++ y)). now rewrite Epost. }
  rewrite (search_here _ _ _
             (currency_before_at sym d0 ds' (","%char :: a :: b :: post') Hsym Hd0 Hnum)).
  unfold group. cbn [group_1].
  assert (Hkeep : forall x0, is_digit x0 = false ->
             forall c, In c (d0 :: ds') -> is_char x0 c = false).
  { intros x0 Hx0 c Hc. apply digit_not_char; [exact Hx0|].
    rewrite forallb_forall in Hds. now apply Hds. }
  rewrite (remove_char_id "," _ (Hkeep ","%char eq_refl)).
  rewrite (remove_char_id " " _ (Hkeep " "%char eq_refl)).
  rewrite (python_float_int (d0 :: ds') Hne Hds), Qred_int.
  replace (Qltb 0.01 _) with true.
  2:{ symmetry. unfold Qltb. apply negb_true_iff.
      destruct (Qle_bool _ _) eqn:E; [|reflexivity].
      apply Qle_bool_iff in E. unfold Qle in E. cbn [Qnum Qden] in E. lia. }
  replace (Qltb _ 1000000) with true; [reflexivity|].
  symmetry. unfold Qltb. apply negb_true_iff.
  destruct (Qle_bool _ _) eqn:E; [|reflexivity].
  apply Qle_bool_iff in E. unfold Qle in E. cbn [Qnum Qden] in E. lia.
Qed.

Lemma parse_price_drops_comma_cents_witness :
  parse_price "Prix: R1299,50" = Some (inject_Z 1299).
Proof.
  apply (parse_price_drops_comma_cents ("Prix: " : str) ("1299" : str) [] "R" "5" "0").
  - intros c Hc. vm_compute in Hc.
    repeat (destruct Hc as [<-|Hc]; [reflexivity|]). contradiction.
  - reflexivity.
  - discriminate.
  - reflexivity.
  - reflexivity.
  - reflexivity.
  - discriminate.
  - vm_compute. split; [discriminate|reflexivity].
Defined.

(** ** The probes of [extract_price] *)

Lemma contains_I_suffix (w1 w2 s : str) :
  contains_I (w1 ++ w2) s -> contains_I w2 s.
Proof.
  intros (a & x & b & -> & E).
  exists (a ++ firstn (length w1) x), (skipn (length w1) x), b. split.
  - rewrite <- app_assoc. f_equal. rewrite app_assoc. f_equal.
    symmetry. apply firstn_skipn.
  - rewrite <- skipn_map, E, map_app, skipn_app.
    rewrite length_map, Nat.sub_diag. cbn [skipn].
    rewrite <- (length_map lower w1), skipn_all. reflexivity.
Qed.

Lemma matches_str_word (w1 w2 v : str) :
  matches_str (ByRegex (compile_I (w1 ++ w2))) v = true ->
  matches_str (ByRegex (compile_I w2)) v = true.
Proof.
  unfold matches_str. intro H.
  assert (C : contains_I (w1 ++ w2) v).
  { apply search_compile_I_inv. destruct (search _ v); [discriminate|discriminate H]. }
  apply contains_I_suffix in C. apply search_compile_I in C.
  destruct (search (compile_I w2) v); [reflexivity|contradiction].
Qed.

(** Whatever the probe for a longer word in an attribute finds, the probe
    for the end of that word finds too. *)
Lemma matches_word (name : string) (w1 w2 : str) (e : element) :
  matches (name, ByRegex (compile_I (w1 ++ w2))) e = true ->
  matches (name, ByRegex (compile_I w2)) e = true.
Proof.
  unfold matches. cbn [fst snd]. destruct (get_attr name (attrs e)) as [v|]; [|auto].
  destruct v as [s|l]; cbn [matches_value].
  - apply matches_str_word.
  - intro H. apply orb_true_iff in H. apply orb_true_iff. destruct H as [H|H].
    + left. apply existsb_exists in H. destruct H as (tok & Hin & Ht).
      apply existsb_exists. exists tok. split; [exact Hin|].
      now apply (matches_str_word w1 w2).
    + right. now apply (matches_str_word w1 w2).
Qed.

Lemma first_price_none (l : list str) :
  first_price l = None <-> forall t, In t l -> truthy (parse_price t) = false.
Proof.
  induction l as [|t l IH]; cbn [first_price].
  - split; [intros _ t []|reflexivity].
  - destruct (truthy (parse_price t)) eqn:E.
    + split.
      * intro H. destruct (parse_price t); [discriminate H|discriminate E].
      * intro H. rewrite (H t) in E by now left. discriminate E.
    + rewrite IH. split.
      * intros H t' [<-|Ht']; auto.
      * intros H t' Ht'. apply H. now right.
Qed.

(** X7: the last probe, [class] containing "product-price", never decides:
    every element it finds has been tried by the first probe, [class]
    containing "price".  The attribute stage gives the same result without
    it. *)
Theorem product_price_probe_is_dead :
  forall soup : document,
    heuristic_stage soup price_patterns = heuristic_stage soup (removelast price_patterns).
Proof.
  intro soup. unfold price_patterns. cbn [removelast heuristic_stage].
  destruct (first_price (map get_text (find_all soup ("class", ByRegex (compile_I "price")))))
    as [p|] eqn:E1; [reflexivity|].
  repeat (match goal with
          | |- context [match first_price ?l with Some _ => _ | None => _ end] =>
              destruct (first_price l) eqn:?; [reflexivity|]
          end).
  assert (E7 : first_price (map get_text
                 (find_all soup ("class", ByRegex (compile_I "product-price")))) = None).
  { apply first_price_none. intros t Ht.
    apply in_map_iff in Ht. destruct Ht as (e & <- & He).
    apply filter_In in He. destruct He as [Hin Hm].
    rewrite first_price_none in E1. apply E1.
    apply in_map_iff. exists e. split; [reflexivity|].
    apply filter_In. split; [exact Hin|].
    exact (matches_word "class" ("product-" : str) ("price" : str) e Hm). }
  now rewrite E7.
Qed.

(** ** What [extract_price] returns *)

Lemma findall_price_regex_no_symbol (s : str) :
  (forall c, In c s -> is_currency c = false) -> findall price_regex s = [].
Proof.
  intro Hs. destruct (findall price_regex s) as [|y l] eqn:E; [reflexivity|exfalso].
  assert (Hy : In y (findall price_regex s)) by (rewrite E; now left).
  apply findall_sound in Hy. destruct Hy as (pre & s' & x & -> & Hm & _).
  destruct s' as [|c s'].
  - discriminate Hm.
  - unfold price_regex in Hm. rewrite match_here_chr_fail in Hm; [discriminate|].
    apply Hs. apply in_or_app. right. now left.
Qed.

Lemma heuristic_stage_nothing (soup : document) (patterns : list attr_pattern) :
  (forall pat, In pat patterns -> find_all soup pat = []) ->
  heuristic_stage soup patterns = None.
Proof.
  induction patterns as [|pat l IH]; intro H; [reflexivity|].
  cbn [heuristic_stage]. rewrite (H pat) by now left. cbn [map first_price].
  apply IH. intros. apply H. now right.
Qed.

(** X8: a page on which no probe finds an element and which holds no
    currency symbol yields no price, whatever numbers stand in it. *)
Theorem extract_price_needs_probe_or_symbol :
  forall BeautifulSoup select (html : str) css,
    selector_stage select (BeautifulSoup html) css = Ok None ->
    (forall pat, In pat price_patterns -> find_all (BeautifulSoup html) pat = []) ->
    (forall c, In c html -> is_currency c = false) ->
    extract_price BeautifulSoup select html css = Ok None.
Proof.
  intros BS select html css Hsel Hprobe Hsym. unfold extract_price.
  rewrite Hsel, (heuristic_stage_nothing _ _ Hprobe).
  unfold regex_stage. now rewrite findall_price_regex_no_symbol.
Qed.

Lemma extract_price_needs_probe_or_symbol_witness :
  extract_price sample_soup select_nothing html_cost_id None = Ok None.
Proof.
  apply extract_price_needs_probe_or_symbol.
  - reflexivity.
  - intros pat Hpat. unfold price_patterns in Hpat.
    repeat (destruct Hpat as [<-|Hpat]; [reflexivity|]). contradiction.
  - intros c Hc. vm_compute in Hc.
    repeat (destruct Hc as [<-|Hc]; [reflexivity|]). contradiction.
Defined.

(** X9: the first element the selector finds whose text holds a price
    decides, whatever the attribute probes and the scan of the page would
    find. *)
Theorem selector_takes_precedence :
  forall BeautifulSoup select (html sel : str) (before : list element)
         (e : element) (after_e : list element) (p : Q),
    sel <> [] ->
    select (BeautifulSoup html) sel = Ok (before ++ e :: after_e) ->
    (forall e', In e' before -> parse_price (get_text e') = None) ->
    parse_price (get_text e) = Some p ->
    extract_price BeautifulSoup select html (Some sel) = Ok (Some p).
Proof.
  intros BS select html sel before e after_e p Hsel Hs Hbefore Hp.
  unfold extract_price, selector_stage.
  destruct sel as [|c sel]; [contradiction|]. cbn [selector_given]. rewrite Hs.
  rewrite map_app, first_price_app.
  replace (first_price (map get_text before)) with (@None Q).
  - cbn [map]. now rewrite (first_price_hit _ _ p Hp).
  - symmetry. apply first_price_none. intros t Ht.
    apply in_map_iff in Ht. destruct Ht as (e' & <- & He').
    now rewrite (Hbefore e' He').
Qed.

Lemma selector_takes_precedence_witness :
  extract_price sample_soup
    (fun soup _ => Ok (filter (matches ("class", ByRegex (compile_I ("amount" : str)))) soup))
    html_itemprop_amount (Some (".amount" : str))
  = Ok (Some 50).
Proof.
  apply (selector_takes_precedence sample_soup _ html_itemprop_amount (".amount" : str)
           [] (Element [("class", AttrList [("amount" : str)])] "R50") [] 50).
  - discriminate.
  - vm_compute. reflexivity.
  - intros e' [].
  - vm_compute. reflexivity.
Defined.


(** ** The calls [fetch_price] makes *)

Section FetchCalls.
Variable BeautifulSoup : str -> document.
Variable select : document -> str -> result (list element).
Variable w : world.

Lemma fetch_price_simple_trace url css t :
  snd (fetch_price_simple BeautifulSoup select w url css t) = t ++ [HttpGet url].
Proof. unfold fetch_price_simple. run; reflexivity. Qed.

Ltac segment n := exists n; cbn [firstn browser_calls]; rewrite <- ?app_assoc; reflexivity.

Lemma fetch_price_selenium_trace url css t :
  exists n, snd (fetch_price_selenium BeautifulSoup select w url css t)
            = t ++ firstn n (browser_calls url).
Proof.
  unfold fetch_price_selenium. unfold try_except, bind, outcome, emit, ret.
  destruct (import_selenium w) as [[]|e0].
  2:{ exists 0%nat. cbn [firstn]. rewrite app_nil_r.
      destruct (is_ImportError e0); [reflexivity|]. destruct (is_Exception e0); reflexivity. }
  destruct (webdriver_Chrome w) as [[]|e1].
  2:{ exists 0%nat. cbn [firstn]. rewrite app_nil_r.
      destruct (is_ImportError e1); [reflexivity|]. destruct (is_Exception e1); reflexivity. }
  destruct (driver_get w url) as [[]|e2].
  2:{ destruct (is_ImportError e2); [segment 2%nat|]. destruct (is_Exception e2); segment 2%nat. }
  destruct (wait_until_body w) as [[]|e3].
  2:{ destruct (is_ImportError e3); [segment 3%nat|]. destruct (is_Exception e3); segment 3%nat. }
  destruct (page_source w) as [html|e4].
  2:{ destruct (is_ImportError e4); [segment 5%nat|]. destruct (is_Exception e4); segment 5%nat. }
  destruct (driver_quit w) as [[]|e5].
  2:{ destruct (is_ImportError e5); [segment 6%nat|]. destruct (is_Exception e5); segment 6%nat. }
  destruct (extract_price _ _ html css) as [price|e6]; [segment 6%nat|].
  destruct (is_ImportError e6); [segment 6%nat|]. destruct (is_Exception e6); segment 6%nat.
Qed.

(** X10: one call of [fetch_price] makes at most one HTTP request, none
    when the browser is forced, and after it an initial part of one
    browser session: start, navigation, wait, pause, page source, quit. *)
Theorem fetch_price_call_sequence :
  forall url css force t,
  exists n,
    (n <= 6)%nat
    /\ snd (fetch_price BeautifulSoup select w url css force t)
       = t ++ (if force then [] else [HttpGet url]) ++ firstn n (browser_calls url).
Proof.
  intros url css force t. unfold fetch_price. destruct force.
  - destruct (fetch_price_selenium_trace url css t) as (n & E).
    exists (Nat.min n 6). split; [apply Nat.le_min_r|].
    rewrite E. cbn [app]. f_equal.
    rewrite <- (firstn_firstn (browser_calls url) n 6). reflexivity.
  - unfold bind.
    pose proof (fetch_price_simple_trace url css t) as E1.
    destruct (fetch_price_simple _ _ _ _ _ _) as [[price|e] t1]; cbn [snd] in E1; subst t1.
    + destruct (truthy price).
      * exists 0%nat. split; [lia|]. cbn [ret snd firstn]. now rewrite app_nil_r.
      * destruct (fetch_price_selenium_trace url css (t ++ [HttpGet url])) as (n & E).
        exists (Nat.min n 6). split; [apply Nat.le_min_r|].
        destruct (fetch_price_selenium _ _ _ _ _ _) as [[price2|e2] t2];
          cbn [snd] in E; subst t2.
        -- rewrite <- (firstn_firstn (browser_calls url) n 6), <- app_assoc.
           destruct (truthy price2); reflexivity.
        -- rewrite <- (firstn_firstn (browser_calls url) n 6), <- app_assoc. reflexivity.
    + exists 0%nat. split; [lia|]. cbn [snd firstn]. now rewrite app_nil_r.
Qed.

(** X11: when the static page yields a price, that price is returned and
    no browser is started. *)
Theorem static_price_skips_browser :
  forall url css (resp : response) (p : Q) t,
    requests_get w url = Ok resp ->
    raise_for_status resp = Ok tt ->
    extract_price BeautifulSoup select (text resp) css = Ok (Some p) ->
    fetch_price BeautifulSoup select w url css false t = (Ok (Some p), t ++ [HttpGet url]).
Proof.
  intros url css resp p t Hget Hst Hex.
  destruct (extract_price_inv _ _ _ _ _ Hex) as (x & Hx).
  unfold fetch_price, fetch_price_simple, try_except, bind, outcome, emit, ret.
  rewrite Hget, Hst, Hex. now rewrite (parse_price_truthy x p Hx).
Qed.

(** X12: a response with an error status (400 to 599) is not examined:
    the static strategy gives nothing, whatever the body holds. *)
Theorem error_status_page_is_not_read :
  forall url css (resp : response) t,
    requests_get w url = Ok resp ->
    (400 <= status_code resp < 600)%Z ->
    fetch_price_simple BeautifulSoup select w url css t = (Ok None, t ++ [HttpGet url]).
Proof.
  intros url css resp t Hget Hst.
  unfold fetch_price_simple, try_except, bind, outcome, emit, ret, raise_for_status.
  rewrite Hget.
  replace ((400 <=? status_code resp)%Z && (status_code resp <? 600)%Z) with true.
  - reflexivity.
  - symmetry. apply andb_true_iff. split; [apply Z.leb_le|apply Z.ltb_lt]; lia.
Qed.

(** X13: with the browser forced and selenium not installed nothing is
    fetched at all: the result is [None] and no call has been made. *)
Theorem forced_browser_without_selenium :
  forall url css t,
    import_selenium w = Raise ImportError ->
    fetch_price BeautifulSoup select w url css true t = (Ok None, t).
Proof.
  intros url css t H.
  unfold fetch_price, fetch_price_selenium, try_except, bind, outcome, emit, ret.
  now rewrite H.
Qed.

(** X14: the page is examined after [driver.quit()]; when that call
    fails, the page that was read is thrown away and the result is
    [None]. *)
Theorem failed_quit_discards_page :
  forall url css t (html : str) (e : exn),
    import_selenium w = Ok tt -> webdriver_Chrome w = Ok tt ->
    driver_get w url = Ok tt -> wait_until_body w = Ok tt ->
    page_source w = Ok html ->
    driver_quit w = Raise e -> is_Exception e = true ->
    fetch_price_selenium BeautifulSoup select w url css t
    = (Ok None, t ++ browser_calls url).
Proof.
  intros url css t html e H0 H1 H2 H3 H4 H5 He.
  unfold fetch_price_selenium, try_except, bind, outcome, emit, ret.
  rewrite H0, H1, H2, H3, H4, H5, He.
  destruct (is_ImportError e); unfold browser_calls; rewrite <- !app_assoc; reflexivity.
Qed.

(** X15: a selector the selection engine cannot read turns price
    detection off: both strategies fail on it, although the attribute
    probes and the scan of the page are never asked. *)
Theorem unreadable_selector_gives_no_price :
  forall url (sel : str) force t,
    sel <> [] ->
    (forall soup, exists e, select soup sel = Raise e /\ is_Exception e = true) ->
    world_raises_Exception w ->
    exists t', fetch_price BeautifulSoup select w url (Some sel) force t = (Ok None, t').
Proof.
  intros url sel force t Hsel Hbad Hw.
  assert (Hex : forall html, exists e,
             extract_price BeautifulSoup select html (Some sel) = Raise e
             /\ is_Exception e = true).
  { intro html. destruct (Hbad (BeautifulSoup html)) as (e & He & Hx).
    exists e. split; [|exact Hx].
    unfold extract_price, selector_stage. destruct sel as [|c sel]; [contradiction|].
    cbn [selector_given]. now rewrite He. }
  assert (Simple : forall t0, exists t1,
             fetch_price_simple BeautifulSoup select w url (Some sel) t0 = (Ok None, t1)).
  { intro t0. unfold fetch_price_simple, try_except, bind, outcome, emit, ret.
    destruct (requests_get w url) as [resp|e] eqn:E1.
    - unfold raise_for_status.
      destruct ((400 <=? status_code resp)%Z && (status_code resp <? 600)%Z).
      + cbn [is_Exception]. eauto.
      + destruct (Hex (text resp)) as (e & -> & ->). eauto.
    - rewrite ((wre_get Hw url : raises_Exception _) e E1). eauto. }
  assert (Selenium : forall t0, exists t1,
             fetch_price_selenium BeautifulSoup select w url (Some sel) t0 = (Ok None, t1)).
  { intro t0. unfold fetch_price_selenium, try_except, bind, outcome, emit, ret.
    destruct (import_selenium w) as [[]|e] eqn:E0.
    2:{ destruct (is_ImportError e); eauto.
        rewrite ((wre_import Hw : raises_Exception _) e E0). eauto. }
    destruct (webdriver_Chrome w) as [[]|e] eqn:E1.
    2:{ destruct (is_ImportError e); eauto.
        rewrite ((wre_chrome Hw : raises_Exception _) e E1). eauto. }
    destruct (driver_get w url) as [[]|e] eqn:E2.
    2:{ destruct (is_ImportError e); eauto.
        rewrite ((wre_nav Hw url : raises_Exception _) e E2). eauto. }
    destruct (wait_until_body w) as [[]|e] eqn:E3.
    2:{ destruct (is_ImportError e); eauto.
        rewrite ((wre_wait Hw : raises_Exception _) e E3). eauto. }
    destruct (page_source w) as [html|e] eqn:E4.
    2:{ destruct (is_ImportError e); eauto.
        rewrite ((wre_source Hw : raises_Exception _) e E4). eauto. }
    destruct (driver_quit w) as [[]|e] eqn:E5.
    2:{ destruct (is_ImportError e); eauto.
        rewrite ((wre_quit Hw : raises_Exception _) e E5). eauto. }
    destruct (Hex html) as (e & -> & ->). destruct (is_ImportError e); eauto. }
  unfold fetch_price. destruct force; [apply Selenium|].
  unfold bind. destruct (Simple t) as (t1 & ->). cbn [truthy].
  destruct (Selenium t1) as (t2 & ->). cbn [truthy]. unfold ret. eauto.
Qed.
End FetchCalls.

Lemma static_price_skips_browser_witness :
  fetch_price sample_soup select_nothing
    (World (fun _ => Ok (Response 200 html_itemprop_amount)) (Ok tt) (Ok tt)
           (fun _ => Ok tt) (Ok tt) (Ok html_rendered) (Ok tt))
    "http://shop.example/item" None false []
  = (Ok (Some 1299), [HttpGet ("http://shop.example/item" : str)]).
Proof.
  apply (static_price_skips_browser sample_soup select_nothing _
           "http://shop.example/item" None (Response 200 html_itemprop_amount) 1299 []).
  - reflexivity.
  - reflexivity.
  - vm_compute. reflexivity.
Defined.

Lemma error_status_page_is_not_read_witness :
  fetch_price_simple sample_soup select_nothing
    (World (fun _ => Ok (Response 503 html_itemprop_amount)) (Ok tt) (Ok tt)
           (fun _ => Ok tt) (Ok tt) (Ok html_rendered) (Ok tt))
    "http://shop.example/item" None []
  = (Ok None, [HttpGet ("http://shop.example/item" : str)]).
Proof.
  apply (error_status_page_is_not_read sample_soup select_nothing _
           "http://shop.example/item" None (Response 503 html_itemprop_amount) []).
  - reflexivity.
  - cbn [status_code]. lia.
Defined.

Lemma forced_browser_without_selenium_witness :
  fetch_price sample_soup select_nothing world_without_selenium
    "http://shop.example/item" None true []
  = (Ok None, []).
Proof. apply forced_browser_without_selenium. reflexivity. Defined.

Lemma failed_quit_discards_page_witness :
  fetch_price_selenium sample_soup select_nothing
    (World (fun _ => Raise Timeout) (Ok tt) (Ok tt)
           (fun _ => Ok tt) (Ok tt) (Ok html_rendered) (Raise WebDriverException))
    "http://shop.example/item" None []
  = (Ok None, browser_calls "http://shop.example/item").
Proof.
  apply (failed_quit_discards_page sample_soup select_nothing _
           "http://shop.example/item" None [] html_rendered WebDriverException);
    reflexivity.
Defined.

Lemma unreadable_selector_gives_no_price_witness :
  exists t',
    fetch_price sample_soup (fun _ _ => Raise SelectorSyntaxError) world_rendered
      "http://shop.example/item" (Some ("span[" : str)) false []
    = (Ok None, t').
Proof.
  apply unreadable_selector_gives_no_price.
  - discriminate.
  - intro soup. exists SelectorSyntaxError. split; reflexivity.
  - constructor; simpl; intros; intros e H; inversion H.
Defined.

(** * Properties of the callers *)

(** ** [send_price_alert] *)

Lemma py_div_nonzero (x y : Q) : Qeq_bool y 0 = false -> py_div x y = Done (x / y).
Proof. intro H. unfold py_div. now rewrite H. Qed.

Lemma Qltb_nonzero (y : Q) : Qltb 0 y = true -> Qeq_bool y 0 = false.
Proof.
  intro H. apply Qltb_lt in H. destruct (Qeq_bool y 0) eqn:E; [|reflexivity].
  apply Qeq_bool_iff in E. rewrite E in H. discriminate H.
Qed.

(** The percentage of the message is computed without error. *)
Lemma percent_change_done (price_diff old_price : Q) (f : frame) :
  exists q,
    (if Qltb 0 old_price
     then q <~ answer (py_div price_diff old_price) ;; aret (q * 100)
     else aret 0) f = (Done q, f).
Proof.
  destruct (Qltb 0 old_price) eqn:E.
  - exists (price_diff / old_price * 100). unfold abind, answer, aret.
    now rewrite (py_div_nonzero _ _ (Qltb_nonzero _ E)).
  - exists 0. reflexivity.
Qed.

(** X16: without a mail account (no user, no password, or the
    placeholder address) [send_price_alert] returns at once: no SMTP call
    is made. *)
Theorem mail_needs_credentials :
  forall (cfg : config) (smtp : smtp_world) to_email product_name old_price new_price
         product_url (f : frame),
    not_set (GMAIL_USER cfg) = true \/ not_set (GMAIL_PASSWORD cfg) = true
    \/ GMAIL_USER cfg = Some ("your-email@gmail.com" : str) ->
    send_price_alert cfg smtp to_email product_name old_price new_price product_url f
    = (Done tt, f).
Proof.
  intros cfg smtp to_email product_name old_price new_price product_url f H.
  unfold send_price_alert.
  replace (not_set (GMAIL_USER cfg) || not_set (GMAIL_PASSWORD cfg)
           || str_eqb (string_or_empty (GMAIL_USER cfg)) "your-email@gmail.com")
    with true; [reflexivity|].
  symmetry. destruct H as [H|[H|H]].
  - now rewrite H.
  - rewrite H. now rewrite orb_true_r.
  - rewrite H. cbn [string_or_empty]. unfold str_eqb.
    destruct (list_eq_dec _ _ _) as [_|N]; [apply orb_true_r|now contradiction N].
Qed.

Lemma mail_needs_credentials_witness :
  send_price_alert (Config (Some ("me@gmail.com" : str)) None 3600)
    (SmtpWorld (Done tt) (Done tt) (Done tt) (Done tt) (Done tt))
    "you@example.org" "Kettle" 499 449 (Some ("http://shop.example/kettle" : str))
    (Frame [] 0 0 0)
  = (Done tt, Frame [] 0 0 0).
Proof. apply mail_needs_credentials. right. left. reflexivity. Defined.

(** The SMTP calls of one message, in the order they are made *)
Lemma send_price_alert_calls (cfg : config) (smtp : smtp_world) to_email product_name
      old_price new_price product_url (f : frame) :
  soft_reply (smtp_connect smtp) -> soft_reply (smtp_starttls smtp) ->
  soft_reply (smtp_login smtp) -> soft_reply (smtp_send_message smtp) ->
  soft_reply (smtp_quit smtp) ->
  exists n msg,
    send_price_alert cfg smtp to_email product_name old_price new_price product_url f
    = (Done tt,
       Frame (log f ++ firstn n [SmtpConnect; SmtpStartTls;
                                 SmtpLogin (string_or_empty (GMAIL_USER cfg))
                                           (string_or_empty (GMAIL_PASSWORD cfg));
                                 SmtpSend msg; SmtpQuit])
             (checked f) (changed f) (errors f))
    /\ alert_to msg = to_email /\ alert_product msg = product_name
    /\ alert_old msg = old_price /\ alert_new msg = new_price
    /\ alert_dropped msg = Qltb (new_price - old_price) 0.
Proof.
  intros S1 S2 S3 S4 S5. unfold send_price_alert.
  destruct (_ || _).
  { exists 0%nat, (Alert [] to_email product_name old_price new_price 0 0
                         (Qltb (new_price - old_price) 0) None).
    cbn [firstn]. rewrite app_nil_r. destruct f. repeat split. }
  destruct (percent_change_done (new_price - old_price) old_price f) as (q & Eq).
  unfold abind at 1. rewrite Eq.
  match goal with |- context [SmtpSend ?m] => set (msg := m) end.
  assert (Hmsg : alert_to msg = to_email /\ alert_product msg = product_name
                 /\ alert_old msg = old_price /\ alert_new msg = new_price
                 /\ alert_dropped msg = Qltb (new_price - old_price) 0)
    by (repeat split).
  unfold except_Exception, abind, perform, answer, aret. cbn [log checked changed errors].
  destruct (smtp_connect smtp) as [[]|e] eqn:E1.
  2:{ rewrite (S1 e eq_refl). exists 1%nat, msg. split; [reflexivity|exact Hmsg]. }
  destruct (smtp_starttls smtp) as [[]|e] eqn:E2.
  2:{ rewrite (S2 e eq_refl). exists 2%nat, msg. cbn [firstn].
      rewrite <- !app_assoc. split; [reflexivity|exact Hmsg]. }
  destruct (smtp_login smtp) as [[]|e] eqn:E3.
  2:{ rewrite (S3 e eq_refl). exists 3%nat, msg. cbn [firstn].
      rewrite <- !app_assoc. split; [reflexivity|exact Hmsg]. }
  destruct (smtp_send_message smtp) as [[]|e] eqn:E4.
  2:{ rewrite (S4 e eq_refl). exists 4%nat, msg. cbn [firstn].
      rewrite <- !app_assoc. split; [reflexivity|exact Hmsg]. }
  destruct (smtp_quit smtp) as [[]|e] eqn:E5.
  2:{ rewrite (S5 e eq_refl). exists 5%nat, msg. cbn [firstn].
      rewrite <- !app_assoc. split; [reflexivity|exact Hmsg]. }
  exists 5%nat, msg. cbn [firstn]. rewrite <- !app_assoc. split; [reflexivity|exact Hmsg].
Qed.

(** X17: [send_price_alert] never fails on an SMTP error that derives
    from [Exception]: it returns after an initial part of the five calls
    connect, starttls, login, send, quit, and leaves the counters alone. *)
Theorem send_price_alert_absorbs_smtp_errors :
  forall (cfg : config) (smtp : smtp_world) to_email product_name old_price new_price
         product_url (f : frame),
    soft_reply (smtp_connect smtp) -> soft_reply (smtp_starttls smtp) ->
    soft_reply (smtp_login smtp) -> soft_reply (smtp_send_message smtp) ->
    soft_reply (smtp_quit smtp) ->
    exists n msg,
      send_price_alert cfg smtp to_email product_name old_price new_price product_url f
      = (Done tt,
         Frame (log f ++ firstn n [SmtpConnect; SmtpStartTls;
                                   SmtpLogin (string_or_empty (GMAIL_USER cfg))
                                             (string_or_empty (GMAIL_PASSWORD cfg));
                                   SmtpSend msg; SmtpQuit])
               (checked f) (changed f) (errors f)).
Proof.
  intros cfg smtp to_email product_name old_price new_price product_url f S1 S2 S3 S4 S5.
  destruct (send_price_alert_calls cfg smtp to_email product_name old_price new_price
              product_url f S1 S2 S3 S4 S5) as (n & msg & E & _).
  now exists n, msg.
Qed.

Lemma send_price_alert_absorbs_smtp_errors_witness :
  exists n msg,
    send_price_alert (Config (Some ("me@gmail.com" : str)) (Some ("secret" : str)) 3600)
      (SmtpWorld (Done tt) (Done tt) (Failed (PyError "SMTPAuthenticationError" true))
                 (Done tt) (Done tt))
      "you@example.org" "Kettle" 499 449 (Some ("http://shop.example/kettle" : str))
      (Frame [] 0 0 0)
    = (Done tt,
       Frame ([] ++ firstn n [SmtpConnect; SmtpStartTls;
                              SmtpLogin ("me@gmail.com" : str) ("secret" : str);
                              SmtpSend msg; SmtpQuit]) 0 0 0).
Proof.
  apply (send_price_alert_absorbs_smtp_errors
           (Config (Some ("me@gmail.com" : str)) (Some ("secret" : str)) 3600)).
  - intros e H. discriminate H.
  - intros e H. discriminate H.
  - intros e H. injection H as <-. reflexivity.
  - intros e H. discriminate H.
  - intros e H. discriminate H.
Defined.

(** X18: when the login is refused, the message is not sent and the
    connection that was opened is not closed: [server.quit()] stands at the
    end of the [try] block only. *)
Theorem refused_login_leaves_connection_open :
  forall (cfg : config) (smtp : smtp_world) to_email product_name old_price new_price
         product_url (f : frame) (e : pyerror),
    not_set (GMAIL_USER cfg) = false -> not_set (GMAIL_PASSWORD cfg) = false ->
    GMAIL_USER cfg <> Some ("your-email@gmail.com" : str) ->
    smtp_connect smtp = Done tt -> smtp_starttls smtp = Done tt ->
    smtp_login smtp = Failed e -> derives_Exception e = true ->
    send_price_alert cfg smtp to_email product_name old_price new_price product_url f
    = (Done tt,
       Frame (log f ++ [SmtpConnect; SmtpStartTls;
                        SmtpLogin (string_or_empty (GMAIL_USER cfg))
                                  (string_or_empty (GMAIL_PASSWORD cfg))])
             (checked f) (changed f) (errors f)).
Proof.
  intros cfg smtp to_email product_name old_price new_price product_url f e
         Hu Hp Hph H1 H2 H3 He.
  unfold send_price_alert. rewrite Hu, Hp. cbn [orb].
  replace (str_eqb (string_or_empty (GMAIL_USER cfg)) "your-email@gmail.com") with false.
  2:{ symmetry. unfold str_eqb. destruct (list_eq_dec _ _ _) as [E|_]; [|reflexivity].
      exfalso. apply Hph. destruct (GMAIL_USER cfg) as [u|]; [|discriminate Hu].
      cbn [string_or_empty] in E. now rewrite E. }
  destruct (percent_change_done (new_price - old_price) old_price f) as (q & Eq).
  unfold abind at 1. rewrite Eq.
  unfold except_Exception, abind, perform, answer, aret. cbn [log checked changed errors].
  rewrite H1, H2, H3, He. now rewrite <- !app_assoc.
Qed.

Lemma refused_login_leaves_connection_open_witness :
  send_price_alert (Config (Some ("me@gmail.com" : str)) (Some ("secret" : str)) 3600)
    (SmtpWorld (Done tt) (Done tt) (Failed (PyError "SMTPAuthenticationError" true))
               (Done tt) (Done tt))
    "you@example.org" "Kettle" 499 449 (Some ("http://shop.example/kettle" : str))
    (Frame [] 0 0 0)
  = (Done tt,
     Frame [SmtpConnect; SmtpStartTls; SmtpLogin ("me@gmail.com" : str) ("secret" : str)]
           0 0 0).
Proof.
  apply (refused_login_leaves_connection_open
           (Config (Some ("me@gmail.com" : str)) (Some ("secret" : str)) 3600)
           (SmtpWorld (Done tt) (Done tt) (Failed (PyError "SMTPAuthenticationError" true))
                      (Done tt) (Done tt))
           "you@example.org" "Kettle" 499 449 (Some ("http://shop.example/kettle" : str))
           (Frame [] 0 0 0) (PyError "SMTPAuthenticationError" true));
    try reflexivity.
  discriminate.
Defined.

(** ** [init_db] *)

Lemma existsb_app_true (A : Type) (f : A -> bool) (l : list A) (a : A) :
  f a = true -> existsb f (l ++ [a]) = true.
Proof. intro H. rewrite existsb_app. cbn [existsb]. rewrite H. now rewrite orb_true_r. Qed.

(** X19: [init_db] can be run again and again: a second run changes
    nothing, the table has a [use_selenium] column afterwards, and the
    columns it had stay where they were. *)
Theorem init_db_idempotent :
  forall table : option (list string),
    init_db (Some (init_db table)) = init_db table
    /\ existsb (name_eqb "use_selenium") (init_db table) = true
    /\ (forall columns, table = Some columns ->
          firstn (length columns) (init_db table) = columns).
Proof.
  intro table.
  assert (H : existsb (name_eqb "use_selenium") (init_db table) = true).
  { destruct table as [columns|]; [|reflexivity]. cbn [init_db].
    destruct (existsb _ columns) eqn:E; [exact E|].
    apply existsb_app_true. reflexivity. }
  split; [|split; [exact H|]].
  - cbn [init_db]. now rewrite H.
  - intros columns ->. cbn [init_db]. destruct (existsb _ columns).
    + apply firstn_all.
    + rewrite firstn_app, Nat.sub_diag, firstn_all. cbn [firstn]. apply app_nil_r.
Qed.

(** X20: in a table of eight columns that [init_db] upgrades, the new
    column [use_selenium] is the ninth and the eighth stays what it was,
    whereas in a table [init_db] creates [use_selenium] is the eighth. *)
Theorem upgraded_table_has_flag_last :
  forall columns : list string,
    length columns = 8%nat ->
    existsb (name_eqb "use_selenium") columns = false ->
    length (init_db (Some columns)) = 9%nat
    /\ nth_error (init_db (Some columns)) 8 = Some "use_selenium"%string
    /\ nth_error (init_db (Some columns)) 7 = nth_error columns 7
    /\ (forall c, nth_error columns 7 = Some c -> name_eqb "use_selenium" c = false)
    /\ nth_error (init_db None) 7 = Some "use_selenium"%string.
Proof.
  intros columns Hlen Hno. cbn [init_db]. rewrite Hno.
  repeat split.
  - rewrite length_app, Hlen. reflexivity.
  - rewrite nth_error_app2 by lia. rewrite Hlen. reflexivity.
  - rewrite nth_error_app1 by lia. reflexivity.
  - intros c Hc. apply nth_error_In in Hc.
    destruct (name_eqb "use_selenium" c) eqn:E; [|reflexivity].
    assert (X : existsb (name_eqb "use_selenium") columns = true)
      by (apply existsb_exists; now exists c).
    congruence.
Qed.

Lemma upgraded_table_has_flag_last_witness :
  nth_error (init_db (Some ["id"; "name"; "url"; "email"; "css_selector";
                            "current_price"; "last_checked"; "created_at"]%string)) 7
  = Some "created_at"%string.
Proof.
  refine (eq_trans (proj1 (proj2 (proj2 (upgraded_table_has_flag_last
            ["id"; "name"; "url"; "email"; "css_selector";
             "current_price"; "last_checked"; "created_at"]%string _ _)))) _);
    reflexivity.
Defined.

(** ** The log and the counters *)

Lemma adds_ret (A : Type) (P : action -> Prop) (a : A) : adds P (aret a).
Proof.
  intros f r f' H. injection H as <- <-. exists []. split; [now rewrite app_nil_r|constructor].
Qed.

Lemma adds_answer (A : Type) (P : action -> Prop) (r : reply A) : adds P (answer r).
Proof.
  intros f r' f' H. injection H as <- <-. exists []. split; [now rewrite app_nil_r|constructor].
Qed.

Lemma adds_perform (P : action -> Prop) (a : action) : P a -> adds P (perform a).
Proof.
  intros Ha f r f' H. injection H as <- <-. exists [a]. split; [reflexivity|].
  constructor; [exact Ha|constructor].
Qed.

Lemma adds_bind (A B : Type) (P : action -> Prop) (c : Act A) (k : A -> Act B) :
  adds P c -> (forall a, returns c a -> adds P (k a)) -> adds P (abind c k).
Proof.
  intros Hc Hk f r f' H. unfold abind in H.
  destruct (c f) as [[a|e] f1] eqn:E.
  - destruct (Hc _ _ _ E) as (l1 & E1 & F1).
    assert (R : returns c a) by (now exists f, f1).
    destruct (Hk a R _ _ _ H) as (l2 & E2 & F2).
    exists (l1 ++ l2). split; [now rewrite E2, E1, app_assoc|].
    apply Forall_app. now split.
  - injection H as <- <-. exact (Hc _ _ _ E).
Qed.

Lemma adds_except (A : Type) (P : action -> Prop) (body handler : Act A) :
  adds P body -> adds P handler -> adds P (except_Exception body handler).
Proof.
  intros Hb Hh f r f' H. unfold except_Exception in H.
  destruct (body f) as [[a|e] f1] eqn:E.
  - injection H as <- <-. exact (Hb _ _ _ E).
  - destruct (Hb _ _ _ E) as (l1 & E1 & F1).
    destruct (derives_Exception e).
    + destruct (Hh _ _ _ H) as (l2 & E2 & F2).
      exists (l1 ++ l2). split; [now rewrite E2, E1, app_assoc|].
      apply Forall_app. now split.
    + injection H as <- <-. now exists l1.
Qed.

Lemma adds_silent (A : Type) (P : action -> Prop) (c : Act A) :
  (forall f r f', c f = (r, f') -> log f' = log f) -> adds P c.
Proof.
  intros Hc f r f' H. exists []. split; [|constructor].
  rewrite app_nil_r. exact (Hc _ _ _ H).
Qed.

Lemma adds_count (P : action -> Prop) :
  adds P count_checked /\ adds P count_changed /\ adds P count_error.
Proof.
  repeat split; apply adds_silent; intros f r f' H; injection H as <- <-; reflexivity.
Qed.

Lemma adds_weaken (A : Type) (P Q : action -> Prop) (c : Act A) :
  (forall a, P a -> Q a) -> adds P c -> adds Q c.
Proof.
  intros HPQ Hc f r f' H. destruct (Hc _ _ _ H) as (l & E & F).
  exists l. split; [exact E|]. revert F. apply Forall_impl. exact HPQ.
Qed.

(** What [send_price_alert] logs: SMTP calls, and one message at most,
    from the data it was given. *)
Lemma send_price_alert_adds (cfg : config) (smtp : smtp_world) to_email product_name
      old_price new_price product_url :
  adds (fun a => match a with
                 | SmtpSend msg =>
                     alert_to msg = to_email /\ alert_product msg = product_name
                     /\ alert_old msg = old_price /\ alert_new msg = new_price
                 | SmtpConnect | SmtpStartTls | SmtpLogin _ _ | SmtpQuit => True
                 | _ => False
                 end)
       (send_price_alert cfg smtp to_email product_name old_price new_price product_url).
Proof.
  unfold send_price_alert. destruct (_ || _); [apply adds_ret|].
  apply adds_bind.
  - destruct (Qltb 0 old_price); [|apply adds_ret].
    apply adds_bind; [apply adds_answer|intros; apply adds_ret].
  - intros q _. apply adds_except; [|apply adds_ret].
    repeat (apply adds_bind; [|intros]);
      try apply adds_answer; apply adds_perform; cbn; auto.
Qed.

(** ** [check_prices_cycle]: when an alert is sent *)

Section CycleFacts.
Variable BeautifulSoup : str -> document.
Variable select : document -> str -> result (list element).
Variable o : outside.

Lemma call_fetch_price_frame (w : world) url css force (f : frame) :
  exists r events,
    fetch_price BeautifulSoup select w url css force [] = (r, events)
    /\ call_fetch_price BeautifulSoup select w url css force f
       = (match r with Ok price => Done price | Raise e => Failed (error_of e) end,
          Frame (log f ++ map Web events) (checked f) (changed f) (errors f)).
Proof.
  unfold call_fetch_price.
  destruct (fetch_price BeautifulSoup select w url css force []) as [r events].
  now exists r, events.
Qed.

Lemma call_fetch_price_adds (P : action -> Prop) (w : world) url css force :
  (forall e, P (Web e)) ->
  adds P (call_fetch_price BeautifulSoup select w url css force).
Proof.
  intros HP f r f' H.
  destruct (call_fetch_price_frame w url css force f) as (r0 & events & _ & E).
  rewrite E in H. injection H as <- <-. exists (map Web events). split; [reflexivity|].
  apply Forall_forall. intros a Ha. apply in_map_iff in Ha. destruct Ha as (e & <- & _).
  apply HP.
Qed.

Lemma call_fetch_price_positive (w : world) url css force (p : Q) :
  returns (call_fetch_price BeautifulSoup select w url css force) (Some p) -> 0 < p.
Proof.
  intros (f & f' & H).
  destruct (call_fetch_price_frame w url css force f) as (r0 & events & E0 & E).
  rewrite E in H. destruct r0 as [price|e]; [|discriminate H].
  injection H as -> _. apply fetch_price_inv in E0. destruct E0 as (html & E0).
  apply extract_price_inv in E0. destruct E0 as (x & Hx). exact (parse_price_pos x p Hx).
Qed.

Lemma check_product_adds (products : list product) (n : nat) (p : product) :
  In p products ->
  adds (alert_of_change products) (check_product BeautifulSoup select o n p).
Proof.
  intro Hin. unfold check_product.
  apply adds_bind; [apply adds_answer|]. intros use_selenium _.
  apply adds_except; [|apply adds_count].
  apply adds_bind; [apply call_fetch_price_adds; intro; exact I|].
  intros new_price R. destruct new_price as [new|]; [|apply adds_count].
  destruct (truthy (Some new)); [|apply adds_count].
  apply adds_bind; [apply adds_perform; exact I|]. intros _ _.
  apply adds_bind; [apply adds_answer|]. intros _ _.
  apply adds_bind; [apply adds_count|]. intros _ _.
  destruct (product_price p) as [old|] eqn:Eold; [|apply adds_ret].
  destruct (truthy (Some old) && negb (Qeq_bool old new)) eqn:Ec; [|apply adds_ret].
  apply adds_bind; [apply adds_answer|]. intros q _.
  apply adds_bind; [|intros; apply adds_count].
  eapply adds_weaken; [|apply send_price_alert_adds].
  intros a Ha. destruct a; try exact I; try contradiction.
  destruct Ha as (H1 & H2 & H3 & H4).
  apply andb_true_iff in Ec. destruct Ec as [T N].
  cbn [alert_of_change]. exists p. rewrite H1, H2, H3, H4.
  repeat split; auto.
  - intro Z. apply Qeq_bool_iff in Z. cbn [truthy] in T. rewrite Z in T. discriminate T.
  - intro Z. apply Qeq_bool_iff in Z. rewrite Z in N. discriminate N.
  - exact (call_fetch_price_positive _ _ _ _ _ R).
Qed.

Lemma check_products_adds (products : list product) :
  forall (rows : list product) (n : nat),
    (forall p, In p rows -> In p products) ->
    adds (alert_of_change products) (check_products BeautifulSoup select o n rows).
Proof.
  induction rows as [|p rows IH]; intros n Hsub; cbn [check_products].
  - apply adds_ret.
  - apply adds_bind.
    + apply check_product_adds. apply Hsub. now left.
    + intros _ _. apply IH. intros q Hq. apply Hsub. now right.
Qed.

(** X21: every alert a check cycle sends is about a product of the table
    whose stored price is neither empty nor zero and differs from the price
    just found, which is positive; it goes to the address stored with that
    product.  A first price, and an unchanged price, raise no alert. *)
Theorem alerts_only_for_changed_prices :
  forall (products : list product) (f : frame) r f',
    get_all_products o = Done products ->
    check_prices_cycle BeautifulSoup select o f = (r, f') ->
    exists l, log f' = log f ++ l /\ Forall (alert_of_change products) l.
Proof.
  intros products f r f' Hget. revert f r f'.
  change (adds (alert_of_change products) (check_prices_cycle BeautifulSoup select o)).
  unfold check_prices_cycle.
  apply adds_except; [|apply adds_ret].
  apply adds_bind; [apply adds_perform; exact I|]. intros _ _.
  apply adds_bind; [apply adds_answer|]. intros rows (f0 & f1 & R).
  unfold answer in R. rewrite Hget in R. injection R as <- _.
  destruct products as [|p products']; [apply adds_ret|].
  apply adds_bind; [apply adds_silent; intros f r f' H; now injection H as <- <-|].
  intros _ _. apply adds_bind; [apply check_products_adds; auto|]. intros _ _.
  intros f r f' H. injection H as <- <-. cbn [log].
  eexists. split; [reflexivity|]. constructor; [exact I|constructor].
Qed.
End CycleFacts.

Lemma alerts_only_for_changed_prices_witness :
  exists l,
    log (snd (check_prices_cycle sample_soup select_nothing sample_outside (Frame [] 0 0 0)))
    = [] ++ l
    /\ Forall (alert_of_change [kettle]) l.
Proof.
  exact (alerts_only_for_changed_prices sample_soup select_nothing sample_outside
           [kettle] (Frame [] 0 0 0) _ _ eq_refl (surjective_pairing _)).
Defined.

(** ** [check_prices_cycle]: errors and counters *)

Lemma fails_soft_bind (A B : Type) (c : Act A) (k : A -> Act B) :
  fails_soft c -> (forall a, fails_soft (k a)) -> fails_soft (abind c k).
Proof.
  intros Hc Hk f e f' H. unfold abind in H.
  destruct (c f) as [[a|e0] f1] eqn:E.
  - exact (Hk a _ _ _ H).
  - injection H as <- <-. exact (Hc _ _ _ E).
Qed.

Lemma fails_soft_except (A : Type) (body handler : Act A) :
  fails_soft body -> fails_soft handler -> fails_soft (except_Exception body handler).
Proof.
  intros Hb Hh f e f' H. unfold except_Exception in H.
  destruct (body f) as [[a|e0] f1] eqn:E; [discriminate H|].
  destruct (derives_Exception e0) eqn:D.
  - exact (Hh _ _ _ H).
  - injection H as <- <-. exact (Hb _ _ _ E).
Qed.

Lemma fails_soft_never (A : Type) (c : Act A) :
  (forall f, exists a f', c f = (Done a, f')) -> fails_soft c.
Proof. intros H f e f' E. destruct (H f) as (a & f1 & E'). congruence. Qed.

Lemma fails_soft_answer (A : Type) (r : reply A) : soft_reply r -> fails_soft (answer r).
Proof. intros H f e f' E. injection E as E _. exact (H e E). Qed.

Lemma except_soft_done (body : Act unit) (f : frame) :
  fails_soft body -> exists f', except_Exception body (aret tt) f = (Done tt, f').
Proof.
  intro H. unfold except_Exception.
  destruct (body f) as [[[]|e] f1] eqn:E; [eauto|].
  rewrite (H _ _ _ E). unfold aret. eauto.
Qed.

Section CycleErrors.
Variable BeautifulSoup : str -> document.
Variable select : document -> str -> result (list element).
Variable o : outside.
Hypothesis world_soft : outside_soft o.
Hypothesis select_soft : select_raises_Exception select.

Lemma fetch_price_returns (w : world) url css force t :
  world_raises_Exception w ->
  exists price t', fetch_price BeautifulSoup select w url css force t = (Ok price, t').
Proof.
  intro Hw. unfold fetch_price. destruct force.
  - apply fetch_price_selenium_returns; assumption.
  - unfold bind.
    destruct (fetch_price_simple_returns BeautifulSoup select w url css t Hw select_soft)
      as (p1 & t1 & ->).
    destruct (truthy p1); [unfold ret; eauto|].
    destruct (fetch_price_selenium_returns BeautifulSoup select w url css t1 Hw select_soft)
      as (p2 & t2 & ->).
    destruct (truthy p2); unfold ret; eauto.
Qed.

Lemma call_fetch_price_done (n : nat) url css force (f : frame) :
  exists price events,
    call_fetch_price BeautifulSoup select (web o n) url css force f
    = (Done price, Frame (log f ++ map Web events) (checked f) (changed f) (errors f)).
Proof.
  destruct (call_fetch_price_frame BeautifulSoup select (web o n) url css force f)
    as (r & events & E0 & E).
  destruct (fetch_price_returns (web o n) url css force [] (soft_web world_soft n))
    as (price & t' & E1).
  rewrite E1 in E0. injection E0 as <- <-. now exists price, t'.
Qed.

Lemma send_price_alert_done (n : nat) to_email product_name old_price new_price
      product_url (f : frame) :
  exists l,
    send_price_alert (settings o) (mail o n) to_email product_name old_price new_price
      product_url f
    = (Done tt, Frame (log f ++ l) (checked f) (changed f) (errors f)).
Proof.
  destruct (send_price_alert_calls (settings o) (mail o n) to_email product_name
              old_price new_price product_url f
              (soft_connect world_soft n) (soft_starttls world_soft n)
              (soft_login world_soft n) (soft_send world_soft n) (soft_quit world_soft n))
    as (k & msg & E & _).
  rewrite E. eauto.
Qed.

(** One product: it is counted once, as checked or as an error, and as
    changed only when it is counted as checked. *)
Lemma check_product_tally (n : nat) (p : product) (f : frame) :
  (length (product_rest p) = 1 \/ length (product_rest p) = 2)%nat ->
  exists l f',
    check_product BeautifulSoup select o n p f = (Done tt, f')
    /\ log f' = log f ++ l
    /\ (checked f' + errors f' = S (checked f + errors f))%nat
    /\ (checked f <= checked f')%nat
    /\ (changed f' + checked f <= checked f' + changed f)%nat
    /\ (changed f <= changed f')%nat.
Proof.
  intro Hw. unfold check_product.
  assert (U : exists v, unpack_use_selenium p = Done v).
  { unfold unpack_use_selenium. destruct (product_rest p) as [|a [|b [|c r]]];
      cbn [length] in Hw; try lia; eauto. }
  destruct U as (v & ->). unfold abind at 1, answer at 1.
  unfold except_Exception. unfold abind at 1.
  destruct (call_fetch_price_done n (product_url p) (product_css_selector p)
              (truthy_value v) f) as (price & events & ->).
  set (f1 := Frame (log f ++ map Web events) (checked f) (changed f) (errors f)).
  assert (Err : exists l f', count_error f1 = (Done tt, f')
              /\ log f' = log f ++ l
              /\ (checked f' + errors f' = S (checked f + errors f))%nat
              /\ (checked f <= checked f')%nat
              /\ (changed f' + checked f <= checked f' + changed f)%nat
              /\ (changed f <= changed f')%nat).
  { eexists _, _. split; [reflexivity|]. cbn. repeat split; try lia. }
  destruct price as [new|]; [|exact Err].
  destruct (truthy (Some new)) eqn:T; [|exact Err].
  unfold abind at 1, perform at 1. unfold abind at 1, answer at 1.
  destruct (update_product_price o (product_id p) new) as [[]|e] eqn:Eu.
  2:{ rewrite ((soft_update world_soft (product_id p) new : soft_reply _) e Eu). unfold count_error. cbn.
      eexists _, _. split; [reflexivity|]. cbn. rewrite <- app_assoc.
      repeat split; try lia. }
  unfold abind at 1, count_checked at 1. cbn [log checked changed errors f1].
  assert (Ok1 : forall l0, exists l f',
              (Done tt, Frame (log f ++ l0) (S (checked f)) (changed f) (errors f))
              = (Done tt, f')
              /\ log f' = log f ++ l
              /\ (checked f' + errors f' = S (checked f + errors f))%nat
              /\ (checked f <= checked f')%nat
              /\ (changed f' + checked f <= checked f' + changed f)%nat
              /\ (changed f <= changed f')%nat).
  { intro l0. eexists _, _. split; [reflexivity|]. cbn. repeat split; try lia. }
  rewrite <- app_assoc.
  destruct (product_price p) as [old|]; [|apply Ok1].
  destruct (truthy (Some old) && negb (Qeq_bool old new)) eqn:Ec; [|apply Ok1].
  apply andb_true_iff in Ec. destruct Ec as [To _].
  cbn [truthy] in To. apply negb_true_iff in To.
  unfold abind at 1, answer at 1. rewrite (py_div_nonzero _ _ To).
  unfold abind at 1.
  match goal with |- context [send_price_alert ?a ?b ?c ?d ?e ?g ?h ?fr] =>
    destruct (send_price_alert_done n c d e g h fr) as (l2 & ->) end.
  unfold count_changed. cbn [log checked changed errors].
  rewrite <- app_assoc.
  eexists _, _. split; [reflexivity|]. cbn. repeat split; try lia.
Qed.

Lemma check_products_tally :
  forall (rows : list product) (n : nat) (f : frame),
    (forall p, In p rows ->
       (length (product_rest p) = 1 \/ length (product_rest p) = 2)%nat) ->
    exists l f',
      check_products BeautifulSoup select o n rows f = (Done tt, f')
      /\ log f' = log f ++ l
      /\ (checked f' + errors f' = checked f + errors f + length rows)%nat
      /\ (changed f' + checked f <= checked f' + changed f)%nat.
Proof.
  induction rows as [|p rows IH]; intros n f Hw; cbn [check_products].
  - exists [], f. unfold aret. rewrite app_nil_r. cbn [length]. repeat split; lia.
  - destruct (check_product_tally n p f (Hw p (or_introl eq_refl)))
      as (l1 & f1 & E1 & L1 & T1 & M1 & C1 & D1).
    destruct (IH (S n) f1 (fun q Hq => Hw q (or_intror Hq)))
      as (l2 & f2 & E2 & L2 & T2 & C2).
    exists (l1 ++ l2), f2. unfold abind. rewrite E1, E2. split; [reflexivity|].
    split; [now rewrite L2, L1, app_assoc|]. cbn [length]. split; lia.
Qed.

Lemma check_product_soft (n : nat) (p : product) :
  fails_soft (check_product BeautifulSoup select o n p).
Proof.
  unfold check_product. apply fails_soft_bind.
  - apply fails_soft_answer. unfold unpack_use_selenium.
    destruct (product_rest p) as [|a [|b [|c r]]]; intros e H;
      try discriminate H; injection H as <-; reflexivity.
  - intro v. apply fails_soft_except.
    + apply fails_soft_bind.
      * apply fails_soft_never. intro f.
        destruct (call_fetch_price_done n (product_url p) (product_css_selector p)
                    (truthy_value v) f) as (price & events & E). eauto.
      * intros [new|]; [|apply fails_soft_never; intro; unfold count_error; eauto].
        destruct (truthy (Some new));
          [|apply fails_soft_never; intro; unfold count_error; eauto].
        apply fails_soft_bind; [apply fails_soft_never; intro; unfold perform; eauto|].
        intros _. apply fails_soft_bind.
        { apply fails_soft_answer. apply (soft_update world_soft). }
        intros _. apply fails_soft_bind;
          [apply fails_soft_never; intro; unfold count_checked; eauto|].
        intros _. destruct (product_price p) as [old|];
          [|apply fails_soft_never; intro; unfold aret; eauto].
        destruct (_ && _); [|apply fails_soft_never; intro; unfold aret; eauto].
        apply fails_soft_bind.
        { apply fails_soft_answer. unfold py_div. intros e H.
          destruct (Qeq_bool old 0); [injection H as <-; reflexivity|discriminate H]. }
        intros q. apply fails_soft_bind;
          [|intros; apply fails_soft_never; intro; unfold count_changed; eauto].
        apply fails_soft_never. intro f.
        destruct (send_price_alert_done n (product_email p) (product_name p) old new
                    (Some (product_url p)) f) as (l & E). eauto.
    + apply fails_soft_never. intro. unfold count_error. eauto.
Qed.

Lemma check_products_soft :
  forall (rows : list product) (n : nat),
    fails_soft (check_products BeautifulSoup select o n rows).
Proof.
  induction rows as [|p rows IH]; intro n; cbn [check_products].
  - apply fails_soft_never. intro. unfold aret. eauto.
  - apply fails_soft_bind; [apply check_product_soft|intros; apply IH].
Qed.

(** X22: a check cycle never fails, whatever fails outside with an error
    deriving from [Exception]: the database, the web, the browser, the
    selection engine, the mail server, or a row that does not unpack. *)
Theorem check_prices_cycle_never_raises :
  forall f : frame,
  exists f', check_prices_cycle BeautifulSoup select o f = (Done tt, f').
Proof.
  intro f. unfold check_prices_cycle. apply except_soft_done.
  apply fails_soft_bind; [apply fails_soft_never; intro; unfold perform; eauto|].
  intros _. apply fails_soft_bind.
  - apply fails_soft_answer. apply (soft_products world_soft).
  - intros [|p rows]; [apply fails_soft_never; intro; unfold aret; eauto|].
    apply fails_soft_bind; [apply fails_soft_never; intro; eauto|].
    intros _. apply fails_soft_bind; [apply check_products_soft|].
    intros _. apply fails_soft_never. intro f0. unfold perform. eauto.
Qed.

(** X23: when the table has rows, of eight or nine columns, the cycle
    ends with its summary, in which every product is counted once, as
    checked or as an error, and no more products are counted as changed
    than as checked. *)
Theorem cycle_summary_adds_up :
  forall (products : list product) (f : frame),
    get_all_products o = Done products -> products <> [] ->
    (forall p, In p products ->
       (length (product_rest p) = 1 \/ length (product_rest p) = 2)%nat) ->
    exists l n_checked n_changed n_errors f',
      check_prices_cycle BeautifulSoup select o f = (Done tt, f')
      /\ log f' = log f ++ DbSelectAll :: l
                  ++ [Summary n_checked n_changed n_errors (length products)]
      /\ (n_checked + n_errors = length products)%nat
      /\ (n_changed <= n_checked)%nat.
Proof.
  intros products f Hget Hne Hw. unfold check_prices_cycle.
  unfold except_Exception, abind at 1, perform at 1, abind at 1, answer at 1.
  rewrite Hget. destruct products as [|p rows]; [contradiction|].
  unfold abind at 1. unfold abind at 1.
  cbn [log].
  destruct (check_products_tally (p :: rows) 0 (Frame (log f ++ [DbSelectAll]) 0 0 0) Hw)
    as (l & f1 & E & L & T & C).
  rewrite E. unfold perform. cbn [log checked changed errors] in *.
  exists l, (checked f1), (changed f1), (errors f1).
  eexists. split; [reflexivity|]. cbn [log]. rewrite L, <- !app_assoc.
  split; [reflexivity|]. split; lia.
Qed.
End CycleErrors.

Lemma world_rendered_soft : world_raises_Exception world_rendered.
Proof. constructor; simpl; intros; intros e H; discriminate H. Defined.

Lemma sample_outside_soft : outside_soft sample_outside.
Proof.
  constructor; simpl; intros; try (intros e H; discriminate H).
  exact world_rendered_soft.
Defined.

Lemma select_nothing_soft : select_raises_Exception select_nothing.
Proof. intros soup sel e H. discriminate H. Defined.

Lemma check_prices_cycle_never_raises_witness :
  exists f',
    check_prices_cycle sample_soup select_nothing sample_outside (Frame [] 0 0 0)
    = (Done tt, f').
Proof.
  exact (check_prices_cycle_never_raises sample_soup select_nothing sample_outside
           sample_outside_soft select_nothing_soft (Frame [] 0 0 0)).
Defined.

Lemma cycle_summary_adds_up_witness :
  exists l n_checked n_changed n_errors f',
    check_prices_cycle sample_soup select_nothing sample_outside (Frame [] 0 0 0)
    = (Done tt, f')
    /\ log f' = [] ++ DbSelectAll :: l ++ [Summary n_checked n_changed n_errors 1]
    /\ (n_checked + n_errors = 1)%nat
    /\ (n_changed <= n_checked)%nat.
Proof.
  apply (cycle_summary_adds_up sample_soup select_nothing sample_outside
           sample_outside_soft select_nothing_soft [kettle] (Frame [] 0 0 0)).
  - reflexivity.
  - discriminate.
  - intros p [<-|[]]. right. reflexivity.
Defined.

(** ** The flag of a row *)

Lemma in_firstn_list (A : Type) (x : A) (l : list A) :
  forall n, In x (firstn n l) -> In x l.
Proof.
  induction l as [|a l IH]; intros [|n] H; cbn [firstn] in H; try contradiction.
  destruct H as [<-|H]; [now left|right; exact (IH n H)].
Qed.

Section CycleFlag.
Variable BeautifulSoup : str -> document.
Variable select : document -> str -> result (list element).
Variable o : outside.

Lemma after_fetch_adds (P : action -> Prop) (n : nat) (p : product)
      (new_price : option Q) :
  (forall a, (forall e, a <> Web e) -> P a) ->
  adds P
    (match new_price with
     | Some new =>
         if truthy new_price then
           perform (DbUpdate (product_id p) new) ~~>
           answer (update_product_price o (product_id p) new) ~~>
           count_checked ~~>
           match product_price p with
           | Some old =>
               if truthy (product_price p) && negb (Qeq_bool old new) then
                 q <~ answer (py_div (new - old) old) ;;
                 send_price_alert (settings o) (mail o n) (product_email p)
                   (product_name p) old new (Some (product_url p)) ~~>
                 count_changed
               else aret tt
           | None => aret tt
           end
         else count_error
     | None => count_error
     end).
Proof.
  intro HP. destruct new_price as [new|]; [|apply adds_count].
  destruct (truthy (Some new)); [|apply adds_count].
  apply adds_bind; [apply adds_perform; apply HP; discriminate|]. intros _ _.
  apply adds_bind; [apply adds_answer|]. intros _ _.
  apply adds_bind; [apply adds_count|]. intros _ _.
  destruct (product_price p) as [old|]; [|apply adds_ret].
  destruct (_ && _); [|apply adds_ret].
  apply adds_bind; [apply adds_answer|]. intros q _.
  apply adds_bind; [|intros; apply adds_count].
  eapply adds_weaken; [|apply send_price_alert_adds].
  intros a Ha. apply HP. intros e ->. exact Ha.
Qed.

(** X24: for a row of nine columns the browser is forced exactly when
    the eighth column is true in Python, whatever the ninth holds: with a
    true eighth column no HTTP request is made for the product, with a
    false one the check starts with the HTTP request.  (In a table
    [init_db] has upgraded the eighth column is not [use_selenium].) *)
Theorem flag_is_read_from_eighth_column :
  forall (n : nat) (p : product) (eighth ninth : sql_value) (f : frame),
    product_rest p = [eighth; ninth] ->
    exists l,
      log (snd (check_product BeautifulSoup select o n p f)) = log f ++ l
      /\ (truthy_value eighth = true -> forall u, ~ In (Web (HttpGet u)) l)
      /\ (truthy_value eighth = false ->
          exists l', l = Web (HttpGet (product_url p)) :: l').
Proof.
  intros n p eighth ninth f Hrest. unfold check_product, unpack_use_selenium.
  rewrite Hrest. unfold abind at 1, answer at 1.
  unfold except_Exception, abind at 1.
  destruct (call_fetch_price_frame BeautifulSoup select (web o n) (product_url p)
              (product_css_selector p) (truthy_value eighth) f)
    as (r & events & E0 & E).
  rewrite E. clear E.
  set (f1 := Frame (log f ++ map Web events) (checked f) (changed f) (errors f)).
  assert (Rest : forall (c : Act unit) (h : Act unit) (r0 : reply unit) (f2 : frame),
             adds (fun a => forall e, a <> Web e) c ->
             adds (fun a => forall e, a <> Web e) h ->
             (match c f1 with
              | (Done a, f') => (Done a, f')
              | (Failed e, f') => if derives_Exception e then h f' else (Failed e, f')
              end) = (r0, f2) ->
             exists l2, log f2 = log f ++ map Web events ++ l2
                        /\ Forall (fun a => forall e, a <> Web e) l2).
  { intros c h r0 f2 Hc Hh H.
    destruct (adds_except _ _ c h Hc Hh f1 r0 f2 H) as (l2 & L2 & F2).
    exists l2. split; [|exact F2]. rewrite L2. unfold f1. cbn [log].
    now rewrite <- app_assoc. }
  assert (Tail : exists l2,
             log (snd (match r with
                       | Ok price =>
                           match (match price with
                                  | Some new =>
                                      if truthy price then
                                        perform (DbUpdate (product_id p) new) ~~>
                                        answer (update_product_price o (product_id p) new) ~~>
                                        count_checked ~~>
                                        match product_price p with
                                        | Some old =>
                                            if truthy (product_price p)
                                               && negb (Qeq_bool old new) then
                                              q <~ answer (py_div (new - old) old) ;;
                                              send_price_alert (settings o) (mail o n)
                                                (product_email p) (product_name p) old new
                                                (Some (product_url p)) ~~>
                                              count_changed
                                            else aret tt
                                        | None => aret tt
                                        end
                                      else count_error
                                  | None => count_error
                                  end) f1 with
                           | (Done a, f') => (Done a, f')
                           | (Failed e, f') =>
                               if derives_Exception e then count_error f'
                               else (Failed e, f')
                           end
                       | Raise e =>
                           if derives_Exception (error_of e) then count_error f1
                           else (Failed (error_of e), f1)
                       end))
             = log f ++ map Web events ++ l2
             /\ Forall (fun a => forall e, a <> Web e) l2).
  { destruct r as [price|e].
    - eapply (Rest _ count_error).
      + apply (after_fetch_adds _ n p price). auto.
      + apply adds_count.
      + apply surjective_pairing.
    - exists []. rewrite app_nil_r. split; [|constructor].
      destruct (derives_Exception (error_of e)); reflexivity. }
  destruct Tail as (l2 & L2 & F2).
  exists (map Web events ++ l2). split.
  - destruct r as [price|e]; exact L2.
  - split.
    + intros Hforce u Hin. rewrite Hforce in E0.
      apply in_app_or in Hin. destruct Hin as [Hin|Hin].
      * apply in_map_iff in Hin. destruct Hin as (e & He & Hin). injection He as ->.
        unfold fetch_price in E0.
        destruct (fetch_price_selenium_trace BeautifulSoup select (web o n)
                    (product_url p) (product_css_selector p) []) as (k & Hk).
        rewrite E0 in Hk. cbn [snd app] in Hk. subst events.
        apply in_firstn_list in Hin. unfold browser_calls in Hin.
        repeat (destruct Hin as [Hin|Hin]; [discriminate Hin|]). exact Hin.
      * rewrite Forall_forall in F2. exact (F2 _ Hin (HttpGet u) eq_refl).
    + intros Hforce. rewrite Hforce in E0. unfold fetch_price, bind in E0.
      pose proof (fetch_price_simple_trace BeautifulSoup select (web o n)
                    (product_url p) (product_css_selector p) []) as Hs.
      destruct (fetch_price_simple _ _ _ _ _ _) as [[price|e] t1];
        cbn [snd app] in Hs; subst t1.
      * destruct (truthy price).
        -- injection E0 as _ <-. cbn [map app]. eauto.
        -- destruct (fetch_price_selenium_trace BeautifulSoup select (web o n)
                       (product_url p) (product_css_selector p)
                       [HttpGet (product_url p)]) as (k & Hk).
           destruct (fetch_price_selenium _ _ _ _ _ _) as [[price2|e2] t2];
             cbn [snd] in Hk; subst t2.
           ++ assert (events = [HttpGet (product_url p)]
                               ++ firstn k (browser_calls (product_url p)))
                by (destruct (truthy price2); now injection E0 as _ <-).
              subst events. cbn [map app]. eauto.
           ++ injection E0 as _ <-. cbn [map app]. eauto.
      * injection E0 as _ <-. cbn [map app]. eauto.
Qed.
End CycleFlag.

Lemma flag_is_read_from_eighth_column_witness :
  exists l,
    log (snd (check_product sample_soup select_nothing sample_outside 0 kettle_upgraded
                (Frame [] 0 0 0)))
    = [] ++ l
    /\ (truthy_value (SqlText "2024-04-30 09:00:00") = true ->
        forall u, ~ In (Web (HttpGet u)) l)
    /\ (truthy_value (SqlText "2024-04-30 09:00:00") = false ->
        exists l', l = Web (HttpGet (product_url kettle_upgraded)) :: l').
Proof.
  exact (flag_is_read_from_eighth_column sample_soup select_nothing sample_outside 0
           kettle_upgraded (SqlText "2024-04-30 09:00:00") (SqlInt 0) (Frame [] 0 0 0)
           eq_refl).
Defined.

(** ** The [/add] route *)

Lemma not_set_false (v : option str) :
  not_set v = false -> exists s, v = Some s /\ s <> [] /\ string_or_empty v = s.
Proof.
  destruct v as [[|c s]|]; intro H; try discriminate H.
  exists (c :: s). repeat split. discriminate.
Qed.

Section AddFacts.
Variable BeautifulSoup : str -> document.
Variable select : document -> str -> result (list element).
Variable o : outside.

(** X25: the [/add] route stores a product only when name, url and
    e-mail are filled in and a price was found; what it stores is what was
    entered, with that price, which is positive, and with the selector
    stripped, none if nothing is left of it.  It shows the dashboard only
    after storing.  With a required field missing it fetches nothing. *)
Theorem add_stores_only_priced_products :
  forall (request_form : form) (f : frame) r f',
    add BeautifulSoup select o request_form f = (r, f') ->
    exists l,
      log f' = log f ++ l
      /\ (forall name url email css price flag,
            In (DbInsert name url email css price flag) l ->
            request_form "name"%string = Some name /\ name <> []
            /\ request_form "url"%string = Some url /\ url <> []
            /\ request_form "email"%string = Some email /\ email <> []
            /\ 0 < price
            /\ (forall s, css = Some s ->
                  s <> [] /\ s = strip (string_or_empty (request_form "css_selector"%string)))
            /\ (css = None ->
                  strip (string_or_empty (request_form "css_selector"%string)) = []))
      /\ (r = Done Dashboard ->
          exists name url email css price flag,
            In (DbInsert name url email css price flag) l)
      /\ (not_set (request_form "name"%string) = true
          \/ not_set (request_form "url"%string) = true
          \/ not_set (request_form "email"%string) = true ->
          l = [Flash "error"] /\ r = Done Index).
Proof.
  intros request_form f r f'. unfold add.
  set (css := match strip (string_or_empty (request_form "css_selector"%string)) with
              | [] => None
              | c :: s => Some (c :: s)
              end).
  set (flag := match request_form "use_selenium"%string with
               | Some v => str_eqb v "on"
               | None => false
               end).
  assert (Hcss : (forall s, css = Some s ->
                    s <> [] /\ s = strip (string_or_empty (request_form "css_selector"%string)))
                 /\ (css = None ->
                     strip (string_or_empty (request_form "css_selector"%string)) = [])).
  { unfold css. destruct (strip _) as [|c s0].
    - split; [intros s H; discriminate H|reflexivity].
    - split; [|intro H; discriminate H].
      intros s H. injection H as <-. split; [discriminate|reflexivity]. }
  destruct (not_set (request_form "name"%string)) eqn:Hn.
  { cbn [orb]. unfold abind, perform, aret. intro H. injection H as <- <-. cbn [log].
    exists [Flash "error"]. split; [reflexivity|]. split; [|split].
    - intros ? ? ? ? ? ? [H|[]]. discriminate H.
    - intro H. discriminate H.
    - auto. }
  destruct (not_set (request_form "url"%string)) eqn:Hu.
  { cbn [orb]. unfold abind, perform, aret. intro H. injection H as <- <-. cbn [log].
    exists [Flash "error"]. split; [reflexivity|]. split; [|split].
    - intros ? ? ? ? ? ? [H|[]]. discriminate H.
    - intro H. discriminate H.
    - auto. }
  destruct (not_set (request_form "email"%string)) eqn:He.
  { cbn [orb]. unfold abind, perform, aret. intro H. injection H as <- <-. cbn [log].
    exists [Flash "error"]. split; [reflexivity|]. split; [|split].
    - intros ? ? ? ? ? ? [H|[]]. discriminate H.
    - intro H. discriminate H.
    - auto. }
  cbn [orb].
  destruct (not_set_false _ Hn) as (name & En & Nn & Sn).
  destruct (not_set_false _ Hu) as (url & Eu & Nu & Su).
  destruct (not_set_false _ He) as (email & Ee & Ne & Se).
  rewrite Sn, Su, Se.
  assert (NoWeb : forall events a b c d e0 g,
             ~ In (DbInsert a b c d e0 g) (map Web events)).
  { intros events a b c d e0 g H. apply in_map_iff in H.
    destruct H as (x & Hx & _). discriminate Hx. }
  assert (Missing : not_set (request_form "name"%string) = true
                    \/ not_set (request_form "url"%string) = true
                    \/ not_set (request_form "email"%string) = true -> False)
    by (rewrite Hn, Hu, He; intros [H|[H|H]]; discriminate H).
  unfold abind at 1.
  destruct (call_fetch_price_frame BeautifulSoup select (web o 0) url css flag f)
    as (r0 & events & E0 & E).
  rewrite E. clear E.
  destruct r0 as [[price|]|e].
  - assert (Hpos : 0 < price).
    { apply fetch_price_inv in E0. destruct E0 as (html & E0).
      apply extract_price_inv in E0. destruct E0 as (x & Hx).
      exact (parse_price_pos x price Hx). }
    unfold abind, perform, answer, aret. cbn [log checked changed errors].
    destruct (add_product o) as [[]|e]; intro H; injection H as <- <-; cbn [log].
    + exists (map Web events ++ [DbInsert name url email css price flag; Flash "success"]).
      split; [now rewrite <- !app_assoc|]. split; [|split].
      * intros a b c d e0 g Hin. apply in_app_or in Hin.
        destruct Hin as [Hin|[Hin|[Hin|[]]]];
          [now apply NoWeb in Hin| |discriminate Hin].
        injection Hin as <- <- <- <- <- <-.
        split; [exact En|]. split; [exact Nn|]. split; [exact Eu|]. split; [exact Nu|].
        split; [exact Ee|]. split; [exact Ne|]. split; [exact Hpos|]. exact Hcss.
      * intros _. exists name, url, email, css, price, flag.
        apply in_or_app. right. now left.
      * intros [M|[M|M]]; discriminate M.
    + exists (map Web events ++ [DbInsert name url email css price flag]).
      split; [now rewrite <- !app_assoc|]. split; [|split].
      * intros a b c d e0 g Hin. apply in_app_or in Hin.
        destruct Hin as [Hin|[Hin|[]]]; [now apply NoWeb in Hin|].
        injection Hin as <- <- <- <- <- <-.
        split; [exact En|]. split; [exact Nn|]. split; [exact Eu|]. split; [exact Nu|].
        split; [exact Ee|]. split; [exact Ne|]. split; [exact Hpos|]. exact Hcss.
      * intro H. discriminate H.
      * intros [M|[M|M]]; discriminate M.
  - unfold abind, perform, aret. cbn [log]. intro H. injection H as <- <-. cbn [log].
    exists (map Web events ++ [Flash "error"]).
    split; [now rewrite <- !app_assoc|]. split; [|split].
    + intros a b c d e0 g Hin. apply in_app_or in Hin.
      destruct Hin as [Hin|[Hin|[]]]; [now apply NoWeb in Hin|discriminate Hin].
    + intro H. discriminate H.
    + intros [M|[M|M]]; discriminate M.
  - intro H. injection H as <- <-. cbn [log].
    exists (map Web events). split; [reflexivity|]. split; [|split].
    + intros a b c d e0 g Hin. now apply NoWeb in Hin.
    + intro H. discriminate H.
    + intros [M|[M|M]]; discriminate M.
Qed.
End AddFacts.

Lemma add_stores_only_priced_products_witness :
  exists l,
    log (snd (add sample_soup select_nothing sample_outside kettle_form (Frame [] 0 0 0)))
    = [] ++ l
    /\ In (DbInsert "Kettle" "http://shop.example/kettle" "you@example.org" None 49.99 false) l.
Proof.
  destruct (add_stores_only_priced_products sample_soup select_nothing sample_outside
              kettle_form (Frame [] 0 0 0) _ _ (surjective_pairing _)) as (l & E & _).
  exists l. split; [exact E|].
  vm_compute in E. subst l. vm_compute.
  do 7 right. left. reflexivity.
Defined.

Lemma init_db_idempotent_witness :
  firstn 8 (init_db (Some ["id"; "name"; "url"; "email"; "css_selector";
                           "current_price"; "last_checked"; "created_at"]%string))
  = ["id"; "name"; "url"; "email"; "css_selector";
     "current_price"; "last_checked"; "created_at"]%string.
Proof.
  exact (proj2 (proj2 (init_db_idempotent
                         (Some ["id"; "name"; "url"; "email"; "css_selector";
                                "current_price"; "last_checked"; "created_at"]%string)))
           _ eq_refl).
Defined.
